(** * Mission Control: the live-sync core of the dashboard

    A shallow embedding of the synchronisation logic of
    [src/components/AgentsSidebar.tsx] (the [AgentActivityDashboard]
    component) and of the workspace page ([WorkspacePage]): the event-stream
    handlers, the poll scheduler, the refresh and load functions, the
    connectivity check, the task poller and the derived "blocked agents" set.

    The components are event driven.  Every callback of the source (an effect,
    an effect cleanup, an [EventSource] handler, a timer callback, the
    continuation of an [await]) is a function on an explicit state that holds
    the component state, the refs, the browser's timers and connections, the
    in-flight asynchronous calls and a trace of the calls made. *)

From Stdlib Require Import Ascii String.
From stdpp Require Import gmap strings list.

(* [set_solver] clears hypotheses by name; silence its notices. *)
#[local] Set Warnings "-clear-no-such-hyp".

Open Scope string_scope.

(** ** Data model ([@/lib/types], as far as the code reads it) *)

Record Agent := mkAgent {
  agent_id : string;
  agent_name : string;
  agent_status : string;
}.

Record Task := mkTask {
  task_id : string;
  task_title : string;
  task_status : string;
  assigned_agent_id : option string;
  updated_at : string;
}.

Record Event := mkEvent {
  event_id : string;
  event_type : string;
  event_message : string;
  event_created_at : string;
}.

(** A [Response]: the [ok] flag and what [res.json()] settles to
    ([None]: the body promise rejects). *)
Record response (A : Type) := mkResponse {
  ok : bool;
  json : option A;
}.
Arguments mkResponse {A} _ _.
Arguments ok {A} _.
Arguments json {A} _.

(** How the three fetches of a load or refresh settle ([None]: the fetch
    promise rejects), and what [Promise.all] makes of them. *)
Inductive outcome :=
| Rejected
| Fulfilled (ra : response (list Agent)) (rt : response (list Task))
            (re : response (list Event)).

Definition promise_all (fa : option (response (list Agent)))
    (ft : option (response (list Task))) (fe : option (response (list Event)))
    : outcome :=
  match fa, ft, fe with
  | Some ra, Some rt, Some re => Fulfilled ra rt re
  | _, _, _ => Rejected
  end.

(** JavaScript truthiness of a [string | null | undefined]. *)
Definition truthy (o : option string) : bool :=
  match o with
  | Some s => negb (String.eqb s "")
  | None => false
  end.

(** [x === id] for [x : string | null] and [id : string]. *)
Definition strict_eq (o : option string) (id : string) : bool :=
  match o with
  | Some s => String.eqb s id
  | None => false
  end.

(** The workspace scope of a closure: [workspace?.id]. *)
Abbreviation scope := (option string).

(** [workspaceId ? `${base}?workspace_id=${workspaceId}` : base] *)
Definition scoped_url (base : string) (workspaceId : scope) : string :=
  if truthy workspaceId
  then base ++ "?workspace_id=" ++ default "" workspaceId
  else base.

(** ** Query strings

    Enough of URL parsing to read a query parameter back from a request
    URL: the text after the first '?', split at '&', each piece split at its
    first '='.  A fragment is not cut off and values are not
    percent-decoded: the URLs the components request have neither. *)

Fixpoint split_at (c : ascii) (s : string) : string * option string :=
  match s with
  | EmptyString => (EmptyString, None)
  | String a rest =>
      if Ascii.eqb a c then (EmptyString, Some rest)
      else let '(l, r) := split_at c rest in (String a l, r)
  end.

Fixpoint split_all (fuel : nat) (c : ascii) (s : string) : list string :=
  match fuel with
  | O => [s]
  | S fuel' =>
      match split_at c s with
      | (l, None) => [l]
      | (l, Some r) => l :: split_all fuel' c r
      end
  end.

Definition query_params (url : string) : list (string * string) :=
  match split_at "?"%char url with
  | (_, None) => []
  | (_, Some q) =>
      map (fun kv => let '(k, v) := split_at "="%char kv in (k, default "" v))
          (split_all (String.length q) "&"%char q)
  end.

Definition query_param (name url : string) : option string :=
  snd <$> List.find (fun kv => String.eqb (fst kv) name) (query_params url).

(** The request asks for a window of at most [n] entries. *)
Definition limit_of (url : string) : option string := query_param "limit" url.

(** ** Derived view: blocked agents (AgentsSidebar.tsx, [blockedAgentIds]) *)

Definition blocked_by_task (ids : gset string) (task : Task) : gset string :=
  if negb (truthy (assigned_agent_id task)) then ids
  else if String.eqb (task_status task) "testing"
          || String.eqb (task_status task) "review"
       then {[ default "" (assigned_agent_id task) ]} ∪ ids
       else ids.

Definition hasAssignedActiveTask (tasks : list Task) (agent : Agent) : bool :=
  existsb (fun task => strict_eq (assigned_agent_id task) (agent_id agent)
                       && negb (String.eqb (task_status task) "done")) tasks.

Definition blocked_by_offline (tasks : list Task) (ids : gset string)
    (agent : Agent) : gset string :=
  if String.eqb (agent_status agent) "offline"
  then if hasAssignedActiveTask tasks agent then {[ agent_id agent ]} ∪ ids
       else ids
  else ids.

Definition blockedAgentIds (agents : list Agent) (tasks : list Task) : gset string :=
  foldl (blocked_by_offline tasks) (foldl blocked_by_task ∅ tasks) agents.

(** [blockedAgentIds.has(agent.id)] *)
Definition is_blocked (agents : list Agent) (tasks : list Task) (a : Agent) : bool :=
  bool_decide (agent_id a ∈ blockedAgentIds agents tasks).

(** The classification in the words of the specification. *)
Definition assigned_to (a : Agent) (t : Task) : Prop :=
  assigned_agent_id t = Some (agent_id a).

Definition blocked_spec (tasks : list Task) (a : Agent) : Prop :=
  (∃ t, t ∈ tasks ∧ assigned_to a t
        ∧ (task_status t = "testing" ∨ task_status t = "review"))
  ∨ (agent_status a = "offline"
     ∧ ∃ t, t ∈ tasks ∧ assigned_to a t ∧ task_status t ≠ "done").

(** ** Change detection of the task poller (workspace page, [taskPoll]) *)

Definition task_changed (currentTasks : list Task) (t : Task) : bool :=
  match List.find (fun ct => String.eqb (task_id ct) (task_id t)) currentTasks with
  | None => true
  | Some current => negb (String.eqb (updated_at current) (updated_at t))
  end.

Definition hasChanges (newTasks currentTasks : list Task) : bool :=
  negb (length newTasks =? length currentTasks)%nat
  || existsb (task_changed currentTasks) newTasks.

(** The same test in the words of the specification. *)
Definition differs_spec (newTasks currentTasks : list Task) : Prop :=
  length newTasks ≠ length currentTasks
  ∨ ∃ t, t ∈ newTasks
       ∧ ((∀ ct, ct ∈ currentTasks → task_id ct ≠ task_id t)
          ∨ ∃ ct, List.find (fun ct => String.eqb (task_id ct) (task_id t)) currentTasks
                  = Some ct
                ∧ updated_at ct ≠ updated_at t).


(** ** The activity dashboard ([AgentActivityDashboard], AgentsSidebar.tsx) *)

Module Dashboard.

(** Calls the component makes, in the order they are made. *)
Inductive action :=
| Fetch (url : string)
| OpenEventSource (url : string) (h : nat)
| CloseEventSource (h : nat)
| SetInterval (h : nat) (ms : Z)
| ClearInterval (h : nat)
| SetAgents (v : list Agent)
| SetTasks (v : list Task)
| SetEvents (v : list Event)
| SetLoading (b : bool)
| SetSseConnected (b : bool)
| ConsoleError (msg : string).

(** An in-flight call of one of the two async functions.  [LoadData flag]
    remembers which [mounted] variable its closure reads. *)
Inductive kind := LoadData (flag : nat) | Refresh.

(** Where the call is suspended: at [await Promise.all(...)], or at one of
    the three [await res.json()], with the responses still to be handled. *)
Inductive phase :=
| AwaitAll
| AwaitAgents (ra : response (list Agent)) (rt : response (list Task))
              (re : response (list Event))
| AwaitTasks (rt : response (list Task)) (re : response (list Event))
| AwaitEvents (re : response (list Event)).

Record job := mkJob {
  j_kind : kind;
  j_scope : scope;          (* the [workspaceId] its closure captured *)
  j_phase : phase;
}.

(** The component instance: not yet mounted, mounted (with the [workspaceId]
    its effects last ran with and the [mounted] variable of the current
    load effect), or unmounted. *)
Inductive lifecycle := Fresh | Live (workspaceId : scope) (flag : nat) | Gone.

Record state := mkState {
  (* useState *)
  agents : list Agent;
  tasks : list Task;
  events : list Event;
  loading : bool;
  sseConnected : bool;
  (* useRef *)
  eventSourceRef : option nat;
  pollingIntervalRef : option nat;
  (* the browser: event sources that are not CLOSED and active interval
     timers, each with the [workspaceId] its callbacks captured *)
  sources : gmap nat scope;
  intervals : gmap nat scope;
  (* the [mounted] variables of the runs of the load effect *)
  mounted : gmap nat bool;
  (* in-flight async calls *)
  jobs : gmap nat job;
  next : nat;
  life : lifecycle;
  trace : list action;
}.

Definition with_agents v s :=
  mkState v (tasks s) (events s) (loading s) (sseConnected s) (eventSourceRef s)
    (pollingIntervalRef s) (sources s) (intervals s) (mounted s) (jobs s) (next s)
    (life s) (trace s).
Definition with_tasks v s :=
  mkState (agents s) v (events s) (loading s) (sseConnected s) (eventSourceRef s)
    (pollingIntervalRef s) (sources s) (intervals s) (mounted s) (jobs s) (next s)
    (life s) (trace s).
Definition with_events v s :=
  mkState (agents s) (tasks s) v (loading s) (sseConnected s) (eventSourceRef s)
    (pollingIntervalRef s) (sources s) (intervals s) (mounted s) (jobs s) (next s)
    (life s) (trace s).
Definition with_loading v s :=
  mkState (agents s) (tasks s) (events s) v (sseConnected s) (eventSourceRef s)
    (pollingIntervalRef s) (sources s) (intervals s) (mounted s) (jobs s) (next s)
    (life s) (trace s).
Definition with_sseConnected v s :=
  mkState (agents s) (tasks s) (events s) (loading s) v (eventSourceRef s)
    (pollingIntervalRef s) (sources s) (intervals s) (mounted s) (jobs s) (next s)
    (life s) (trace s).
Definition with_eventSourceRef v s :=
  mkState (agents s) (tasks s) (events s) (loading s) (sseConnected s) v
    (pollingIntervalRef s) (sources s) (intervals s) (mounted s) (jobs s) (next s)
    (life s) (trace s).
Definition with_pollingIntervalRef v s :=
  mkState (agents s) (tasks s) (events s) (loading s) (sseConnected s) (eventSourceRef s)
    v (sources s) (intervals s) (mounted s) (jobs s) (next s)
    (life s) (trace s).
Definition with_sources v s :=
  mkState (agents s) (tasks s) (events s) (loading s) (sseConnected s) (eventSourceRef s)
    (pollingIntervalRef s) v (intervals s) (mounted s) (jobs s) (next s)
    (life s) (trace s).
Definition with_intervals v s :=
  mkState (agents s) (tasks s) (events s) (loading s) (sseConnected s) (eventSourceRef s)
    (pollingIntervalRef s) (sources s) v (mounted s) (jobs s) (next s)
    (life s) (trace s).
Definition with_mounted v s :=
  mkState (agents s) (tasks s) (events s) (loading s) (sseConnected s) (eventSourceRef s)
    (pollingIntervalRef s) (sources s) (intervals s) v (jobs s) (next s)
    (life s) (trace s).
Definition with_jobs v s :=
  mkState (agents s) (tasks s) (events s) (loading s) (sseConnected s) (eventSourceRef s)
    (pollingIntervalRef s) (sources s) (intervals s) (mounted s) v (next s)
    (life s) (trace s).
Definition with_next v s :=
  mkState (agents s) (tasks s) (events s) (loading s) (sseConnected s) (eventSourceRef s)
    (pollingIntervalRef s) (sources s) (intervals s) (mounted s) (jobs s) v
    (life s) (trace s).
Definition with_life v s :=
  mkState (agents s) (tasks s) (events s) (loading s) (sseConnected s) (eventSourceRef s)
    (pollingIntervalRef s) (sources s) (intervals s) (mounted s) (jobs s) (next s)
    v (trace s).
Definition with_trace v s :=
  mkState (agents s) (tasks s) (events s) (loading s) (sseConnected s) (eventSourceRef s)
    (pollingIntervalRef s) (sources s) (intervals s) (mounted s) (jobs s) (next s)
    (life s) v.

Definition emit (a : action) (s : state) : state :=
  with_trace (trace s ++ [a]) s.

(** The state setters. *)
Definition setAgents v s := emit (SetAgents v) (with_agents v s).
Definition setTasks v s := emit (SetTasks v) (with_tasks v s).
Definition setEvents v s := emit (SetEvents v) (with_events v s).
Definition setLoading b s := emit (SetLoading b) (with_loading b s).
Definition setSseConnected b s := emit (SetSseConnected b) (with_sseConnected b s).

(** The three requests both async functions start with (lines 338-342 and
    366-370). *)
Definition agents_url (workspaceId : scope) := scoped_url "/api/agents" workspaceId.
Definition tasks_url (workspaceId : scope) := scoped_url "/api/tasks" workspaceId.
Definition events_url : string := "/api/events?limit=150".

Definition requests (workspaceId : scope) : list action :=
  [Fetch (agents_url workspaceId); Fetch (tasks_url workspaceId); Fetch events_url].

Definition start_job (k : kind) (workspaceId : scope) (s : state) : state :=
  let j := next s in
  with_jobs (<[j := mkJob k workspaceId AwaitAll]> (jobs s))
    (with_trace (trace s ++ requests workspaceId) (with_next (S j) s)).

(** [refresh()] up to its first [await]. *)
Definition refresh (workspaceId : scope) (s : state) : state :=
  start_job Refresh workspaceId s.

(** [loadData()] up to its first [await]. *)
Definition loadData (workspaceId : scope) (flag : nat) (s : state) : state :=
  start_job (LoadData flag) workspaceId s.

Definition is_mounted (flag : nat) (s : state) : bool :=
  match mounted s !! flag with
  | Some b => b
  | None => false
  end.

(** The call returns: [loadData] runs its [finally] block. *)
Definition finish (j : nat) (jb : job) (s : state) : state :=
  let s := with_jobs (delete j (jobs s)) s in
  match j_kind jb with
  | LoadData flag => if is_mounted flag s then setLoading false s else s
  | Refresh => s
  end.

Definition error_message (k : kind) : string :=
  match k with
  | LoadData _ => "Failed to load activity dashboard data:"
  | Refresh => "Failed to refresh activity dashboard data:"
  end.

(** The [catch] block. *)
Definition fail (j : nat) (jb : job) (s : state) : state :=
  finish j jb (emit (ConsoleError (error_message (j_kind jb))) s).

Definition suspend (j : nat) (jb : job) (p : phase) (s : state) : state :=
  with_jobs (<[j := mkJob (j_kind jb) (j_scope jb) p]> (jobs s)) s.

(** [if (eventsRes.ok) setEvents(await eventsRes.json())] and the two lines
    before it: a response that is not ok is skipped, an ok one suspends the
    call on its body. *)
Definition events_line j jb (re : response (list Event)) s :=
  if ok re then suspend j jb (AwaitEvents re) s else finish j jb s.

Definition tasks_line j jb (rt : response (list Task)) re s :=
  if ok rt then suspend j jb (AwaitTasks rt re) s else events_line j jb re s.

Definition agents_line j jb (ra : response (list Agent)) rt re s :=
  if ok ra then suspend j jb (AwaitAgents ra rt re) s else tasks_line j jb rt re s.

(** [Promise.all] settles. *)
Definition settle (j : nat) (fa : option (response (list Agent)))
    (ft : option (response (list Task))) (fe : option (response (list Event)))
    (s : state) : state :=
  match jobs s !! j with
  | Some jb =>
      match j_phase jb, promise_all fa ft fe with
      | AwaitAll, Rejected => fail j jb s
      | AwaitAll, Fulfilled ra rt re =>
          match j_kind jb with
          | LoadData flag =>
              if negb (is_mounted flag s) then finish j jb s
              else agents_line j jb ra rt re s
          | Refresh => agents_line j jb ra rt re s
          end
      | _, _ => s
      end
  | None => s
  end.

(** The pending [res.json()] settles. *)
Definition body (j : nat) (s : state) : state :=
  match jobs s !! j with
  | Some jb =>
      match j_phase jb with
      | AwaitAll => s
      | AwaitAgents ra rt re =>
          match json ra with
          | Some v => tasks_line j jb rt re (setAgents v s)
          | None => fail j jb s
          end
      | AwaitTasks rt re =>
          match json rt with
          | Some v => events_line j jb re (setTasks v s)
          | None => fail j jb s
          end
      | AwaitEvents re =>
          match json re with
          | Some v => finish j jb (setEvents v s)
          | None => fail j jb s
          end
      end
  | None => s
  end.

(** *** The poll scheduler (lines 380-390) *)

Definition startPolling (workspaceId : scope) (s : state) : state :=
  match pollingIntervalRef s with
  | Some _ => s
  | None =>
      let t := next s in
      with_pollingIntervalRef (Some t)
        (with_intervals (<[t := workspaceId]> (intervals s))
           (emit (SetInterval t 20000%Z) (with_next (S t) s)))
  end.

Definition stopPolling (s : state) : state :=
  match pollingIntervalRef s with
  | Some t =>
      with_pollingIntervalRef None
        (with_intervals (delete t (intervals s)) (emit (ClearInterval t) s))
  | None => s
  end.

(** *** The live channel (lines 392-412) *)

Definition close (h : nat) (s : state) : state :=
  with_sources (delete h (sources s)) (emit (CloseEventSource h) s).

Definition connectSSE (workspaceId : scope) (s : state) : state :=
  let h := next s in
  with_eventSourceRef (Some h)
    (with_sources (<[h := workspaceId]> (sources s))
       (emit (OpenEventSource "/api/events/stream" h) (with_next (S h) s))).

Definition onopen (s : state) : state :=
  stopPolling (setSseConnected true s).

Definition onmessage (workspaceId : scope) (data : string) (s : state) : state :=
  if String.prefix ":" data then s else refresh workspaceId s.

Definition onerror (h : nat) (workspaceId : scope) (s : state) : state :=
  startPolling workspaceId
    (with_eventSourceRef None (close h (setSseConnected false s))).

(** *** The two effects and their cleanups (lines 333-361 and 363-421) *)

Definition load_effect (workspaceId : scope) (s : state) : state :=
  let flag := next s in
  with_life (Live workspaceId flag)
    (loadData workspaceId flag
       (with_mounted (<[flag := true]> (mounted s)) (with_next (S flag) s))).

Definition load_cleanup (flag : nat) (s : state) : state :=
  with_mounted (<[flag := false]> (mounted s)) s.

Definition sync_effect (workspaceId : scope) (s : state) : state :=
  startPolling workspaceId (connectSSE workspaceId s).

Definition sync_cleanup (s : state) : state :=
  stopPolling
    (match eventSourceRef s with
     | Some h => close h s
     | None => s
     end).

(** Teardown of the current scope: the cleanups in the order of the
    effects. *)
Definition teardown (flag : nat) (s : state) : state :=
  sync_cleanup (load_cleanup flag s).

Definition setup (workspaceId : scope) (s : state) : state :=
  sync_effect workspaceId (load_effect workspaceId s).

(** *** What can happen to the component *)

Inductive event :=
| Mount (workspaceId : scope)
| Rerender (workspaceId : scope)
| Unmount
| SseOpen (h : nat)
| SseMessage (h : nat) (data : string)
| SseError (h : nat)
| Tick (t : nat)
| Settle (j : nat) (fa : option (response (list Agent)))
         (ft : option (response (list Task))) (fe : option (response (list Event)))
| Body (j : nat).

(** An event source that was closed dispatches nothing, a cleared timer
    does not fire, and effects re-run only when [workspaceId] changed. *)
Definition step (e : event) (s : state) : state :=
  match e with
  | Mount ws =>
      match life s with
      | Fresh => setup ws s
      | _ => s
      end
  | Rerender ws =>
      match life s with
      | Live old flag =>
          if decide (old = ws) then s else setup ws (teardown flag s)
      | _ => s
      end
  | Unmount =>
      match life s with
      | Live _ flag => with_life Gone (teardown flag s)
      | _ => s
      end
  | SseOpen h =>
      match sources s !! h with
      | Some _ => onopen s
      | None => s
      end
  | SseMessage h data =>
      match sources s !! h with
      | Some ws => onmessage ws data s
      | None => s
      end
  | SseError h =>
      match sources s !! h with
      | Some ws => onerror h ws s
      | None => s
      end
  | Tick t =>
      match intervals s !! t with
      | Some ws => refresh ws s
      | None => s
      end
  | Settle j fa ft fe => settle j fa ft fe s
  | Body j => body j s
  end.

Definition run (evs : list event) (s : state) : state :=
  foldl (fun s e => step e s) s evs.

(** Timer and connection handles are positive, as in the browser. *)
Definition init : state :=
  mkState [] [] [] true false None None ∅ ∅ ∅ ∅ 1 Fresh [].

Definition reachable (s : state) : Prop := ∃ evs, s = run evs init.

(** A call resumed until it returns: [Promise.all] settles, then the bodies
    of the ok responses (at most three) are read, with nothing else
    happening in between. *)
Definition complete (j : nat) (fa : option (response (list Agent)))
    (ft : option (response (list Task))) (fe : option (response (list Event)))
    (s : state) : state :=
  body j (body j (body j (settle j fa ft fe s))).

(** Sequences of calls to the poll scheduler. *)
Inductive call := Start (workspaceId : scope) | Stop.

Definition do_call (c : call) (s : state) : state :=
  match c with
  | Start workspaceId => startPolling workspaceId s
  | Stop => stopPolling s
  end.

Definition do_calls (cs : list call) (s : state) : state :=
  foldl (fun s c => do_call c s) s cs.

(** *** Invariant of the component

    The active timers are exactly the one the ref holds, an event source
    that is not closed is the one the ref holds, a component that is not
    mounted has neither, and handles are never reused. *)

Definition ref_set (r : option nat) : gset nat :=
  match r with
  | Some h => {[ h ]}
  | None => ∅
  end.

Definition idle (s : state) : Prop :=
  match life s with
  | Live _ _ => True
  | _ => intervals s = ∅ ∧ sources s = ∅
  end.

Record inv (s : state) : Prop := mkInv {
  inv_timers : dom (intervals s) = ref_set (pollingIntervalRef s);
  inv_sources : dom (sources s) ⊆ ref_set (eventSourceRef s);
  inv_idle : idle s;
  inv_fresh : ∀ j, j ∈ dom (jobs s) → j < next s;
}.

(** Two states with the same timers, connections, refs and lifecycle. *)
Definition same_channels (s s' : state) : Prop :=
  intervals s' = intervals s ∧ sources s' = sources s
  ∧ eventSourceRef s' = eventSourceRef s
  ∧ pollingIntervalRef s' = pollingIntervalRef s
  ∧ life s' = life s ∧ next s' = next s.

(** Every timer that was started is active or was cleared, and every event
    source that was opened is open or was closed. *)
Definition accounted (s : state) : Prop :=
  (∀ h ms, SetInterval h ms ∈ trace s →
           h ∈ dom (intervals s) ∨ ClearInterval h ∈ trace s)
  ∧ (∀ url h, OpenEventSource url h ∈ trace s →
              h ∈ dom (sources s) ∨ CloseEventSource h ∈ trace s).

(** Calls that start neither a timer nor a connection. *)
Definition quiet (a : action) : Prop :=
  match a with
  | SetInterval _ _ | OpenEventSource _ _ => False
  | _ => True
  end.

(** The events that run the effects. *)
Definition is_setup (e : event) : bool :=
  match e with
  | Mount _ | Rerender _ => true
  | _ => false
  end.

End Dashboard.

(** ** The workspace page ([WorkspacePage], its data effect, lines 75-176)

    The page writes to the shared store of [@/lib/store].  Its event stream
    is managed by the [useSSE] hook, which is not part of the page. *)

Module WorkspacePage.

Record Workspace := mkWorkspace {
  workspace_id : string;
  workspace_slug : string;
}.

Inductive action :=
| Fetch (url : string) (signal : bool)   (* [signal]: the request can be aborted *)
| SetInterval (h : nat) (ms : Z)
| ClearInterval (h : nat)
| SetTimeout (h : nat) (ms : Z)
| ClearTimeout (h : nat)
| SetAgents (v : list Agent)
| SetTasks (v : list Task)
| SetEvents (v : list Event)
| SetIsOnline (b : bool)
| SetIsLoading (b : bool)
| DebugApi (msg : string)
| ConsoleError (msg : string).

(** In-flight async calls, by the [await] they are suspended at. *)
Inductive job :=
| LoadAll
| LoadAgents (ra : response (list Agent)) (rt : response (list Task))
             (re : response (list Event))
| LoadTasks (rt : response (list Task)) (re : response (list Event))
| LoadEvents (re : response (list Event))
| CheckFetch (timeoutId : nat)
| CheckBody (r : response bool)
| EventPollFetch
| EventPollBody (r : response (list Event))
| TaskPollFetch
| TaskPollBody (r : response (list Task))
| ConnectionFetch
| ConnectionBody (r : response bool).

(** The callbacks of the three interval timers. *)
Inductive poller := EventPoll | TaskPoll (workspaceId : string) | ConnectionCheck.

(** The store of [useMissionControl], as far as the page writes it. *)
Record store := mkStore {
  agents : list Agent;
  tasks : list Task;
  events : list Event;
  isOnline : bool;
  isLoading : bool;
}.

Record state := mkState {
  st : store;
  (* active interval timers and pending one-shot timers; a one-shot timer
     holds the call whose [AbortController] it aborts *)
  intervals : gmap nat poller;
  timeouts : gmap nat nat;
  jobs : gmap nat job;
  next : nat;
  (* the timers the cleanup of the current effect run will clear:
     [eventPoll], [connectionCheck], [taskPoll] *)
  cleanup : option (nat * nat * nat);
  alive : bool;
  trace : list action;
}.

Definition with_st v s :=
  mkState v (intervals s) (timeouts s) (jobs s) (next s) (cleanup s) (alive s) (trace s).
Definition with_intervals v s :=
  mkState (st s) v (timeouts s) (jobs s) (next s) (cleanup s) (alive s) (trace s).
Definition with_timeouts v s :=
  mkState (st s) (intervals s) v (jobs s) (next s) (cleanup s) (alive s) (trace s).
Definition with_jobs v s :=
  mkState (st s) (intervals s) (timeouts s) v (next s) (cleanup s) (alive s) (trace s).
Definition with_next v s :=
  mkState (st s) (intervals s) (timeouts s) (jobs s) v (cleanup s) (alive s) (trace s).
Definition with_cleanup v s :=
  mkState (st s) (intervals s) (timeouts s) (jobs s) (next s) v (alive s) (trace s).
Definition with_alive v s :=
  mkState (st s) (intervals s) (timeouts s) (jobs s) (next s) (cleanup s) v (trace s).
Definition with_trace v s :=
  mkState (st s) (intervals s) (timeouts s) (jobs s) (next s) (cleanup s) (alive s) v.

Definition emit (a : action) (s : state) : state :=
  with_trace (trace s ++ [a]) s.

Definition setAgents v s :=
  let t := st s in
  emit (SetAgents v) (with_st (mkStore v (tasks t) (events t) (isOnline t) (isLoading t)) s).
Definition setTasks v s :=
  let t := st s in
  emit (SetTasks v) (with_st (mkStore (agents t) v (events t) (isOnline t) (isLoading t)) s).
Definition setEvents v s :=
  let t := st s in
  emit (SetEvents v) (with_st (mkStore (agents t) (tasks t) v (isOnline t) (isLoading t)) s).
Definition setIsOnline b s :=
  let t := st s in
  emit (SetIsOnline b) (with_st (mkStore (agents t) (tasks t) (events t) b (isLoading t)) s).
Definition setIsLoading b s :=
  let t := st s in
  emit (SetIsLoading b) (with_st (mkStore (agents t) (tasks t) (events t) (isOnline t) b) s).

Definition spawn (jb : job) (s : state) : state :=
  let j := next s in
  with_jobs (<[j := jb]> (jobs s)) (with_next (S j) s).

Definition suspend (j : nat) (jb : job) (s : state) : state :=
  with_jobs (<[j := jb]> (jobs s)) s.

Definition done (j : nat) (s : state) : state :=
  with_jobs (delete j (jobs s)) s.

(** *** [loadData] (lines 80-102) *)

Definition agents_url (workspaceId : string) := "/api/agents?workspace_id=" ++ workspaceId.
Definition tasks_url (workspaceId : string) := "/api/tasks?workspace_id=" ++ workspaceId.
Definition load_events_url : string := "/api/events".
Definition poll_events_url : string := "/api/events?limit=20".
Definition status_url : string := "/api/openclaw/status".

Definition loadData (workspaceId : string) (s : state) : state :=
  spawn LoadAll
    (emit (Fetch load_events_url false)
       (emit (Fetch (tasks_url workspaceId) false)
          (emit (Fetch (agents_url workspaceId) false)
             (emit (DebugApi "Loading workspace data...") s)))).

(** The [finally] block. *)
Definition load_finish (j : nat) (s : state) : state :=
  setIsLoading false (done j s).

Definition load_fail (j : nat) (s : state) : state :=
  load_finish j (emit (ConsoleError "Failed to load data:") s).

Definition events_line j (re : response (list Event)) s :=
  if ok re then suspend j (LoadEvents re) s else load_finish j s.

Definition tasks_line j (rt : response (list Task)) re s :=
  if ok rt then suspend j (LoadTasks rt re) s else events_line j re s.

Definition agents_line j (ra : response (list Agent)) rt re s :=
  if ok ra then suspend j (LoadAgents ra rt re) s else tasks_line j rt re s.

(** *** [checkOpenClaw] (lines 104-119) *)

Definition checkOpenClaw (s : state) : state :=
  let timeoutId := next s in
  let j := S timeoutId in
  with_jobs (<[j := CheckFetch timeoutId]> (jobs s))
    (emit (Fetch status_url true)
       (with_timeouts (<[timeoutId := j]> (timeouts s))
          (emit (SetTimeout timeoutId 5000%Z) (with_next (S j) s)))).

Definition clearTimeout (h : nat) (s : state) : state :=
  with_timeouts (delete h (timeouts s)) (emit (ClearTimeout h) s).

(** *** The pollers (lines 124-169) *)

Definition eventPoll (s : state) : state :=
  spawn EventPollFetch (emit (Fetch poll_events_url false) s).

Definition taskPoll (workspaceId : string) (s : state) : state :=
  spawn TaskPollFetch (emit (Fetch (tasks_url workspaceId) false) s).

Definition connectionCheck (s : state) : state :=
  spawn ConnectionFetch (emit (Fetch status_url false) s).

(** The task poller after [await res.json()] (lines 139-152). *)
Definition task_poll_result (newTasks : list Task) (s : state) : state :=
  let currentTasks := tasks (st s) in
  if hasChanges newTasks currentTasks
  then setTasks newTasks
         (emit (DebugApi "[FALLBACK] Task changes detected via polling, updating store") s)
  else s.

(** *** Continuations *)

Definition settle_all (j : nat) (fa : option (response (list Agent)))
    (ft : option (response (list Task))) (fe : option (response (list Event)))
    (s : state) : state :=
  match jobs s !! j, promise_all fa ft fe with
  | Some LoadAll, Rejected => load_fail j s
  | Some LoadAll, Fulfilled ra rt re => agents_line j ra rt re s
  | _, _ => s
  end.

Definition settle_status (j : nat) (o : option (response bool)) (s : state) : state :=
  match jobs s !! j, o with
  | Some (CheckFetch _), None => setIsOnline false (done j s)
  | Some (CheckFetch timeoutId), Some r =>
      let s := clearTimeout timeoutId s in
      if ok r then suspend j (CheckBody r) s else done j s
  | Some ConnectionFetch, None => setIsOnline false (done j s)
  | Some ConnectionFetch, Some r =>
      if ok r then suspend j (ConnectionBody r) s else done j s
  | _, _ => s
  end.

Definition settle_tasks (j : nat) (o : option (response (list Task))) (s : state) : state :=
  match jobs s !! j, o with
  | Some TaskPollFetch, None => emit (ConsoleError "Failed to poll tasks:") (done j s)
  | Some TaskPollFetch, Some r =>
      if ok r then suspend j (TaskPollBody r) s else done j s
  | _, _ => s
  end.

Definition settle_events (j : nat) (o : option (response (list Event))) (s : state) : state :=
  match jobs s !! j, o with
  | Some EventPollFetch, None => emit (ConsoleError "Failed to poll events:") (done j s)
  | Some EventPollFetch, Some r =>
      if ok r then suspend j (EventPollBody r) s else done j s
  | _, _ => s
  end.

Definition status_result (r : response bool) (s : state) : state :=
  match json r with
  | Some connected => setIsOnline connected s
  | None => setIsOnline false s
  end.

Definition body (j : nat) (s : state) : state :=
  match jobs s !! j with
  | Some (LoadAgents ra rt re) =>
      match json ra with
      | Some v => tasks_line j rt re (setAgents v s)
      | None => load_fail j s
      end
  | Some (LoadTasks rt re) =>
      match json rt with
      | Some v => events_line j re (setTasks v (emit (DebugApi "Loaded tasks") s))
      | None => load_fail j s
      end
  | Some (LoadEvents re) =>
      match json re with
      | Some v => load_finish j (setEvents v s)
      | None => load_fail j s
      end
  | Some (CheckBody r) => status_result r (done j s)
  | Some (ConnectionBody r) => status_result r (done j s)
  | Some (EventPollBody r) =>
      match json r with
      | Some v => setEvents v (done j s)
      | None => emit (ConsoleError "Failed to poll events:") (done j s)
      end
  | Some (TaskPollBody r) =>
      match json r with
      | Some newTasks => task_poll_result newTasks (done j s)
      | None => emit (ConsoleError "Failed to poll tasks:") (done j s)
      end
  | _ => s
  end.

(** The abort timer fires: [controller.abort()] rejects the fetch if it is
    still pending, which lands in the [catch] of [checkOpenClaw]. *)
Definition abort (h : nat) (s : state) : state :=
  match timeouts s !! h with
  | Some j =>
      let s := with_timeouts (delete h (timeouts s)) s in
      match jobs s !! j with
      | Some (CheckFetch _) => setIsOnline false (done j s)
      | _ => s
      end
  | None => s
  end.

(** *** The effect and its cleanup *)

Definition setInterval (p : poller) (ms : Z) (s : state) : state :=
  let h := next s in
  with_intervals (<[h := p]> (intervals s)) (emit (SetInterval h ms) (with_next (S h) s)).

Definition clearInterval (h : nat) (s : state) : state :=
  with_intervals (delete h (intervals s)) (emit (ClearInterval h) s).

Definition effect (workspace : option Workspace) (s : state) : state :=
  match workspace with
  | None => with_cleanup None s
  | Some w =>
      let workspaceId := workspace_id w in
      let s := checkOpenClaw (loadData workspaceId s) in
      let eventPoll := next s in
      let s := setInterval EventPoll 30000%Z s in
      let taskPoll := next s in
      let s := setInterval (TaskPoll workspaceId) 60000%Z s in
      let connectionCheck := next s in
      let s := setInterval ConnectionCheck 30000%Z s in
      with_cleanup (Some (eventPoll, connectionCheck, taskPoll)) s
  end.

Definition teardown (s : state) : state :=
  match cleanup s with
  | Some (eventPoll, connectionCheck, taskPoll) =>
      with_cleanup None
        (clearInterval taskPoll (clearInterval connectionCheck (clearInterval eventPoll s)))
  | None => s
  end.

Inductive event :=
| SetWorkspace (workspace : option Workspace)
| Unmount
| Tick (h : nat)
| Timeout (h : nat)
| SettleAll (j : nat) (fa : option (response (list Agent)))
            (ft : option (response (list Task))) (fe : option (response (list Event)))
| SettleStatus (j : nat) (o : option (response bool))
| SettleTasks (j : nat) (o : option (response (list Task)))
| SettleEvents (j : nat) (o : option (response (list Event)))
| Body (j : nat).

Definition step (e : event) (s : state) : state :=
  match e with
  | SetWorkspace w => if alive s then effect w (teardown s) else s
  | Unmount => if alive s then with_alive false (teardown s) else s
  | Tick h =>
      match intervals s !! h with
      | Some EventPoll => eventPoll s
      | Some (TaskPoll workspaceId) => taskPoll workspaceId s
      | Some ConnectionCheck => connectionCheck s
      | None => s
      end
  | Timeout h => abort h s
  | SettleAll j fa ft fe => settle_all j fa ft fe s
  | SettleStatus j o => settle_status j o s
  | SettleTasks j o => settle_tasks j o s
  | SettleEvents j o => settle_events j o s
  | Body j => body j s
  end.

Definition run (evs : list event) (s : state) : state :=
  foldl (fun s e => step e s) s evs.

(** The page as first rendered: no workspace loaded yet, so the effect has
    returned early.  The initial store contents belong to [@/lib/store]. *)
Definition init (st0 : store) : state :=
  mkState st0 ∅ ∅ ∅ 1 None true [].

Definition reachable (s : state) : Prop := ∃ st0 evs, s = run evs (init st0).

(** [loadData] resumed until it returns. *)
Definition complete (j : nat) (fa : option (response (list Agent)))
    (ft : option (response (list Task))) (fe : option (response (list Event)))
    (s : state) : state :=
  body j (body j (body j (settle_all j fa ft fe s))).

(** *** Invariant of the page: the active interval timers are exactly the
    three the pending cleanup will clear, and an unmounted page has no
    cleanup pending. *)

Definition cleanup_set (c : option (nat * nat * nat)) : gset nat :=
  match c with
  | Some (eventPoll, connectionCheck, taskPoll) =>
      {[ eventPoll; connectionCheck; taskPoll ]}
  | None => ∅
  end.

Record inv (s : state) : Prop := mkInv {
  inv_timers : dom (intervals s) = cleanup_set (cleanup s);
  inv_gone : alive s = false → cleanup s = None;
}.

(** Every interval timer that was started is active or was cleared. *)
Definition accounted (s : state) : Prop :=
  ∀ h ms, SetInterval h ms ∈ trace s →
          h ∈ dom (intervals s) ∨ ClearInterval h ∈ trace s.

(** Calls that start no interval timer. *)
Definition quiet (a : action) : Prop :=
  match a with
  | SetInterval _ _ => False
  | _ => True
  end.

(** Two states with the same interval timers, cleanup and lifecycle. *)
Definition same_timers (s s' : state) : Prop :=
  intervals s' = intervals s ∧ cleanup s' = cleanup s ∧ alive s' = alive s.

End WorkspacePage.

(** ** Sample data *)

Module Sample.

Definition alice : Agent := mkAgent "a1" "Alice" "working".
Definition bob : Agent := mkAgent "a2" "Bob" "offline".
Definition carol : Agent := mkAgent "a3" "Carol" "standby".

Definition build : Task := mkTask "t1" "Build" "testing" (Some "a1") "2024-01-01".
Definition deploy : Task := mkTask "t2" "Deploy" "in_progress" (Some "a2") "2024-01-02".
Definition deploy' : Task := mkTask "t2" "Deploy" "done" (Some "a2") "2024-01-03".

Definition joined : Event := mkEvent "e1" "agent_joined" "Alice joined" "2024-01-01".

Definition ok_with {A} (v : A) : response A := mkResponse true (Some v).
Definition not_ok {A} : response A := mkResponse false None.

(** The responses of the backend for workspace A, all ok. *)
Definition agents_of_a : option (response (list Agent)) := Some (ok_with [alice]).
Definition tasks_of_a : option (response (list Task)) := Some (ok_with [build]).
Definition events_of_a : option (response (list Event)) := Some (ok_with [joined]).

Definition workspace_a : WorkspacePage.Workspace := WorkspacePage.mkWorkspace "A" "alpha".

Definition empty_store : WorkspacePage.store :=
  WorkspacePage.mkStore [] [] [] false true.

(** The page with workspace A loaded: [loadData] is call 1, the abort timer
    of [checkOpenClaw] is 2 and its call 3, and the timers [eventPoll],
    [taskPoll] and [connectionCheck] are 4, 5 and 6. *)
Definition page_a : WorkspacePage.state :=
  WorkspacePage.run [WorkspacePage.SetWorkspace (Some workspace_a)]
    (WorkspacePage.init empty_store).

(** ... and the task poller has ticked: its call is 7. *)
Definition page_polling : WorkspacePage.state :=
  WorkspacePage.step (WorkspacePage.Tick 5) page_a.

(** The dashboard mounted on workspace A: the [mounted] variable is 1,
    [loadData] is call 2, the event source is 3 and the poll timer 4. *)
Definition dash_a : Dashboard.state :=
  Dashboard.run [Dashboard.Mount (Some "A")] Dashboard.init.

(** ... and a data line has arrived on the stream: [refresh] is call 5. *)
Definition dash_refreshing : Dashboard.state :=
  Dashboard.step (Dashboard.SseMessage 3 "task_updated") dash_a.

End Sample.


From stdpp Require Import pretty.

(** ** Derived views of the dashboard (AgentsSidebar.tsx, lines 423-480 and
    520-566) *)

Module Views.

Definition is_working (agent : Agent) : bool :=
  String.eqb (agent_status agent) "working".

(** [activeTasks] (line 423). *)
Definition activeTasks (tasks : list Task) : list Task :=
  List.filter (fun task => negb (String.eqb (task_status task) "done")
                           && negb (String.eqb (task_status task) "review")) tasks.

(** [nowWorking] (lines 450-459): the working agents, each with the first
    task assigned to it that is in progress, assigned or in testing. *)
Definition is_current_task (agent : Agent) (task : Task) : bool :=
  strict_eq (assigned_agent_id task) (agent_id agent)
  && (String.eqb (task_status task) "in_progress"
      || String.eqb (task_status task) "assigned"
      || String.eqb (task_status task) "testing").

Definition nowWorking (agents : list Agent) (tasks : list Task)
    : list (Agent * option Task) :=
  map (fun agent => (agent, List.find (is_current_task agent) tasks))
      (List.filter is_working agents).

(** [filteredAgents] (lines 461-469). *)
Inductive ActivityFilter := FilterAll | FilterWorking | FilterBlocked | FilterIdle.

Definition filteredAgents (filter : ActivityFilter) (agents : list Agent)
    (tasks : list Task) : list Agent :=
  List.filter
    (fun agent =>
       match filter with
       | FilterAll => true
       | FilterWorking => String.eqb (agent_status agent) "working"
       | FilterBlocked => bool_decide (agent_id agent ∈ blockedAgentIds agents tasks)
       | FilterIdle => String.eqb (agent_status agent) "standby"
                       || String.eqb (agent_status agent) "offline"
       end) agents.

(** The numbers of the metric cards (lines 520-523). *)
Definition metric_agents (agents : list Agent) : nat := length agents.
Definition metric_working (agents : list Agent) : nat :=
  length (List.filter is_working agents).
Definition metric_blocked (agents : list Agent) (tasks : list Task) : nat :=
  size (blockedAgentIds agents tasks).
Definition metric_active_tasks (tasks : list Task) : nat := length (activeTasks tasks).

Section Timeline.

(** The optional agent reference of an event, [event.agent_id], which the
    [Event] record above does not carry. *)
Variable event_agent_id : Event → option string.

(** One turn of the loop of [eventsByAgent] (lines 472-477). *)
Definition group_event (m : gmap string (list Event)) (event : Event)
    : gmap string (list Event) :=
  if negb (truthy (event_agent_id event)) then m
  else
    let key := default "" (event_agent_id event) in
    let list := default [] (m !! key) in
    <[key := (list ++ [event])%list]> m.

Definition eventsByAgent (events : list Event) : gmap string (list Event) :=
  foldl group_event ∅ events.

(** [(eventsByAgent.get(agent.id) || []).slice(0, 5)] (line 569). *)
Definition agentTimeline (events : list Event) (agent : Agent) : list Event :=
  take 5 (default [] (eventsByAgent events !! agent_id agent)).

(** The events that carry a reference to the agent with this id. *)
Definition refers_to (id : string) (event : Event) : bool :=
  truthy (event_agent_id event) && strict_eq (event_agent_id event) id.

End Timeline.

End Views.

(** ** Further invariants of the dashboard *)

Module DashboardInvariants.
Import Dashboard.

(** While the component is mounted, polling is off only when the event
    source the ref holds is open and the indicator shows the live state. *)
Definition covered (s : state) : Prop :=
  match life s with
  | Live _ _ =>
      pollingIntervalRef s = None →
      sseConnected s = true
      ∧ ∃ h, eventSourceRef s = Some h ∧ is_Some (sources s !! h)
  | _ => True
  end.

(** The callbacks of the active timers and of the open event sources belong
    to the effect run of the workspace the component shows. *)
Definition scoped (s : state) : Prop :=
  ∀ ws flag, life s = Live ws flag →
    (∀ t w, intervals s !! t = Some w → w = ws)
    ∧ (∀ h w, sources s !! h = Some w → w = ws).

(** Call [j] of the initial load has returned and the loading screen is
    gone. *)
Definition loaded (j : nat) (s : state) : Prop :=
  loading s = false ∧ jobs s !! j = None.

(** At most the [mounted] variable of the current run of the load effect is
    true. *)
Definition one_mounted (s : state) : Prop :=
  ∀ f, is_mounted f s = true → ∃ ws, life s = Live ws f.

(** The path of a request URL: the text before the first '?'. *)
Definition path_of (url : string) : string := fst (split_at "?"%char url).

(** A call the dashboard is expected to make: a request is one of the three
    of some workspace scope. *)
Definition expected (a : action) : Prop :=
  match a with
  | Fetch url => ∃ ws, Fetch url ∈ requests ws
  | _ => True
  end.

(** The trace of [s'] is the trace of [s] and expected calls after it. *)
Definition grows (s s' : state) : Prop :=
  ∃ tr, trace s' = (trace s ++ tr)%list ∧ Forall expected tr.

End DashboardInvariants.

(** ** What the task poller compares: a task's id and its [updated_at] *)

Definition task_version (t : Task) : string * string := (task_id t, updated_at t).

(** ** Further invariants of the workspace page *)

Module WorkspacePageInvariants.
Import WorkspacePage.

(** Call [j] of [loadData] has returned and the loading flag is cleared. *)
Definition loaded (j : nat) (s : state) : Prop :=
  isLoading (st s) = false ∧ jobs s !! j = None.

End WorkspacePageInvariants.

(** ** The mobile layout of the workspace page (lines 27-28, 32-44, 69-73
    and the tab buttons) *)

Module MobileLayout.

Inductive MobileTab := TabQueue | TabAgents | TabFeed | TabSettings.

Record layout := mkLayout {
  isPortrait : bool;
  mobileTab : MobileTab;
}.

(** The effect of lines 69-73. *)
Definition tab_effect (l : layout) : layout :=
  match isPortrait l, mobileTab l with
  | false, TabQueue => mkLayout (isPortrait l) TabAgents
  | _, _ => l
  end.

(** [updateOrientation] and the [onClick] of a tab button. *)
Inductive event :=
| Orientation (portrait : bool)
| SelectTab (tab : MobileTab).

Definition update (e : event) (l : layout) : layout :=
  match e with
  | Orientation portrait => mkLayout portrait (mobileTab l)
  | SelectTab tab => mkLayout (isPortrait l) tab
  end.

(** A state change re-renders the page and the effect runs on the new
    state. *)
Definition step (e : event) (l : layout) : layout := tab_effect (update e l).

Definition run (evs : list event) (l : layout) : layout :=
  foldl (fun l e => step e l) l evs.

(** [useState(true)] and [useState('queue')]. *)
Definition init : layout := mkLayout true TabQueue.

(** What the landscape layout shows beside the queue (the conditional of the
    right-hand panel). *)
Inductive panel := SettingsPanel | AgentsPanel | FeedPanel.

Definition landscape_panel (l : layout) : panel :=
  match mobileTab l with
  | TabSettings => SettingsPanel
  | TabAgents => AgentsPanel
  | _ => FeedPanel
  end.

End MobileLayout.

(** ** The live feed ([LiveFeed], lines 24-29, 82-106) *)

Module LiveFeed.

Inductive FeedFilter := FeedAll | FeedTasks | FeedAgents.

(** [list.includes(x)] on strings. *)
Definition includes (l : list string) (x : string) : bool :=
  existsb (String.eqb x) l.

Definition shown (filter : FeedFilter) (event : Event) : bool :=
  match filter with
  | FeedAll => true
  | FeedTasks =>
      includes ["task_created"; "task_assigned"; "task_status_changed"; "task_completed"]
               (event_type event)
  | FeedAgents =>
      includes ["agent_joined"; "agent_status_changed"; "message_sent"] (event_type event)
  end.

Definition filteredEvents (filter : FeedFilter) (events : list Event) : list Event :=
  List.filter (shown filter) events.

Definition isTaskEvent (event : Event) : bool :=
  includes ["task_created"; "task_assigned"; "task_completed"] (event_type event).

Definition isHighlight (event : Event) : bool :=
  String.eqb (event_type event) "task_created"
  || String.eqb (event_type event) "task_completed".

End LiveFeed.

(** ** The agents sidebar: [loadOpenClawSessions] (AgentsSidebar.tsx,
    lines 31-45) *)

Module Sidebar.

(** An OpenClaw session object, as far as it matters here. *)
Record OpenClawSession := mkSession {
  session_id : string;
}.

(** The body of [GET /api/agents/:id/openclaw], as far as it is read. *)
Record link_body := mkLink {
  linked : bool;
  session : option OpenClawSession;
}.

Inductive action :=
| Fetch (url : string)
| SetAgentOpenClawSession (agentId : string) (session : OpenClawSession)
| ConsoleError (msg : string).

(** One turn of the loop (lines 33-43), given how the request for this agent
    settles. *)
Definition load_session (agent : Agent) (o : option (response link_body))
    : list action :=
  let failed :=
    [ConsoleError ("Failed to load OpenClaw session for " ++ agent_name agent ++ ":")] in
  Fetch ("/api/agents/" ++ agent_id agent ++ "/openclaw") ::
  match o with
  | None => failed
  | Some r =>
      if ok r then
        match json r with
        | None => failed
        | Some data =>
            match linked data, session data with
            | true, Some sess => [SetAgentOpenClawSession (agent_id agent) sess]
            | _, _ => []
            end
        end
      else []
  end.

(** The whole loop: the agents in order, each with the outcome of its own
    request. *)
Definition loadOpenClawSessions
    (agents : list (Agent * option (response link_body))) : list action :=
  concat (map (fun '(agent, o) => load_session agent o) agents).

End Sidebar.

(** ** The import dialog ([DiscoverAgentsModal], lines 13-121)

    [discover] and [handleImport] are run to their end, given how their
    requests settle. *)

Module DiscoverAgentsModal.

Record DiscoveredAgent := mkDiscovered {
  da_id : string;
  da_name : string;
  da_model : option string;
  already_imported : bool;
}.

(** An element of the body of [POST /api/agents/import]. *)
Record ImportEntry := mkEntry {
  gateway_agent_id : string;
  entry_name : string;
  entry_model : option string;
  entry_workspace_id : string;
}.

Record ImportResult := mkResult {
  imported : nat;
  skipped : nat;
}.

(** A response with its status code. *)
Record reply (A : Type) := mkReply {
  r_ok : bool;
  r_status : N;
  r_json : option A;
}.
Arguments mkReply {A} _ _ _.
Arguments r_ok {A} _.
Arguments r_status {A} _.
Arguments r_json {A} _.

(** The bodies of the two endpoints, as far as they are read.  A property
    the body does not have is [None]: [data.agents || []] reads it as the
    empty list, while the loop over [data.imported] and [data.skipped.length]
    throw on it. *)
Record discover_body := mkDiscoverBody {
  db_error : option string;
  db_agents : option (list DiscoveredAgent);
}.

Record import_body := mkImportBody {
  ib_error : option string;
  ib_imported : option (list Agent);
  ib_skipped : option (list string);
}.

Inductive action :=
| Fetch (url : string)
| Post (url : string) (agents : list ImportEntry)
| AddAgent (agent : Agent).

Record state := mkState {
  loading : bool;
  error : option string;
  agents : list DiscoveredAgent;
  selectedIds : gset string;
  importing : bool;
  importResult : option ImportResult;
  trace : list action;
}.

Definition setLoading v s :=
  mkState v (error s) (agents s) (selectedIds s) (importing s) (importResult s) (trace s).
Definition setError v s :=
  mkState (loading s) v (agents s) (selectedIds s) (importing s) (importResult s) (trace s).
Definition setAgents v s :=
  mkState (loading s) (error s) v (selectedIds s) (importing s) (importResult s) (trace s).
Definition setSelectedIds v s :=
  mkState (loading s) (error s) (agents s) v (importing s) (importResult s) (trace s).
Definition setImporting v s :=
  mkState (loading s) (error s) (agents s) (selectedIds s) v (importResult s) (trace s).
Definition setImportResult v s :=
  mkState (loading s) (error s) (agents s) (selectedIds s) (importing s) v (trace s).
Definition emit (a : action) s :=
  mkState (loading s) (error s) (agents s) (selectedIds s) (importing s) (importResult s)
    (trace s ++ [a]).

(** [useState] defaults (lines 15-23). *)
Definition init : state := mkState true None [] ∅ false None [].

(** [data.error || fallback] *)
Definition error_or (e : option string) (fallback : string) : string :=
  if truthy e then default "" e else fallback.

(** [toggleSelection] (lines 50-60). *)
Definition toggle (id : string) (prev : gset string) : gset string :=
  if bool_decide (id ∈ prev) then prev ∖ {[ id ]} else prev ∪ {[ id ]}.

Definition toggleSelection (id : string) (s : state) : state :=
  setSelectedIds (toggle id (selectedIds s)) s.

(** [selectAllAvailable], [deselectAll] and [availableCount] (lines 62-69
    and 121). *)
Definition available (s : state) : list DiscoveredAgent :=
  List.filter (fun a => negb (already_imported a)) (agents s).

Definition selectAllAvailable (s : state) : state :=
  setSelectedIds (list_to_set (map da_id (available s))) s.

Definition deselectAll (s : state) : state := setSelectedIds ∅ s.

Definition availableCount (s : state) : nat := length (available s).

(** The [onClick] of a row (line 229): imported agents cannot be toggled. *)
Definition click_row (a : DiscoveredAgent) (s : state) : state :=
  if already_imported a then s else toggleSelection (da_id a) s.

(** [discover] (lines 25-44): up to the request, and from its outcome on. *)
Definition discover_start (s : state) : state :=
  emit (Fetch "/api/agents/discover")
    (setImportResult None (setError None (setLoading true s))).

Definition discover_settle (o : option (reply discover_body)) (s : state) : state :=
  let failed := setLoading false (setError (Some "Failed to connect to the server") s) in
  match o with
  | None => failed
  | Some r =>
      match r_json r with
      | None => failed
      | Some data =>
          if negb (r_ok r)
          then setLoading false
                 (setError
                    (Some (error_or (db_error data)
                             ("Failed to discover agents (" ++ pretty (r_status r) ++ ")")))
                    s)
          else setLoading false (setAgents (default [] (db_agents data)) s)
      end
  end.

Definition discover (o : option (reply discover_body)) (s : state) : state :=
  discover_settle o (discover_start s).

(** [agentsToImport] (lines 78-85). *)
Definition agentsToImport (workspaceId : scope) (s : state) : list ImportEntry :=
  map (fun a => mkEntry (da_id a) (da_name a) (da_model a)
                  (if truthy workspaceId then default "" workspaceId else "default"))
      (List.filter (fun a => bool_decide (da_id a ∈ selectedIds s)) (agents s)).

(** The [catch] and the [finally] block of [handleImport] (lines 114-118). *)
Definition import_failed (s : state) : state :=
  setImporting false (setError (Some "Failed to import agents") s).

(** [handleImport] (lines 71-119), with the outcome of the import request
    and of the request of the [discover] it ends with.  The loop over
    [data.imported] (lines 101-103) throws when the body has no such
    property, before any agent is added; [data.skipped.length] (line 107)
    throws when [skipped] is missing, after the agents have been added and
    before [setImportResult] is called. *)
Definition handleImport (workspaceId : scope) (o : option (reply import_body))
    (od : option (reply discover_body)) (s : state) : state :=
  if bool_decide (size (selectedIds s) = 0) then s
  else
    let s1 := emit (Post "/api/agents/import" (agentsToImport workspaceId s))
                (setError None (setImporting true s)) in
    match o with
    | None => import_failed s1
    | Some r =>
        match r_json r with
        | None => import_failed s1
        | Some data =>
            if negb (r_ok r)
            then setImporting false
                   (setError (Some (error_or (ib_error data) "Failed to import agents")) s1)
            else
              match ib_imported data with
              | None => import_failed s1
              | Some imported =>
                  let s2 := foldl (fun s agent => emit (AddAgent agent) s) s1 imported in
                  match ib_skipped data with
                  | None => import_failed s2
                  | Some skipped =>
                      let s3 := setImportResult
                                  (Some (mkResult (length imported) (length skipped)))
                                  s2 in
                      setImporting false (setSelectedIds ∅ (discover od s3))
                  end
              end
        end
    end.

End DiscoverAgentsModal.

(** ** More sample data *)

Module Fixture.

(** The dashboard after a change from workspace A to B: call 2 is the
    [loadData] of A, whose [mounted] variable 1 is false by now. *)
Definition dash_switched : Dashboard.state :=
  Dashboard.run [Dashboard.Mount (Some "A"); Dashboard.Rerender (Some "B")]
    Dashboard.init.

(** The dashboard of workspace A with two refreshes in flight, after a poll
    tick (call 5) and a data line on the stream (call 6). *)
Definition dash_two_refreshes : Dashboard.state :=
  Dashboard.run [Dashboard.Tick 4; Dashboard.SseMessage 3 "task_updated"] Sample.dash_a.

(** The page of workspace A after a tick of the event poller: its call is
    7. *)
Definition page_event_poll : WorkspacePage.state :=
  WorkspacePage.step (WorkspacePage.Tick 4) Sample.page_a.

(** Two agents of the gateway, the second one imported already; the first
    one is selected. *)
Definition scout : DiscoverAgentsModal.DiscoveredAgent :=
  DiscoverAgentsModal.mkDiscovered "g1" "Scout" (Some "small") false.
Definition pilot : DiscoverAgentsModal.DiscoveredAgent :=
  DiscoverAgentsModal.mkDiscovered "g2" "Pilot" None true.

Definition dialog : DiscoverAgentsModal.state :=
  DiscoverAgentsModal.toggleSelection "g1"
    (DiscoverAgentsModal.discover
       (Some (DiscoverAgentsModal.mkReply true 200%N
                (Some (DiscoverAgentsModal.mkDiscoverBody None (Some [scout; pilot])))))
       DiscoverAgentsModal.init).

End Fixture.

(** * Properties *)

(** Case analysis on every [match] of the goal. *)
Ltac cases :=
  repeat match goal with
         | |- context [match ?x with _ => _ end] => destruct x eqn:?; simpl
         end.

Ltac channels := cases; repeat split; reflexivity.

(** The calls a step appends to the trace, none of which starts a timer or
    a connection. *)
Ltac quiet_trace :=
  cases;
  first [ exists []; split; [by rewrite app_nil_r | constructor]
        | eexists; split; [rewrite <- ?app_assoc; reflexivity | repeat constructor] ].

(** Resuming a call: look its entry up again after each step. *)
Ltac resume :=
  repeat (simpl; rewrite ?lookup_insert_eq, ?lookup_delete_eq).

(** ** Blocked agents *)

Section Blocked.

Lemma eqb_string_true (a b : string) : String.eqb a b = true ↔ a = b.
Proof. apply String.eqb_eq. Qed.

Lemma eqb_string_false (a b : string) : String.eqb a b = false ↔ a ≠ b.
Proof. apply String.eqb_neq. Qed.

Lemma strict_eq_true (o : option string) (id : string) :
  strict_eq o id = true ↔ o = Some id.
Proof.
  destruct o as [x|]; simpl.
  - rewrite eqb_string_true. split; congruence.
  - split; discriminate.
Qed.

(** The first loop adds exactly the truthy assignees of tasks under test or
    review. *)
Lemma blocked_by_task_elem (tasks : list Task) (ids : gset string) (id : string) :
  id ∈ foldl blocked_by_task ids tasks ↔
  id ∈ ids ∨ (id ≠ "" ∧ ∃ t, t ∈ tasks ∧ assigned_agent_id t = Some id
                ∧ (task_status t = "testing" ∨ task_status t = "review")).
Proof.
  revert ids. induction tasks as [|t tasks IH]; intros ids; simpl.
  - split; [auto|]. intros [H|(_ & t & Ht & _)]; [done|]. by apply elem_of_nil in Ht.
  - rewrite IH. unfold blocked_by_task.
    destruct (assigned_agent_id t) as [x|] eqn:Ha; simpl.
    + destruct (String.eqb x "") eqn:Hx; simpl.
      * apply eqb_string_true in Hx. subst x. split.
        -- intros [H|(Hne & u & Hu & Hu')]; [by left|].
           right. split; [done|]. exists u. split; [by right|done].
        -- intros [H|(Hne & u & Hu & Hua & Hus)]; [by left|].
           apply elem_of_cons in Hu as [->|Hu]; [congruence|].
           right. split; [done|]. by exists u.
      * apply eqb_string_false in Hx.
        destruct (String.eqb (task_status t) "testing"
                  || String.eqb (task_status t) "review") eqn:Hs.
        -- apply orb_true_iff in Hs. rewrite !eqb_string_true in Hs. split.
           ++ intros [H|(Hne & u & Hu & Hu')].
              ** apply elem_of_union in H as [H|H]; [|by left].
                 apply elem_of_singleton in H. subst id. right. split; [done|].
                 exists t. split; [by left|done].
              ** right. split; [done|]. exists u. split; [by right|done].
           ++ intros [H|(Hne & u & Hu & Hua & Hus)];
                [left; apply elem_of_union; by right|].
              apply elem_of_cons in Hu as [->|Hu].
              ** left. rewrite Ha in Hua. injection Hua as ->.
                 apply elem_of_union. left. by apply elem_of_singleton.
              ** right. split; [done|]. by exists u.
        -- apply orb_false_iff in Hs. rewrite !eqb_string_false in Hs. split.
           ++ intros [H|(Hne & u & Hu & Hu')]; [by left|].
              right. split; [done|]. exists u. split; [by right|done].
           ++ intros [H|(Hne & u & Hu & Hua & Hus)]; [by left|].
              apply elem_of_cons in Hu as [->|Hu]; [tauto|].
              right. split; [done|]. by exists u.
    + split.
      * intros [H|(Hne & u & Hu & Hu')]; [by left|].
        right. split; [done|]. exists u. split; [by right|done].
      * intros [H|(Hne & u & Hu & Hua & Hus)]; [by left|].
        apply elem_of_cons in Hu as [->|Hu]; [congruence|].
        right. split; [done|]. by exists u.
Qed.

Lemma hasAssignedActiveTask_true (tasks : list Task) (a : Agent) :
  hasAssignedActiveTask tasks a = true ↔
  ∃ t, t ∈ tasks ∧ assigned_to a t ∧ task_status t ≠ "done".
Proof.
  unfold hasAssignedActiveTask, assigned_to. rewrite existsb_exists. split.
  - intros (t & Ht & Hc). apply andb_true_iff in Hc as [H1 H2].
    apply strict_eq_true in H1. apply negb_true_iff, eqb_string_false in H2.
    exists t. by rewrite <- list_elem_of_In in Ht.
  - intros (t & Ht & H1 & H2). exists t. split; [by apply list_elem_of_In|].
    apply andb_true_iff. split; [by apply strict_eq_true|].
    by apply negb_true_iff, eqb_string_false.
Qed.

(** The second loop adds exactly the offline agents that have an assigned
    task which is not done. *)
Lemma blocked_by_offline_elem (tasks : list Task) (agents : list Agent)
    (ids : gset string) (id : string) :
  id ∈ foldl (blocked_by_offline tasks) ids agents ↔
  id ∈ ids ∨ ∃ a, a ∈ agents ∧ agent_id a = id ∧ agent_status a = "offline"
                  ∧ hasAssignedActiveTask tasks a = true.
Proof.
  revert ids. induction agents as [|a agents IH]; intros ids; simpl.
  - split; [auto|]. intros [H|(a & Ha & _)]; [done|]. by apply elem_of_nil in Ha.
  - rewrite IH. unfold blocked_by_offline.
    destruct (String.eqb (agent_status a) "offline") eqn:Hs;
      [apply eqb_string_true in Hs | apply eqb_string_false in Hs].
    + destruct (hasAssignedActiveTask tasks a) eqn:Hh.
      * split.
        -- intros [H|(b & Hb & Hb')].
           ++ apply elem_of_union in H as [H|H]; [|by left].
              apply elem_of_singleton in H. right. exists a. split; [by left|done].
           ++ right. exists b. split; [by right|done].
        -- intros [H|(b & Hb & Hid & Hb')]; [left; apply elem_of_union; by right|].
           apply elem_of_cons in Hb as [->|Hb].
           { left. apply elem_of_union. left. by apply elem_of_singleton. }
           right. by exists b.
      * split.
        -- intros [H|(b & Hb & Hb')]; [by left|].
           right. exists b. split; [by right|done].
        -- intros [H|(b & Hb & Hid & Hst & Hb')]; [by left|].
           apply elem_of_cons in Hb as [->|Hb]; [congruence|].
           right. by exists b.
    + split.
      * intros [H|(b & Hb & Hb')]; [by left|].
        right. exists b. split; [by right|done].
      * intros [H|(b & Hb & Hid & Hst & Hb')]; [by left|].
        apply elem_of_cons in Hb as [->|Hb]; [congruence|].
        right. by exists b.
Qed.

(** Membership of an id in [blockedAgentIds], with no assumption on the
    collections. *)
Lemma blockedAgentIds_elem (agents : list Agent) (tasks : list Task) (id : string) :
  id ∈ blockedAgentIds agents tasks ↔
  (id ≠ "" ∧ ∃ t, t ∈ tasks ∧ assigned_agent_id t = Some id
             ∧ (task_status t = "testing" ∨ task_status t = "review"))
  ∨ (∃ a, a ∈ agents ∧ agent_id a = id ∧ agent_status a = "offline"
          ∧ ∃ t, t ∈ tasks ∧ assigned_to a t ∧ task_status t ≠ "done").
Proof.
  unfold blockedAgentIds.
  rewrite blocked_by_offline_elem, blocked_by_task_elem. split.
  - intros [[H|H]|(a & Ha & Hid & Hst & Hh)];
      [by apply not_elem_of_empty in H|by left|].
    right. exists a. by rewrite <- hasAssignedActiveTask_true.
  - intros [H|(a & Ha & Hid & Hst & Hh)]; [by left; right|].
    right. exists a. by rewrite hasAssignedActiveTask_true.
Qed.

Lemma NoDup_agent_id (agents : list Agent) (a b : Agent) :
  NoDup (agent_id <$> agents) → a ∈ agents → b ∈ agents →
  agent_id a = agent_id b → a = b.
Proof.
  induction agents as [|c agents IH]; simpl; intros Hnd Ha Hb Heq.
  - by apply elem_of_nil in Ha.
  - apply NoDup_cons in Hnd as [Hc Hnd].
    apply elem_of_cons in Ha as [->|Ha]; apply elem_of_cons in Hb as [->|Hb]; auto.
    + exfalso. apply Hc. rewrite Heq. by apply list_elem_of_fmap_2.
    + exfalso. apply Hc. rewrite <- Heq. by apply list_elem_of_fmap_2.
Qed.

(** C9, as amended.  For agents and tasks collections in which ids identify
    agents (the ids of the agents collection are pairwise distinct and the
    agent's id is not the empty string), an agent of the collection is
    classified as blocked if and only if some task assigned to it has status
    'testing' or 'review', or the agent is 'offline' and some task assigned
    to it has a status other than 'done'. *)
Theorem blocked_agent_classification (agents : list Agent) (tasks : list Task)
    (a : Agent) :
  NoDup (agent_id <$> agents) → a ∈ agents → agent_id a ≠ "" →
  is_blocked agents tasks a = true ↔ blocked_spec tasks a.
Proof.
  intros Hnd Ha Hne. unfold is_blocked, blocked_spec.
  rewrite bool_decide_eq_true, blockedAgentIds_elem. split.
  - intros [[_ H]|(b & Hb & Hid & Hst & Ht)]; [by left|].
    assert (b = a) as -> by eauto using NoDup_agent_id. by right.
  - intros [H|[Hst Ht]]; [by left|]. right. by exists a.
Qed.

(** The classification at work on sample data: Alice has a task under test,
    Bob is offline with a task in progress, Carol has no task. *)
Lemma blocked_agent_classification_witness :
  is_blocked [Sample.alice; Sample.bob; Sample.carol] [Sample.build; Sample.deploy]
    Sample.bob = true
  ↔ blocked_spec [Sample.build; Sample.deploy] Sample.bob.
Proof.
  apply (blocked_agent_classification
           [Sample.alice; Sample.bob; Sample.carol]
           [Sample.build; Sample.deploy] Sample.bob).
  - apply (bool_decide_unpack _). vm_compute. exact I.
  - right. left.
  - simpl. discriminate.
Defined.

(** C9 as stated, for every agents and tasks collection, fails on the code
    in both directions.  A working agent whose id is the empty string, with
    a task in testing assigned to that id, is blocked in the words of the
    claim, but the first loop skips a task whose [assigned_agent_id] is
    falsy, so the code does not classify it as blocked.  And a working
    agent that shares its id with an offline agent that has a task in
    progress is classified as blocked by the code, which keeps ids and not
    agents, though no task assigned to it is in testing or review and it is
    not offline. *)
Lemma blocked_classification_needs_identifying_ids :
  (let ghost := mkAgent "" "Ghost" "working" in
   let orphan := mkTask "t9" "Orphan" "testing" (Some "") "2024-01-04" in
   ghost ∈ [ghost] ∧ blocked_spec [orphan] ghost
   ∧ is_blocked [ghost] [orphan] ghost = false)
  ∧ (let twin := mkAgent "a2" "Twin" "working" in
     twin ∈ [Sample.bob; twin] ∧ is_blocked [Sample.bob; twin] [Sample.deploy] twin = true
     ∧ ¬ blocked_spec [Sample.deploy] twin).
Proof.
  split; cbv zeta.
  - split; [by left|]. split; [|by vm_compute].
    left. eexists. split; [by left|]. split; [reflexivity|by left].
  - split; [by right; left|]. split; [by vm_compute|].
    intros [(t & Ht & _ & Hst)|[Hst _]]; [|discriminate Hst].
    apply elem_of_cons in Ht as [->|Ht]; [|by apply elem_of_nil in Ht].
    destruct Hst as [Hst|Hst]; discriminate Hst.
Qed.

End Blocked.

(** ** The task poller writes only on change *)

Module TaskPollFacts.
Import WorkspacePage.

Lemma find_id_None (cur : list Task) (id : string) :
  List.find (fun ct => String.eqb (task_id ct) id) cur = None ↔
  ∀ ct, ct ∈ cur → task_id ct ≠ id.
Proof.
  induction cur as [|c cur IH]; simpl.
  - split; [|done]. intros _ ct Hct. by apply elem_of_nil in Hct.
  - destruct (String.eqb (task_id c) id) eqn:Hc.
    + apply eqb_string_true in Hc. split; [done|].
      intros H. exfalso. apply (H c); [by left|done].
    + apply eqb_string_false in Hc. rewrite IH. split.
      * intros H ct Hct. apply elem_of_cons in Hct as [->|Hct]; auto.
      * intros H ct Hct. apply H. by right.
Qed.

Lemma task_changed_true (cur : list Task) (t : Task) :
  task_changed cur t = true ↔
  (∀ ct, ct ∈ cur → task_id ct ≠ task_id t)
  ∨ ∃ ct, List.find (fun ct => String.eqb (task_id ct) (task_id t)) cur = Some ct
          ∧ updated_at ct ≠ updated_at t.
Proof.
  unfold task_changed.
  destruct (List.find _ cur) as [c|] eqn:Hf.
  - rewrite negb_true_iff, eqb_string_false. split.
    + intros H. right. by exists c.
    + intros [H|(c' & Hc' & Hne)]; [|congruence].
      apply find_id_None in H. congruence.
  - split; [|done]. intros _. left. by apply find_id_None.
Qed.

Lemma hasChanges_true (newTasks currentTasks : list Task) :
  hasChanges newTasks currentTasks = true ↔ differs_spec newTasks currentTasks.
Proof.
  unfold hasChanges, differs_spec.
  rewrite orb_true_iff, negb_true_iff, Nat.eqb_neq, existsb_exists.
  apply or_iff_compat_l. split.
  - intros (t & Ht & Hc). exists t. split; [by apply list_elem_of_In|].
    by apply task_changed_true.
  - intros (t & Ht & Hc). exists t. split; [by apply list_elem_of_In|].
    by apply task_changed_true.
Qed.

Lemma hasChanges_false (newTasks currentTasks : list Task) :
  hasChanges newTasks currentTasks = false ↔ ¬ differs_spec newTasks currentTasks.
Proof. rewrite <- hasChanges_true. by destruct (hasChanges _ _). Qed.

(** C10. A successful task poll (ok response, readable body) replaces the
    tasks collection exactly when the fetched list differs from the current
    one in length, or some fetched task has no task with its id in the
    current list, or the current task found under its id has another
    [updated_at]; otherwise the store is not written at all. *)
Theorem task_poll_writes_only_on_change (s : state) (j : nat)
    (r : response (list Task)) (newTasks : list Task) :
  jobs s !! j = Some TaskPollFetch → ok r = true → json r = Some newTasks →
  let s' := body j (settle_tasks j (Some r) s) in
  (differs_spec newTasks (tasks (st s)) →
     tasks (st s') = newTasks
     ∧ trace s' = (trace s ++
         [DebugApi "[FALLBACK] Task changes detected via polling, updating store";
          SetTasks newTasks])%list)
  ∧ (¬ differs_spec newTasks (tasks (st s)) → st s' = st s ∧ trace s' = trace s).
Proof.
  intros Hj Hok Hjson. unfold settle_tasks, body. rewrite Hj, Hok. simpl.
  rewrite lookup_insert_eq, Hjson. unfold task_poll_result. simpl. split.
  - intros Hd. apply hasChanges_true in Hd. rewrite Hd. simpl.
    split; [done|]. by rewrite <- app_assoc.
  - intros Hd. apply hasChanges_false in Hd. by rewrite Hd.
Qed.

(** On the sample page the poller fetches a list of one task while the store
    holds none: the store is written. *)
Lemma task_poll_writes_only_on_change_witness :
  jobs Sample.page_polling !! 7 = Some TaskPollFetch
  ∧ (differs_spec [Sample.build] (tasks (st Sample.page_polling)) →
     tasks (st (body 7 (settle_tasks 7 (Some (Sample.ok_with [Sample.build]))
                          Sample.page_polling))) = [Sample.build]).
Proof.
  split; [reflexivity|]. intros Hd.
  destruct (task_poll_writes_only_on_change Sample.page_polling 7
              (Sample.ok_with [Sample.build]) [Sample.build]) as [H _];
    [reflexivity|reflexivity|reflexivity|].
  destruct (H Hd) as [Ht _]. exact Ht.
Defined.

End TaskPollFacts.

(** ** The dashboard: invariant *)

Module DashboardFacts.
Import Dashboard.

(** The continuations of the async calls touch neither the timers, nor the
    connections, nor the refs, nor the lifecycle. *)
Lemma settle_channels j fa ft fe s : same_channels s (settle j fa ft fe s).
Proof.
  unfold same_channels, settle, fail, agents_line, tasks_line, events_line, finish,
    suspend, setLoading, is_mounted, emit.
  channels.
Qed.

Lemma body_channels j s : same_channels s (body j s).
Proof.
  unfold same_channels, body, fail, tasks_line, events_line, finish, suspend,
    setAgents, setTasks, setEvents, setLoading, is_mounted, emit.
  channels.
Qed.

(** A continuation starts no call. *)
Lemma settle_jobs j fa ft fe s : dom (jobs (settle j fa ft fe s)) ⊆ dom (jobs s).
Proof.
  unfold settle. destruct (jobs s !! j) as [jb|] eqn:Hj; [|done].
  assert (j ∈ dom (jobs s)) as Hd by (apply elem_of_dom; eauto).
  unfold fail, agents_line, tasks_line, events_line, finish, suspend, setLoading,
    is_mounted, emit.
  cases; rewrite ?dom_insert_L, ?dom_delete_L; set_solver.
Qed.

Lemma body_jobs j s : dom (jobs (body j s)) ⊆ dom (jobs s).
Proof.
  unfold body. destruct (jobs s !! j) as [jb|] eqn:Hj; [|done].
  assert (j ∈ dom (jobs s)) as Hd by (apply elem_of_dom; eauto).
  unfold fail, tasks_line, events_line, finish, suspend, setAgents, setTasks,
    setEvents, setLoading, is_mounted, emit.
  cases; rewrite ?dom_insert_L, ?dom_delete_L; set_solver.
Qed.

Lemma ref_set_empty r : ref_set r = ∅ → r = None.
Proof.
  destruct r as [h|]; [|done]. simpl. intros H.
  assert (h ∈ (∅ : gset nat)) as Hh by (rewrite <- H; by apply elem_of_singleton).
  by apply not_elem_of_empty in Hh.
Qed.

Lemma inv_init : inv init.
Proof.
  split; simpl.
  - apply dom_empty_L.
  - by rewrite dom_empty_L.
  - done.
  - intros j Hj. rewrite dom_empty_L in Hj. by apply not_elem_of_empty in Hj.
Qed.

Lemma start_job_inv k ws s : inv s → inv (start_job k ws s).
Proof.
  intros [H1 H2 H3 H4]. split; simpl; auto.
  intros j Hj. rewrite dom_insert_L in Hj.
  apply elem_of_union in Hj as [Hj|Hj].
  - apply elem_of_singleton in Hj. lia.
  - apply H4 in Hj. lia.
Qed.

Lemma idle_live s ws flag : life s = Live ws flag → idle s.
Proof. unfold idle. by intros ->. Qed.

Lemma startPolling_inv ws s :
  (∃ w flag, life s = Live w flag) → inv s → inv (startPolling ws s).
Proof.
  intros (w & flag & Hl) Hi. pose proof Hi as [H1 H2 H3 H4]. unfold startPolling.
  destruct (pollingIntervalRef s) as [t|] eqn:Hr; [done|].
  split; simpl.
  - rewrite dom_insert_L, H1. simpl. by rewrite union_empty_r_L.
  - done.
  - by apply (idle_live _ w flag).
  - intros j Hj. apply H4 in Hj. lia.
Qed.

Lemma stopPolling_inv s : inv s → inv (stopPolling s).
Proof.
  intros Hi. pose proof Hi as [H1 H2 H3 H4]. unfold stopPolling.
  destruct (pollingIntervalRef s) as [t|] eqn:Hr; [|done].
  split; simpl; auto.
  - rewrite dom_delete_L, H1. simpl. apply difference_diag_L.
  - unfold idle in *. simpl. destruct (life s); [|done|].
    + destruct H3 as [-> ->]. by rewrite delete_empty.
    + destruct H3 as [-> ->]. by rewrite delete_empty.
Qed.

Lemma stopPolling_stopped s :
  inv s → intervals (stopPolling s) = ∅ ∧ pollingIntervalRef (stopPolling s) = None.
Proof.
  intros Hi. pose proof (inv_timers s Hi) as H1. unfold stopPolling.
  destruct (pollingIntervalRef s) as [t|] eqn:Hr; simpl.
  - split; [|done]. apply dom_empty_iff_L. rewrite dom_delete_L, H1. simpl.
    apply difference_diag_L.
  - split; [|done]. by apply dom_empty_iff_L.
Qed.

(** Closing the source the ref holds leaves no source open. *)
Lemma close_closes h s :
  inv s → eventSourceRef s = Some h → sources (close h s) = ∅.
Proof.
  intros Hi Hr. pose proof (inv_sources s Hi) as H2. rewrite Hr in H2. simpl in *.
  apply dom_empty_iff_L. rewrite dom_delete_L.
  apply elem_of_equiv_empty_L. intros x Hx.
  apply elem_of_difference in Hx as [Hx Hne]. apply H2 in Hx. by apply Hne.
Qed.

Lemma open_source_is_current h ws s :
  inv s → sources s !! h = Some ws → eventSourceRef s = Some h.
Proof.
  intros Hi Hs. pose proof (inv_sources s Hi) as H2.
  assert (h ∈ dom (sources s)) as Hd by (apply elem_of_dom; eauto).
  apply H2 in Hd. destruct (eventSourceRef s) as [h'|]; simpl in Hd.
  - apply elem_of_singleton in Hd. by subst.
  - by apply not_elem_of_empty in Hd.
Qed.

Lemma open_source_live h ws s :
  inv s → sources s !! h = Some ws → ∃ w flag, life s = Live w flag.
Proof.
  intros Hi Hs. pose proof (inv_idle s Hi) as H3. unfold idle in H3.
  destruct (life s) eqn:Hl; eauto.
  - destruct H3 as [_ H3]. rewrite H3 in Hs. by rewrite lookup_empty in Hs.
  - destruct H3 as [_ H3]. rewrite H3 in Hs. by rewrite lookup_empty in Hs.
Qed.

Lemma inv_same_channels s s' :
  inv s → same_channels s s' → dom (jobs s') ⊆ dom (jobs s) → inv s'.
Proof.
  intros [H1 H2 H3 H4] (Ei & Es & Ee & Ep & El & En) Hj.
  split; unfold idle in *; rewrite ?Ei, ?Es, ?Ee, ?Ep, ?El, ?En; auto.
Qed.

Lemma settle_inv j fa ft fe s : inv s → inv (settle j fa ft fe s).
Proof.
  intros Hi. eapply inv_same_channels; eauto using settle_channels, settle_jobs.
Qed.

Lemma body_inv j s : inv s → inv (body j s).
Proof.
  intros Hi. eapply inv_same_channels; eauto using body_channels, body_jobs.
Qed.

Lemma close_inv h s : inv s → inv (close h s).
Proof.
  intros [H1 H2 H3 H4]. split; simpl; auto.
  - rewrite dom_delete_L. intros x Hx. apply elem_of_difference in Hx as [Hx _]. auto.
  - unfold idle in *. simpl. destruct (life s); [|done|].
    + destruct H3 as [-> ->]. by rewrite delete_empty.
    + destruct H3 as [-> ->]. by rewrite delete_empty.
Qed.

Lemma load_effect_inv ws s :
  inv s → inv (load_effect ws s)
          ∧ intervals (load_effect ws s) = intervals s
          ∧ sources (load_effect ws s) = sources s
          ∧ life (load_effect ws s) = Live ws (next s).
Proof.
  intros [H1 H2 H3 H4]. split; [|done]. split; simpl; auto.
  - done.
  - intros j Hj. rewrite dom_insert_L in Hj. apply elem_of_union in Hj as [Hj|Hj].
    + apply elem_of_singleton in Hj. lia.
    + apply H4 in Hj. lia.
Qed.

Lemma connectSSE_inv ws s :
  (∃ w flag, life s = Live w flag) → inv s → sources s = ∅ → inv (connectSSE ws s).
Proof.
  intros (w & flag & Hl) [H1 H2 H3 H4] He. split; simpl; auto.
  - rewrite He, dom_insert_L, dom_empty_L. by rewrite union_empty_r_L.
  - by apply (idle_live _ w flag).
  - intros j Hj. apply H4 in Hj. lia.
Qed.

Lemma setup_inv ws s : inv s → sources s = ∅ → inv (setup ws s).
Proof.
  intros Hi He. unfold setup, sync_effect.
  destruct (load_effect_inv ws s Hi) as (Hi1 & _ & Hs1 & Hl1).
  assert (∃ w flag, life (load_effect ws s) = Live w flag) as Hlive by eauto.
  apply startPolling_inv.
  - destruct Hlive as (w & flag & Hl). by exists w, flag.
  - apply connectSSE_inv; [done|done|]. by rewrite Hs1.
Qed.

Lemma load_cleanup_inv flag s : inv s → inv (load_cleanup flag s).
Proof. by intros [H1 H2 H3 H4]. Qed.

Lemma sync_cleanup_inv s :
  inv s → inv (sync_cleanup s)
          ∧ intervals (sync_cleanup s) = ∅ ∧ sources (sync_cleanup s) = ∅.
Proof.
  intros Hi. unfold sync_cleanup.
  set (s1 := match eventSourceRef s with Some h => close h s | None => s end).
  assert (inv s1 ∧ sources s1 = ∅) as [Hi1 Hs1].
  { unfold s1. destruct (eventSourceRef s) as [h|] eqn:Hr.
    - split; [by apply close_inv|by apply close_closes].
    - split; [done|]. apply dom_empty_iff_L.
      pose proof (inv_sources s Hi) as H2. rewrite Hr in H2. simpl in H2.
      apply elem_of_equiv_empty_L. intros x Hx. apply H2 in Hx.
      by apply not_elem_of_empty in Hx. }
  split; [by apply stopPolling_inv|].
  split; [by apply stopPolling_stopped|].
  unfold stopPolling. by destruct (pollingIntervalRef s1).
Qed.

Lemma teardown_inv flag s :
  inv s → inv (teardown flag s)
          ∧ intervals (teardown flag s) = ∅ ∧ sources (teardown flag s) = ∅.
Proof.
  intros Hi. unfold teardown. by apply sync_cleanup_inv, load_cleanup_inv.
Qed.

Lemma onopen_inv s : inv s → inv (onopen s).
Proof.
  intros Hi. unfold onopen. apply stopPolling_inv. by destruct Hi.
Qed.

Lemma onerror_inv h ws s : inv s → sources s !! h = Some ws → inv (onerror h ws s).
Proof.
  intros Hi Hs. unfold onerror.
  destruct (open_source_live h ws s Hi Hs) as (w & flag & Hl).
  pose proof (open_source_is_current h ws s Hi Hs) as Hr.
  assert (inv (setSseConnected false s)) as Hi1 by (by destruct Hi).
  pose proof (close_closes h (setSseConnected false s) Hi1 Hr) as Hc.
  apply close_inv with (h := h) in Hi1.
  apply startPolling_inv; [by exists w, flag|].
  destruct Hi1 as [H1 H2 H3 H4]. simpl in Hc. split; simpl; auto.
  by rewrite Hc, dom_empty_L.
Qed.

Lemma step_inv e s : inv s → inv (step e s).
Proof.
  intros Hi. destruct e as [ws|ws| |h|h data|h|t|j fa ft fe|j]; simpl.
  - destruct (life s) eqn:Hl; [|done|done].
    apply setup_inv; [done|]. pose proof (inv_idle s Hi) as H3.
    unfold idle in H3. rewrite Hl in H3. by destruct H3.
  - destruct (life s) as [|old flag|] eqn:Hl; [done| |done].
    destruct (decide (old = ws)); [done|].
    destruct (teardown_inv flag s Hi) as (Hi1 & _ & Hs1). by apply setup_inv.
  - destruct (life s) as [|old flag|] eqn:Hl; [done| |done].
    destruct (teardown_inv flag s Hi) as ([H1 H2 H3 H4] & Ht & Hs1).
    split; simpl; auto. by unfold idle.
  - destruct (sources s !! h); [by apply onopen_inv|done].
  - destruct (sources s !! h) as [ws|]; [|done]. unfold onmessage.
    destruct (String.prefix ":" data); [done|]. by apply start_job_inv.
  - destruct (sources s !! h) as [ws|] eqn:Hs; [|done]. by apply onerror_inv with (ws := ws).
  - destruct (intervals s !! t) as [ws|]; [|done]. by apply start_job_inv.
  - by apply settle_inv.
  - by apply body_inv.
Qed.

Lemma run_inv evs s : inv s → inv (run evs s).
Proof.
  revert s. induction evs as [|e evs IH]; intros s Hi; simpl; [done|].
  by apply IH, step_inv.
Qed.

Lemma reachable_inv s : reachable s → inv s.
Proof. intros [evs ->]. apply run_inv, inv_init. Qed.

(** *** Messages on the stream *)

Lemma startsWith_colon (data : string) :
  String.prefix ":" data = true ↔ ∃ rest, data = String ":" rest.
Proof.
  destruct data as [|c rest]; cbn -[ascii_dec].
  - split; [done|]. by intros [rest H].
  - destruct (ascii_dec ":" c) as [<-|Hne].
    + split; [by exists rest|]. intros _. by destruct rest.
    + split; [done|]. intros [rest' H]. congruence.
Qed.

Lemma fresh_job (s : state) : inv s → jobs s !! next s = None.
Proof.
  intros Hi. destruct (jobs s !! next s) eqn:Hj; [|done].
  assert (next s ∈ dom (jobs s)) as Hd by (apply elem_of_dom; eauto).
  apply (inv_fresh s Hi) in Hd. lia.
Qed.

(** C1. A message on the live connection whose data begins with ':' changes
    nothing (no refresh); any other message invokes [refresh] once: one new
    in-flight call, which has issued exactly the three requests for agents,
    tasks and events. *)
Theorem stream_message_triggers_refresh (s : state) (h : nat) (ws : scope) :
  reachable s → sources s !! h = Some ws →
  (∀ rest, step (SseMessage h (String ":" rest)) s = s)
  ∧ (∀ data, (∀ rest, data ≠ String ":" rest) →
       let s' := step (SseMessage h data) s in
       s' = refresh ws s
       ∧ trace s' = (trace s ++ [Fetch (scoped_url "/api/agents" ws);
                                 Fetch (scoped_url "/api/tasks" ws);
                                 Fetch "/api/events?limit=150"])%list
       ∧ jobs s' = <[next s := mkJob Refresh ws AwaitAll]> (jobs s)
       ∧ size (jobs s') = S (size (jobs s))).
Proof.
  intros Hr Hs. apply reachable_inv in Hr. split.
  - intros rest. simpl. rewrite Hs. unfold onmessage.
    by replace (String.prefix ":" (String ":" rest)) with true
      by (symmetry; apply startsWith_colon; eauto).
  - intros data Hd. simpl. rewrite Hs. unfold onmessage.
    destruct (String.prefix ":" data) eqn:Hp.
    + apply startsWith_colon in Hp as [rest ->]. by destruct (Hd rest).
    + repeat split. simpl. by apply map_size_insert_None, fresh_job.
Qed.

(** On the sample dashboard a data line starts the three requests of
    workspace A. *)
Lemma stream_message_triggers_refresh_witness :
  sources Sample.dash_a !! 3 = Some (Some "A")
  ∧ step (SseMessage 3 ":") Sample.dash_a = Sample.dash_a
  ∧ trace (step (SseMessage 3 "task_updated") Sample.dash_a)
    = (trace Sample.dash_a ++ [Fetch "/api/agents?workspace_id=A";
                               Fetch "/api/tasks?workspace_id=A";
                               Fetch "/api/events?limit=150"])%list.
Proof.
  split; [reflexivity|].
  destruct (stream_message_triggers_refresh Sample.dash_a 3 (Some "A"))
    as [Hk Hd]; [by exists [Mount (Some "A")]|reflexivity|].
  split; [apply Hk|].
  destruct (Hd "task_updated") as (_ & Ht & _); [intros rest; discriminate|].
  exact Ht.
Defined.


(** *** Health of the stream *)

Lemma step_closed (e : event) (s : state) :
  inv s → is_setup e = false → sources s = ∅ → sources (step e s) = ∅.
Proof.
  intros Hi He Hs. destruct e as [ws|ws| |h|h data|h|t|j fa ft fe|j]; simpl;
    try discriminate.
  - destruct (life s) as [|old flag|]; [done| |done].
    destruct (teardown_inv flag s Hi) as (_ & _ & H). exact H.
  - by rewrite Hs, lookup_empty.
  - by rewrite Hs, lookup_empty.
  - by rewrite Hs, lookup_empty.
  - by destruct (intervals s !! t).
  - destruct (settle_channels j fa ft fe s) as (_ & H & _). by rewrite H.
  - destruct (body_channels j s) as (_ & H & _). by rewrite H.
Qed.

Lemma run_closed (evs : list event) (s : state) :
  inv s → Forall (fun e => is_setup e = false) evs → sources s = ∅ →
  sources (run evs s) = ∅.
Proof.
  revert s. induction evs as [|e evs IH]; intros s Hi Hall Hs; simpl; [done|].
  apply Forall_cons in Hall as [He Hall].
  apply IH; [by apply step_inv|done|by apply step_closed].
Qed.

(** C2. When a live connection signals open, the poll scheduler is stopped:
    the ref is cleared and no interval timer is left active.  When it
    signals an error, the connection is closed and none is opened in its
    place (no event source is open afterwards, and none opens until the
    effects run again), and the poll scheduler runs: if it was running its
    timer is kept, otherwise exactly one timer is started. *)
Theorem live_channel_health (s : state) (h : nat) (ws : scope) :
  reachable s → sources s !! h = Some ws →
  (let s' := step (SseOpen h) s in
   sseConnected s' = true ∧ pollingIntervalRef s' = None ∧ intervals s' = ∅)
  ∧ (let s' := step (SseError h) s in
     sseConnected s' = false
     ∧ sources s' = ∅ ∧ eventSourceRef s' = None
     ∧ trace s' = (trace s ++ [SetSseConnected false; CloseEventSource h]
                     ++ match pollingIntervalRef s with
                        | Some _ => []
                        | None => [SetInterval (next s) 20000%Z]
                        end)%list
     ∧ match pollingIntervalRef s with
       | Some t => pollingIntervalRef s' = Some t ∧ intervals s' = intervals s
       | None => pollingIntervalRef s' = Some (next s)
                 ∧ intervals s' = {[ next s := ws ]}
       end
     ∧ ∀ evs, Forall (fun e => is_setup e = false) evs → sources (run evs s') = ∅).
Proof.
  intros Hr Hs. apply reachable_inv in Hr. split.
  - simpl. rewrite Hs. unfold onopen.
    assert (inv (setSseConnected true s)) as Hi by (by destruct Hr).
    destruct (stopPolling_stopped _ Hi) as [H1 H2].
    split; [|done]. unfold stopPolling. simpl. by destruct (pollingIntervalRef s).
  - simpl. rewrite Hs.
    pose proof (open_source_is_current h ws s Hr Hs) as Hc.
    pose proof (close_closes h s Hr Hc) as Hcl. simpl in Hcl.
    pose proof (onerror_inv h ws s Hr Hs) as Hi'.
    assert (sources (onerror h ws s) = ∅) as Hsrc.
    { unfold onerror, startPolling. simpl. by destruct (pollingIntervalRef s). }
    split; [|split; [done|split; [|split; [|split]]]].
    + unfold onerror, startPolling. simpl. by destruct (pollingIntervalRef s).
    + unfold onerror, startPolling. simpl. by destruct (pollingIntervalRef s).
    + unfold onerror, startPolling. simpl.
      destruct (pollingIntervalRef s); simpl; by rewrite <- !app_assoc.
    + pose proof (inv_timers s Hr) as Ht.
      unfold onerror, startPolling. simpl.
      destruct (pollingIntervalRef s) as [t|] eqn:Hp; simpl; [done|].
      split; [done|]. simpl in Ht. apply dom_empty_iff_L in Ht. by rewrite Ht.
    + intros evs Hall. by apply run_closed.
Qed.

(** On the sample dashboard polling runs since the mount (timer 4): an open
    stream stops it, an error leaves it running. *)
Lemma live_channel_health_witness :
  sources Sample.dash_a !! 3 = Some (Some "A")
  ∧ intervals (step (SseOpen 3) Sample.dash_a) = ∅
  ∧ sources (step (SseError 3) Sample.dash_a) = ∅.
Proof.
  split; [reflexivity|].
  destruct (live_channel_health Sample.dash_a 3 (Some "A"))
    as [(_ & _ & Ho) (_ & He & _)]; [by exists [Mount (Some "A")]|reflexivity|].
  split; [exact Ho|exact He].
Defined.


(** *** The poll scheduler *)

Lemma startPolling_timers ws s :
  dom (intervals s) = ref_set (pollingIntervalRef s) →
  dom (intervals (startPolling ws s)) = ref_set (pollingIntervalRef (startPolling ws s))
  ∧ ∃ t, pollingIntervalRef (startPolling ws s) = Some t.
Proof.
  intros Ht. unfold startPolling.
  destruct (pollingIntervalRef s) as [t|] eqn:Hp; simpl.
  - rewrite Hp. eauto.
  - split; [|eauto]. rewrite dom_insert_L, Ht. simpl. by rewrite union_empty_r_L.
Qed.

Lemma stopPolling_timers s :
  dom (intervals s) = ref_set (pollingIntervalRef s) →
  dom (intervals (stopPolling s)) = ref_set (pollingIntervalRef (stopPolling s)).
Proof.
  intros Ht. unfold stopPolling.
  destruct (pollingIntervalRef s) as [t|] eqn:Hp; simpl.
  - rewrite dom_delete_L, Ht. simpl. apply difference_diag_L.
  - by rewrite Hp.
Qed.

Lemma do_calls_timers cs s :
  dom (intervals s) = ref_set (pollingIntervalRef s) →
  dom (intervals (do_calls cs s)) = ref_set (pollingIntervalRef (do_calls cs s)).
Proof.
  revert s. induction cs as [|c cs IH]; intros s Ht; simpl; [done|].
  apply IH. destruct c as [ws|]; simpl.
  - by apply startPolling_timers.
  - by apply stopPolling_timers.
Qed.

Lemma size_ref_set r : (size (ref_set r) ≤ 1)%nat.
Proof.
  destruct r; unfold ref_set.
  - rewrite size_singleton. lia.
  - rewrite size_empty. lia.
Qed.

(** C3. Starting the poll scheduler while its timer is active changes
    nothing, and after a start exactly one timer is active, so that starting
    twice is starting once; stopping a stopped scheduler changes nothing,
    so that stopping twice is stopping once; and after any sequence of start
    and stop calls at most one polling timer is active. *)
Theorem poll_scheduler_idempotent (s : state) (ws ws' : scope) :
  reachable s →
  (∀ t, pollingIntervalRef s = Some t →
        startPolling ws s = s ∧ dom (intervals s) = {[ t ]})
  ∧ size (intervals (startPolling ws s)) = 1
  ∧ startPolling ws' (startPolling ws s) = startPolling ws s
  ∧ (pollingIntervalRef s = None → stopPolling s = s ∧ intervals s = ∅)
  ∧ stopPolling (stopPolling s) = stopPolling s
  ∧ ∀ cs, (size (intervals (do_calls cs s)) ≤ 1)%nat.
Proof.
  intros Hr. apply reachable_inv in Hr. pose proof (inv_timers s Hr) as Ht.
  split; [|split; [|split; [|split; [|split]]]].
  - intros t Hp. unfold startPolling. rewrite Hp. split; [done|].
    by rewrite Ht, Hp.
  - destruct (startPolling_timers ws s Ht) as [Hd [t Hp]].
    rewrite <- size_dom, Hd, Hp. unfold ref_set. apply size_singleton.
  - destruct (startPolling_timers ws s Ht) as [_ [t Hp]].
    unfold startPolling at 1. by rewrite Hp.
  - intros Hp. unfold stopPolling. rewrite Hp. split; [done|].
    apply dom_empty_iff_L. by rewrite Ht, Hp.
  - unfold stopPolling at 1.
    replace (pollingIntervalRef (stopPolling s)) with (@None nat); [done|].
    unfold stopPolling. by destruct (pollingIntervalRef s) eqn:Hp.
  - intros cs. rewrite <- size_dom, (do_calls_timers cs s Ht). apply size_ref_set.
Qed.

Lemma poll_scheduler_idempotent_witness :
  size (intervals (startPolling (Some "A") Sample.dash_a)) = 1
  ∧ (size (intervals (do_calls [Stop; Stop; Start None; Start (Some "A")]
                        Sample.dash_a)) ≤ 1)%nat.
Proof.
  destruct (poll_scheduler_idempotent Sample.dash_a (Some "A") None)
    as (_ & H1 & _ & _ & _ & Hn); [by exists [Mount (Some "A")]|].
  split; [exact H1|apply Hn].
Defined.


(** *** Started timers and opened connections are accounted for *)

Lemma settle_quiet j fa ft fe s :
  ∃ tr, trace (settle j fa ft fe s) = (trace s ++ tr)%list ∧ Forall quiet tr.
Proof.
  unfold settle, fail, agents_line, tasks_line, events_line, finish, suspend,
    setLoading, is_mounted, emit.
  quiet_trace.
Qed.

Lemma body_quiet j s :
  ∃ tr, trace (body j s) = (trace s ++ tr)%list ∧ Forall quiet tr.
Proof.
  unfold body, fail, tasks_line, events_line, finish, suspend, setAgents, setTasks,
    setEvents, setLoading, is_mounted, emit.
  quiet_trace.
Qed.

Lemma accounted_quiet s s' :
  accounted s → intervals s' = intervals s → sources s' = sources s →
  (∃ tr, trace s' = (trace s ++ tr)%list ∧ Forall quiet tr) → accounted s'.
Proof.
  intros [Ht Hs] Ei Es (tr & Etr & Hq). rewrite Forall_forall in Hq.
  split.
  - intros h ms Hin. rewrite Etr in Hin. rewrite Ei, Etr.
    apply elem_of_app in Hin as [Hin|Hin].
    + destruct (Ht h ms Hin) as [H|H]; [by left|right]. apply elem_of_app. by left.
    + by apply Hq in Hin.
  - intros url h Hin. rewrite Etr in Hin. rewrite Es, Etr.
    apply elem_of_app in Hin as [Hin|Hin].
    + destruct (Hs url h Hin) as [H|H]; [by left|right]. apply elem_of_app. by left.
    + by apply Hq in Hin.
Qed.

Lemma start_job_accounted k ws s : accounted s → accounted (start_job k ws s).
Proof.
  intros Ha. apply (accounted_quiet s); [done|done|done|].
  exists (requests ws). split; [done|]. repeat constructor.
Qed.

Lemma startPolling_accounted ws s : accounted s → accounted (startPolling ws s).
Proof.
  intros [Ht Hs]. unfold startPolling.
  destruct (pollingIntervalRef s) as [t|]; [done|]. split; simpl.
  - intros h ms Hin. rewrite dom_insert_L.
    apply elem_of_app in Hin as [Hin|Hin].
    + destruct (Ht h ms Hin) as [H|H].
      * left. apply elem_of_union. by right.
      * right. apply elem_of_app. by left.
    + apply list_elem_of_singleton in Hin. injection Hin as -> _.
      left. apply elem_of_union. left. by apply elem_of_singleton.
  - intros url h Hin. apply elem_of_app in Hin as [Hin|Hin].
    + destruct (Hs url h Hin) as [H|H]; [by left|right]. apply elem_of_app. by left.
    + by apply list_elem_of_singleton in Hin.
Qed.

Lemma stopPolling_accounted s : accounted s → accounted (stopPolling s).
Proof.
  intros [Ht Hs]. unfold stopPolling.
  destruct (pollingIntervalRef s) as [t|]; [|done]. split; simpl.
  - intros h ms Hin. rewrite dom_delete_L.
    apply elem_of_app in Hin as [Hin|Hin];
      [|by apply list_elem_of_singleton in Hin].
    destruct (Ht h ms Hin) as [H|H].
    + destruct (decide (h = t)) as [->|Hne].
      * right. apply elem_of_app. right. by apply list_elem_of_singleton.
      * left. apply elem_of_difference. split; [done|].
        intros Hx. by apply elem_of_singleton in Hx.
    + right. apply elem_of_app. by left.
  - intros url h Hin. apply elem_of_app in Hin as [Hin|Hin];
      [|by apply list_elem_of_singleton in Hin].
    destruct (Hs url h Hin) as [H|H]; [by left|right]. apply elem_of_app. by left.
Qed.

Lemma close_accounted h s : accounted s → accounted (close h s).
Proof.
  intros [Ht Hs]. split; simpl.
  - intros h' ms Hin. apply elem_of_app in Hin as [Hin|Hin];
      [|by apply list_elem_of_singleton in Hin].
    destruct (Ht h' ms Hin) as [H|H]; [by left|right]. apply elem_of_app. by left.
  - intros url h' Hin. rewrite dom_delete_L.
    apply elem_of_app in Hin as [Hin|Hin];
      [|by apply list_elem_of_singleton in Hin].
    destruct (Hs url h' Hin) as [H|H].
    + destruct (decide (h' = h)) as [->|Hne].
      * right. apply elem_of_app. right. by apply list_elem_of_singleton.
      * left. apply elem_of_difference. split; [done|].
        intros Hx. by apply elem_of_singleton in Hx.
    + right. apply elem_of_app. by left.
Qed.

Lemma connectSSE_accounted ws s : accounted s → accounted (connectSSE ws s).
Proof.
  intros [Ht Hs]. split; simpl.
  - intros h ms Hin. apply elem_of_app in Hin as [Hin|Hin];
      [|by apply list_elem_of_singleton in Hin].
    destruct (Ht h ms Hin) as [H|H]; [by left|right]. apply elem_of_app. by left.
  - intros url h Hin. rewrite dom_insert_L.
    apply elem_of_app in Hin as [Hin|Hin].
    + destruct (Hs url h Hin) as [H|H].
      * left. apply elem_of_union. by right.
      * right. apply elem_of_app. by left.
    + apply list_elem_of_singleton in Hin. injection Hin as _ ->.
      left. apply elem_of_union. left. by apply elem_of_singleton.
Qed.

Lemma setup_accounted ws s : accounted s → accounted (setup ws s).
Proof.
  intros Ha. unfold setup, sync_effect.
  apply startPolling_accounted, connectSSE_accounted.
  unfold load_effect, loadData.
  apply (accounted_quiet s); [done|done|done|].
  exists (requests ws). split; [done|]. repeat constructor.
Qed.

Lemma teardown_accounted flag s : accounted s → accounted (teardown flag s).
Proof.
  intros Ha. unfold teardown, sync_cleanup. apply stopPolling_accounted.
  assert (accounted (load_cleanup flag s)) as Ha' by done.
  simpl. destruct (eventSourceRef s); [by apply close_accounted|done].
Qed.

Lemma step_accounted e s : accounted s → accounted (step e s).
Proof.
  intros Ha. destruct e as [ws|ws| |h|h data|h|t|j fa ft fe|j]; simpl.
  - destruct (life s); [by apply setup_accounted|done|done].
  - destruct (life s) as [|old flag|]; [done| |done].
    destruct (decide (old = ws)); [done|].
    by apply setup_accounted, teardown_accounted.
  - destruct (life s) as [|old flag|]; [done| |done].
    by apply (teardown_accounted flag) in Ha.
  - destruct (sources s !! h); [|done]. unfold onopen.
    apply stopPolling_accounted.
    apply (accounted_quiet s); [done|done|done|].
    exists [SetSseConnected true]. split; [done|]. repeat constructor.
  - destruct (sources s !! h) as [ws|]; [|done]. unfold onmessage.
    destruct (String.prefix ":" data); [done|]. by apply start_job_accounted.
  - destruct (sources s !! h) as [ws|]; [|done]. unfold onerror.
    apply startPolling_accounted.
    assert (accounted (setSseConnected false s)) as Ha'.
    { apply (accounted_quiet s); [done|done|done|].
      exists [SetSseConnected false]. split; [done|]. repeat constructor. }
    by apply (close_accounted h) in Ha'.
  - destruct (intervals s !! t) as [ws|]; [|done]. by apply start_job_accounted.
  - destruct (settle_channels j fa ft fe s) as (Ei & Es & _).
    eapply accounted_quiet; eauto using settle_quiet.
  - destruct (body_channels j s) as (Ei & Es & _).
    eapply accounted_quiet; eauto using body_quiet.
Qed.

Lemma run_accounted evs s : accounted s → accounted (run evs s).
Proof.
  revert s. induction evs as [|e evs IH]; intros s Ha; simpl; [done|].
  by apply IH, step_accounted.
Qed.

Lemma reachable_accounted s : reachable s → accounted s.
Proof.
  intros [evs ->]. apply run_accounted.
  split; simpl; intros ? ? Hin; by apply elem_of_nil in Hin.
Qed.

(** *** A call resumed to its end *)

Lemma body_returned j s : jobs s !! j = None → body j s = s.
Proof. unfold body. by intros ->. Qed.

Lemma finish_view j jb s :
  agents (finish j jb s) = agents s ∧ tasks (finish j jb s) = tasks s
  ∧ events (finish j jb s) = events s ∧ jobs (finish j jb s) !! j = None.
Proof.
  unfold finish. destruct (j_kind jb) as [flag|]; [destruct (is_mounted flag _)|];
    simpl; by rewrite lookup_delete_eq.
Qed.

Lemma body_suspended j jb p s :
  body j (suspend j jb p s)
  = let jb' := mkJob (j_kind jb) (j_scope jb) p in
    let s' := suspend j jb p s in
    match p with
    | AwaitAll => s'
    | AwaitAgents ra rt re =>
        match json ra with
        | Some v => tasks_line j jb' rt re (setAgents v s')
        | None => fail j jb' s'
        end
    | AwaitTasks rt re =>
        match json rt with
        | Some v => events_line j jb' re (setTasks v s')
        | None => fail j jb' s'
        end
    | AwaitEvents re =>
        match json re with
        | Some v => finish j jb' (setEvents v s')
        | None => fail j jb' s'
        end
    end.
Proof.
  unfold body.
  replace (jobs (suspend j jb p s) !! j) with (Some (mkJob (j_kind jb) (j_scope jb) p))
    by (symmetry; apply lookup_insert_eq).
  done.
Qed.

(** From the events line on. *)
Lemma events_stage j jb re s :
  (ok re = true → is_Some (json re)) →
  let s' := body j (events_line j jb re s) in
  agents s' = agents s ∧ tasks s' = tasks s
  ∧ events s' = (if ok re then default (events s) (json re) else events s)
  ∧ jobs s' !! j = None.
Proof.
  intros Hre. unfold events_line. destruct (ok re) eqn:Hok.
  - destruct (Hre eq_refl) as [v Hv]. rewrite body_suspended, Hv. simpl.
    destruct (finish_view j (mkJob (j_kind jb) (j_scope jb) (AwaitEvents re))
                (setEvents v (suspend j jb (AwaitEvents re) s)))
      as (-> & -> & -> & ->).
    done.
  - destruct (finish_view j jb s) as (Ea & Et & Ee & Ej).
    rewrite body_returned by done. done.
Qed.

(** From the tasks line on. *)
Lemma tasks_stage j jb rt re s :
  (ok rt = true → is_Some (json rt)) → (ok re = true → is_Some (json re)) →
  let s' := body j (body j (tasks_line j jb rt re s)) in
  agents s' = agents s
  ∧ tasks s' = (if ok rt then default (tasks s) (json rt) else tasks s)
  ∧ events s' = (if ok re then default (events s) (json re) else events s)
  ∧ jobs s' !! j = None.
Proof.
  intros Hrt Hre. unfold tasks_line. destruct (ok rt) eqn:Hok.
  - destruct (Hrt eq_refl) as [v Hv]. rewrite body_suspended, Hv. simpl.
    destruct (events_stage j (mkJob (j_kind jb) (j_scope jb) (AwaitTasks rt re)) re
                (setTasks v (suspend j jb (AwaitTasks rt re) s)) Hre)
      as (-> & -> & -> & ->).
    done.
  - destruct (events_stage j jb re s Hre) as (Ea & Et & Ee & Ej).
    rewrite (body_returned j (body j _)) by done. done.
Qed.

(** From the agents line on. *)
Lemma agents_stage j jb ra rt re s :
  (ok ra = true → is_Some (json ra)) → (ok rt = true → is_Some (json rt)) →
  (ok re = true → is_Some (json re)) →
  let s' := body j (body j (body j (agents_line j jb ra rt re s))) in
  agents s' = (if ok ra then default (agents s) (json ra) else agents s)
  ∧ tasks s' = (if ok rt then default (tasks s) (json rt) else tasks s)
  ∧ events s' = (if ok re then default (events s) (json re) else events s)
  ∧ jobs s' !! j = None.
Proof.
  intros Hra Hrt Hre. unfold agents_line. destruct (ok ra) eqn:Hok.
  - destruct (Hra eq_refl) as [v Hv]. rewrite body_suspended, Hv. simpl.
    destruct (tasks_stage j (mkJob (j_kind jb) (j_scope jb) (AwaitAgents ra rt re))
                rt re (setAgents v (suspend j jb (AwaitAgents ra rt re) s)) Hrt Hre)
      as (-> & -> & -> & ->).
    done.
  - destruct (tasks_stage j jb rt re s Hrt Hre) as (Ea & Et & Ee & Ej).
    rewrite (body_returned j (body j (body j _))) by done. done.
Qed.

(** The three [await]s of a call that has returned are no-ops. *)
Lemma bodies_returned j s :
  jobs s !! j = None → body j (body j (body j s)) = s.
Proof. intros Hj. by rewrite !(body_returned j s Hj). Qed.

Lemma refresh_fulfilled s j ws ra rt re :
  jobs s !! j = Some (mkJob Refresh ws AwaitAll) →
  (ok ra = true → is_Some (json ra)) → (ok rt = true → is_Some (json rt)) →
  (ok re = true → is_Some (json re)) →
  let s' := complete j (Some ra) (Some rt) (Some re) s in
  agents s' = (if ok ra then default (agents s) (json ra) else agents s)
  ∧ tasks s' = (if ok rt then default (tasks s) (json rt) else tasks s)
  ∧ events s' = (if ok re then default (events s) (json re) else events s)
  ∧ jobs s' !! j = None.
Proof.
  intros Hj Hra Hrt Hre. unfold complete, settle. rewrite Hj. simpl.
  by apply agents_stage.
Qed.

Lemma refresh_rejected s j ws fa ft fe :
  jobs s !! j = Some (mkJob Refresh ws AwaitAll) →
  promise_all fa ft fe = Rejected →
  let s' := complete j fa ft fe s in
  agents s' = agents s ∧ tasks s' = tasks s ∧ events s' = events s
  ∧ jobs s' !! j = None
  ∧ trace s' = (trace s ++ [ConsoleError "Failed to refresh activity dashboard data:"])%list.
Proof.
  intros Hj Hrej. unfold complete, settle. rewrite Hj, Hrej. simpl.
  assert (jobs (fail j (mkJob Refresh ws AwaitAll) s) !! j = None) as Hn
    by (simpl; apply lookup_delete_eq).
  by rewrite bodies_returned.
Qed.

Lemma loadData_unmounted s j flag ws fa ft fe :
  jobs s !! j = Some (mkJob (LoadData flag) ws AwaitAll) →
  is_mounted flag s = false →
  let s' := complete j fa ft fe s in
  agents s' = agents s ∧ tasks s' = tasks s ∧ events s' = events s
  ∧ loading s' = loading s.
Proof.
  intros Hj Hm. unfold complete, settle. rewrite Hj. simpl.
  set (jb := mkJob (LoadData flag) ws AwaitAll).
  assert (∀ s0, is_mounted flag s0 = false →
                jobs (finish j jb s0) !! j = None
                ∧ agents (finish j jb s0) = agents s0
                ∧ tasks (finish j jb s0) = tasks s0 ∧ events (finish j jb s0) = events s0
                ∧ loading (finish j jb s0) = loading s0) as Hfin.
  { intros s0 Hm0. unfold finish. simpl.
    replace (is_mounted flag (with_jobs (delete j (jobs s0)) s0)) with false by done.
    simpl. by rewrite lookup_delete_eq. }
  destruct (promise_all fa ft fe) as [|ra rt re].
  - unfold fail.
    destruct (Hfin (emit (ConsoleError (error_message (j_kind jb))) s) Hm)
      as (Hn & Ea & Et & Ee & El).
    rewrite (bodies_returned j _ Hn). by rewrite Ea, Et, Ee, El.
  - rewrite Hm. simpl.
    destruct (Hfin s Hm) as (Hn & Ea & Et & Ee & El).
    rewrite (bodies_returned j _ Hn). by rewrite Ea, Et, Ee, El.
Qed.

(** *** After the unmount *)

Lemma step_gone (e : event) (s : state) : life s = Gone → life (step e s) = Gone.
Proof.
  intros Hl. destruct e as [ws|ws| |h|h data|h|t|j fa ft fe|j]; simpl;
    rewrite ?Hl; try done.
  - destruct (sources s !! h); [|done].
    unfold onopen, stopPolling. simpl. by destruct (pollingIntervalRef s).
  - destruct (sources s !! h); [|done].
    unfold onmessage. by destruct (String.prefix ":" data).
  - destruct (sources s !! h); [|done].
    unfold onerror, startPolling. simpl. by destruct (pollingIntervalRef s).
  - by destruct (intervals s !! t).
  - destruct (settle_channels j fa ft fe s) as (_ & _ & _ & _ & H & _). by rewrite H.
  - destruct (body_channels j s) as (_ & _ & _ & _ & H & _). by rewrite H.
Qed.

Lemma run_gone (evs : list event) (s : state) : life s = Gone → life (run evs s) = Gone.
Proof.
  revert s. induction evs as [|e evs IH]; intros s Hl; simpl; [done|].
  by apply IH, step_gone.
Qed.

Lemma gone_idle (s : state) :
  inv s → life s = Gone → intervals s = ∅ ∧ sources s = ∅.
Proof.
  intros Hi Hl. pose proof (inv_idle s Hi) as H. unfold idle in H. by rewrite Hl in H.
Qed.

End DashboardFacts.

(** ** The workspace page: invariant and connectivity check *)

Module WorkspacePageFacts.
Import WorkspacePage.

Lemma settle_all_timers j fa ft fe s : same_timers s (settle_all j fa ft fe s).
Proof.
  unfold same_timers, settle_all, load_fail, agents_line, tasks_line, events_line,
    load_finish, suspend, done, setIsLoading, emit.
  channels.
Qed.

Lemma settle_status_timers j o s : same_timers s (settle_status j o s).
Proof.
  unfold same_timers, settle_status, clearTimeout, suspend, done, setIsOnline, emit.
  channels.
Qed.

Lemma settle_tasks_timers j o s : same_timers s (settle_tasks j o s).
Proof. unfold same_timers, settle_tasks, suspend, done, emit. channels. Qed.

Lemma settle_events_timers j o s : same_timers s (settle_events j o s).
Proof. unfold same_timers, settle_events, suspend, done, emit. channels. Qed.

Lemma body_timers j s : same_timers s (body j s).
Proof.
  unfold same_timers, body, load_fail, tasks_line, events_line, load_finish,
    status_result, task_poll_result, suspend, done, setAgents, setTasks, setEvents,
    setIsOnline, setIsLoading, emit.
  channels.
Qed.

Lemma abort_timers h s : same_timers s (abort h s).
Proof. unfold same_timers, abort, done, setIsOnline, emit. channels. Qed.

Lemma inv_same_timers s s' : inv s → same_timers s s' → inv s'.
Proof.
  intros [H1 H2] (Ei & Ec & Ea). split; rewrite ?Ei, ?Ec, ?Ea; auto.
Qed.

Lemma page_teardown_inv s :
  inv s → inv (teardown s) ∧ intervals (teardown s) = ∅ ∧ cleanup (teardown s) = None
          ∧ alive (teardown s) = alive s.
Proof.
  intros [H1 H2]. unfold teardown.
  destruct (cleanup s) as [[[e c] t]|] eqn:Hc; simpl in *.
  - assert (delete t (delete c (delete e (intervals s))) = ∅) as He.
    { apply dom_empty_iff_L. rewrite !dom_delete_L, H1. set_solver. }
    split; [|done]. split; simpl; [|done]. by rewrite He, dom_empty_L.
  - split; [|split; [by apply dom_empty_iff_L|done]].
    split; [by rewrite Hc|done].
Qed.

Lemma effect_inv w s :
  alive s = true → intervals s = ∅ → inv (effect w s).
Proof.
  intros Ha He. destruct w as [w|]; simpl.
  - split; simpl; [|congruence].
    rewrite !dom_insert_L, He, dom_empty_L. set_solver.
  - split; simpl; [|done]. by rewrite He, dom_empty_L.
Qed.

Lemma page_inv_init st0 : inv (init st0).
Proof. split; simpl; [apply dom_empty_L|done]. Qed.

Lemma page_step_inv e s : inv s → inv (step e s).
Proof.
  intros Hi. destruct e as [w| |h|h|j fa ft fe|j o|j o|j o|j]; simpl.
  - destruct (alive s) eqn:Ha; [|done].
    destruct (page_teardown_inv s Hi) as (_ & He & _ & Ha').
    apply effect_inv; [congruence|done].
  - destruct (alive s) eqn:Ha; [|done].
    destruct (page_teardown_inv s Hi) as ([H1 H2] & He & Hc & Ha').
    by split.
  - destruct (intervals s !! h) as [[|ws|]|]; by destruct Hi.
  - eapply inv_same_timers; eauto using abort_timers.
  - eapply inv_same_timers; eauto using settle_all_timers.
  - eapply inv_same_timers; eauto using settle_status_timers.
  - eapply inv_same_timers; eauto using settle_tasks_timers.
  - eapply inv_same_timers; eauto using settle_events_timers.
  - eapply inv_same_timers; eauto using body_timers.
Qed.

Lemma page_run_inv evs s : inv s → inv (run evs s).
Proof.
  revert s. induction evs as [|e evs IH]; intros s Hi; simpl; [done|].
  by apply IH, page_step_inv.
Qed.

Lemma page_reachable_inv s : reachable s → inv s.
Proof. intros (st0 & evs & ->). apply page_run_inv, page_inv_init. Qed.

(** *** Started interval timers are accounted for *)

Lemma settle_all_quiet j fa ft fe s :
  ∃ tr, trace (settle_all j fa ft fe s) = (trace s ++ tr)%list ∧ Forall quiet tr.
Proof.
  unfold settle_all, load_fail, agents_line, tasks_line, events_line, load_finish,
    suspend, done, setIsLoading, emit.
  quiet_trace.
Qed.

Lemma settle_status_quiet j o s :
  ∃ tr, trace (settle_status j o s) = (trace s ++ tr)%list ∧ Forall quiet tr.
Proof.
  unfold settle_status, clearTimeout, suspend, done, setIsOnline, emit. quiet_trace.
Qed.

Lemma settle_tasks_quiet j o s :
  ∃ tr, trace (settle_tasks j o s) = (trace s ++ tr)%list ∧ Forall quiet tr.
Proof. unfold settle_tasks, suspend, done, emit. quiet_trace. Qed.

Lemma settle_events_quiet j o s :
  ∃ tr, trace (settle_events j o s) = (trace s ++ tr)%list ∧ Forall quiet tr.
Proof. unfold settle_events, suspend, done, emit. quiet_trace. Qed.

Lemma page_body_quiet j s :
  ∃ tr, trace (body j s) = (trace s ++ tr)%list ∧ Forall quiet tr.
Proof.
  unfold body, load_fail, tasks_line, events_line, load_finish, status_result,
    task_poll_result, suspend, done, setAgents, setTasks, setEvents, setIsOnline,
    setIsLoading, emit.
  quiet_trace.
Qed.

Lemma abort_quiet h s :
  ∃ tr, trace (abort h s) = (trace s ++ tr)%list ∧ Forall quiet tr.
Proof. unfold abort, done, setIsOnline, emit. quiet_trace. Qed.

Lemma page_accounted_quiet s s' :
  accounted s → intervals s' = intervals s →
  (∃ tr, trace s' = (trace s ++ tr)%list ∧ Forall quiet tr) → accounted s'.
Proof.
  intros Ht Ei (tr & Etr & Hq). rewrite Forall_forall in Hq.
  intros h ms Hin. rewrite Etr in Hin. rewrite Ei, Etr.
  apply elem_of_app in Hin as [Hin|Hin].
  - destruct (Ht h ms Hin) as [H|H]; [by left|right]. apply elem_of_app. by left.
  - by apply Hq in Hin.
Qed.

Lemma setInterval_accounted p ms s : accounted s → accounted (setInterval p ms s).
Proof.
  intros Ht h ms' Hin. simpl in *. rewrite dom_insert_L.
  apply elem_of_app in Hin as [Hin|Hin].
  - destruct (Ht h ms' Hin) as [H|H].
    + left. apply elem_of_union. by right.
    + right. apply elem_of_app. by left.
  - apply list_elem_of_singleton in Hin. injection Hin as -> _.
    left. apply elem_of_union. left. by apply elem_of_singleton.
Qed.

Lemma clearInterval_accounted t s : accounted s → accounted (clearInterval t s).
Proof.
  intros Ht h ms Hin. simpl in *. rewrite dom_delete_L.
  apply elem_of_app in Hin as [Hin|Hin];
    [|by apply list_elem_of_singleton in Hin].
  destruct (Ht h ms Hin) as [H|H].
  - destruct (decide (h = t)) as [->|Hne].
    + right. apply elem_of_app. right. by apply list_elem_of_singleton.
    + left. apply elem_of_difference. split; [done|].
      intros Hx. by apply elem_of_singleton in Hx.
  - right. apply elem_of_app. by left.
Qed.

Lemma page_teardown_accounted s : accounted s → accounted (teardown s).
Proof.
  intros Ha. unfold teardown. destruct (cleanup s) as [[[e c] t]|]; [|done].
  by apply (clearInterval_accounted e), (clearInterval_accounted c),
       (clearInterval_accounted t) in Ha.
Qed.

Lemma with_cleanup_accounted c s : accounted s → accounted (with_cleanup c s).
Proof. intros Ha. exact Ha. Qed.

Lemma effect_accounted w s : accounted s → accounted (effect w s).
Proof.
  intros Ha. destruct w as [w|]; [|done]. unfold effect. cbv zeta.
  apply with_cleanup_accounted.
  assert (accounted (checkOpenClaw (loadData (workspace_id w) s))) as Ha'.
  { apply (page_accounted_quiet s); [done|done|].
    exists [DebugApi "Loading workspace data...";
            Fetch (agents_url (workspace_id w)) false;
            Fetch (tasks_url (workspace_id w)) false;
            Fetch load_events_url false;
            SetTimeout (S (next s)) 5000%Z;
            Fetch status_url true].
    split; [simpl; by rewrite <- !app_assoc|repeat constructor]. }
  by apply setInterval_accounted, setInterval_accounted, setInterval_accounted.
Qed.

Lemma page_step_accounted e s : accounted s → accounted (step e s).
Proof.
  intros Ha. destruct e as [w| |h|h|j fa ft fe|j o|j o|j o|j]; simpl.
  - destruct (alive s); [|done]. by apply effect_accounted, page_teardown_accounted.
  - destruct (alive s); [|done]. by apply page_teardown_accounted in Ha.
  - destruct (intervals s !! h) as [[|ws|]|]; [| | |done];
      (apply (page_accounted_quiet s); [done|done|]); eexists;
      (split; [reflexivity|repeat constructor]).
  - destruct (abort_timers h s) as (Ei & _).
    eapply page_accounted_quiet; eauto using abort_quiet.
  - destruct (settle_all_timers j fa ft fe s) as (Ei & _).
    eapply page_accounted_quiet; eauto using settle_all_quiet.
  - destruct (settle_status_timers j o s) as (Ei & _).
    eapply page_accounted_quiet; eauto using settle_status_quiet.
  - destruct (settle_tasks_timers j o s) as (Ei & _).
    eapply page_accounted_quiet; eauto using settle_tasks_quiet.
  - destruct (settle_events_timers j o s) as (Ei & _).
    eapply page_accounted_quiet; eauto using settle_events_quiet.
  - destruct (body_timers j s) as (Ei & _).
    eapply page_accounted_quiet; eauto using page_body_quiet.
Qed.

Lemma page_run_accounted evs s : accounted s → accounted (run evs s).
Proof.
  revert s. induction evs as [|e evs IH]; intros s Ha; simpl; [done|].
  by apply IH, page_step_accounted.
Qed.

Lemma page_reachable_accounted s : reachable s → accounted s.
Proof.
  intros (st0 & evs & ->). apply page_run_accounted.
  intros ? ? Hin. by apply elem_of_nil in Hin.
Qed.

(** An unmounted page stays unmounted. *)
Lemma page_step_gone e s : alive s = false → alive (step e s) = false.
Proof.
  intros Ha. destruct e as [w| |h|h|j fa ft fe|j o|j o|j o|j]; simpl.
  - by rewrite Ha.
  - by rewrite Ha.
  - by destruct (intervals s !! h) as [[|ws|]|].
  - destruct (abort_timers h s) as (_ & _ & H). by rewrite H.
  - destruct (settle_all_timers j fa ft fe s) as (_ & _ & H). by rewrite H.
  - destruct (settle_status_timers j o s) as (_ & _ & H). by rewrite H.
  - destruct (settle_tasks_timers j o s) as (_ & _ & H). by rewrite H.
  - destruct (settle_events_timers j o s) as (_ & _ & H). by rewrite H.
  - destruct (body_timers j s) as (_ & _ & H). by rewrite H.
Qed.

Lemma page_run_gone evs s : alive s = false → alive (run evs s) = false.
Proof.
  revert s. induction evs as [|e evs IH]; intros s Ha; simpl; [done|].
  by apply IH, page_step_gone.
Qed.

Lemma gone_no_timers s : inv s → alive s = false → intervals s = ∅.
Proof.
  intros [H1 H2] Ha. apply dom_empty_iff_L. by rewrite H1, (H2 Ha).
Qed.

(** *** [loadData] resumed to its end *)

Lemma page_body_returned j s : jobs s !! j = None → body j s = s.
Proof. unfold body. by intros ->. Qed.

Lemma load_finish_view j s :
  agents (st (load_finish j s)) = agents (st s)
  ∧ tasks (st (load_finish j s)) = tasks (st s)
  ∧ events (st (load_finish j s)) = events (st s)
  ∧ jobs (load_finish j s) !! j = None.
Proof. simpl. by rewrite lookup_delete_eq. Qed.

Lemma page_body_suspended j jb s :
  body j (suspend j jb s)
  = let s' := suspend j jb s in
    match jb with
    | LoadAgents ra rt re =>
        match json ra with
        | Some v => tasks_line j rt re (setAgents v s')
        | None => load_fail j s'
        end
    | LoadTasks rt re =>
        match json rt with
        | Some v => events_line j re (setTasks v (emit (DebugApi "Loaded tasks") s'))
        | None => load_fail j s'
        end
    | LoadEvents re =>
        match json re with
        | Some v => load_finish j (setEvents v s')
        | None => load_fail j s'
        end
    | CheckBody r => status_result r (done j s')
    | ConnectionBody r => status_result r (done j s')
    | EventPollBody r =>
        match json r with
        | Some v => setEvents v (done j s')
        | None => emit (ConsoleError "Failed to poll events:") (done j s')
        end
    | TaskPollBody r =>
        match json r with
        | Some newTasks => task_poll_result newTasks (done j s')
        | None => emit (ConsoleError "Failed to poll tasks:") (done j s')
        end
    | _ => s'
    end.
Proof.
  unfold body.
  replace (jobs (suspend j jb s) !! j) with (Some jb)
    by (symmetry; apply lookup_insert_eq).
  by destruct jb.
Qed.

Lemma page_events_stage j re s :
  (ok re = true → is_Some (json re)) →
  let s' := body j (events_line j re s) in
  agents (st s') = agents (st s) ∧ tasks (st s') = tasks (st s)
  ∧ events (st s') = (if ok re then default (events (st s)) (json re)
                      else events (st s))
  ∧ jobs s' !! j = None.
Proof.
  intros Hre. unfold events_line. destruct (ok re) eqn:Hok.
  - destruct (Hre eq_refl) as [v Hv]. rewrite page_body_suspended. simpl.
    rewrite Hv.
    destruct (load_finish_view j (setEvents v (suspend j (LoadEvents re) s)))
      as (-> & -> & -> & ->).
    done.
  - destruct (load_finish_view j s) as (Ea & Et & Ee & Ej).
    rewrite page_body_returned by done. done.
Qed.

Lemma page_tasks_stage j rt re s :
  (ok rt = true → is_Some (json rt)) → (ok re = true → is_Some (json re)) →
  let s' := body j (body j (tasks_line j rt re s)) in
  agents (st s') = agents (st s)
  ∧ tasks (st s') = (if ok rt then default (tasks (st s)) (json rt)
                     else tasks (st s))
  ∧ events (st s') = (if ok re then default (events (st s)) (json re)
                      else events (st s))
  ∧ jobs s' !! j = None.
Proof.
  intros Hrt Hre. unfold tasks_line. destruct (ok rt) eqn:Hok.
  - destruct (Hrt eq_refl) as [v Hv]. rewrite page_body_suspended. simpl.
    rewrite Hv.
    destruct (page_events_stage j re
                (setTasks v (emit (DebugApi "Loaded tasks")
                               (suspend j (LoadTasks rt re) s))) Hre)
      as (-> & -> & -> & ->).
    done.
  - destruct (page_events_stage j re s Hre) as (Ea & Et & Ee & Ej).
    rewrite (page_body_returned j (body j _)) by done. done.
Qed.

Lemma page_agents_stage j ra rt re s :
  (ok ra = true → is_Some (json ra)) → (ok rt = true → is_Some (json rt)) →
  (ok re = true → is_Some (json re)) →
  let s' := body j (body j (body j (agents_line j ra rt re s))) in
  agents (st s') = (if ok ra then default (agents (st s)) (json ra)
                    else agents (st s))
  ∧ tasks (st s') = (if ok rt then default (tasks (st s)) (json rt)
                     else tasks (st s))
  ∧ events (st s') = (if ok re then default (events (st s)) (json re)
                      else events (st s))
  ∧ jobs s' !! j = None.
Proof.
  intros Hra Hrt Hre. unfold agents_line. destruct (ok ra) eqn:Hok.
  - destruct (Hra eq_refl) as [v Hv]. rewrite page_body_suspended. simpl.
    rewrite Hv.
    destruct (page_tasks_stage j rt re
                (setAgents v (suspend j (LoadAgents ra rt re) s)) Hrt Hre)
      as (-> & -> & -> & ->).
    done.
  - destruct (page_tasks_stage j rt re s Hrt Hre) as (Ea & Et & Ee & Ej).
    rewrite (page_body_returned j (body j (body j _))) by done. done.
Qed.

Lemma page_load_fulfilled s j ra rt re :
  jobs s !! j = Some LoadAll →
  (ok ra = true → is_Some (json ra)) → (ok rt = true → is_Some (json rt)) →
  (ok re = true → is_Some (json re)) →
  let s' := complete j (Some ra) (Some rt) (Some re) s in
  agents (st s') = (if ok ra then default (agents (st s)) (json ra)
                    else agents (st s))
  ∧ tasks (st s') = (if ok rt then default (tasks (st s)) (json rt)
                     else tasks (st s))
  ∧ events (st s') = (if ok re then default (events (st s)) (json re)
                      else events (st s))
  ∧ jobs s' !! j = None.
Proof.
  intros Hj Hra Hrt Hre. unfold complete, settle_all. rewrite Hj. simpl.
  by apply page_agents_stage.
Qed.

Lemma page_load_rejected s j fa ft fe :
  jobs s !! j = Some LoadAll →
  promise_all fa ft fe = Rejected →
  let s' := complete j fa ft fe s in
  agents (st s') = agents (st s) ∧ tasks (st s') = tasks (st s)
  ∧ events (st s') = events (st s)
  ∧ jobs s' !! j = None
  ∧ trace s' = (trace s ++ [ConsoleError "Failed to load data:";
                            SetIsLoading false])%list.
Proof.
  intros Hj Hrej. unfold complete, settle_all. rewrite Hj, Hrej.
  assert (jobs (load_fail j s) !! j = None) as Hn
    by (simpl; apply lookup_delete_eq).
  rewrite !(page_body_returned j (load_fail j s) Hn). simpl.
  by rewrite lookup_delete_eq, <- app_assoc.
Qed.

(** *** The connectivity check *)

(** A status request that comes back with a response that is not ok leaves
    the online flag as it was: here it stays true after a failed periodic
    check, which moreover runs with no abort timer pending. *)
Lemma failed_status_check_keeps_online :
  let s := run [SettleStatus 3 (Some (Sample.ok_with true)); Body 3; Tick 6]
             Sample.page_a in
  isOnline (st s) = true
  ∧ jobs s !! 7 = Some ConnectionFetch
  ∧ timeouts s = ∅
  ∧ isOnline (st (step (SettleStatus 7 (Some Sample.not_ok)) s)) = true.
Proof. vm_compute. repeat split. Qed.

(** C8, as amended.  [checkOpenClaw] issues its request under an abort timer
    of 5000 ms.  For a status request of either kind: a rejected request
    sets the online flag to false and the call returns; a response that is
    not ok leaves the store untouched; an ok response sets the flag to the
    reported value, or to false when the body cannot be read.  When the
    abort timer fires while the request of [checkOpenClaw] is pending, the
    flag is set to false. *)
Theorem connectivity_check_outcomes (s : state) (j : nat) :
  (∃ h, jobs s !! j = Some (CheckFetch h)) ∨ jobs s !! j = Some ConnectionFetch →
  (isOnline (st (settle_status j None s)) = false
   ∧ jobs (settle_status j None s) !! j = None)
  ∧ (∀ r, ok r = false → st (settle_status j (Some r) s) = st s)
  ∧ (∀ r, ok r = true →
       isOnline (st (body j (settle_status j (Some r) s))) = default false (json r))
  ∧ (∀ h, jobs s !! j = Some (CheckFetch h) → timeouts s !! h = Some j →
       isOnline (st (abort h s)) = false)
  ∧ (let s' := checkOpenClaw s in
     trace s' = (trace s ++ [SetTimeout (next s) 5000%Z;
                             Fetch "/api/openclaw/status" true])%list
     ∧ timeouts s' !! next s = Some (S (next s))
     ∧ jobs s' !! S (next s) = Some (CheckFetch (next s))).
Proof.
  intros Hj. split; [|split; [|split; [|split]]].
  - unfold settle_status. destruct Hj as [[h Hj]|Hj]; rewrite Hj; simpl;
      by rewrite lookup_delete_eq.
  - intros r Hr. unfold settle_status.
    destruct Hj as [[h Hj]|Hj]; rewrite Hj, Hr; done.
  - intros r Hr. unfold settle_status, body, status_result.
    destruct Hj as [[h Hj]|Hj]; rewrite Hj, Hr; simpl;
      rewrite lookup_insert_eq; by destruct (json r).
  - intros h Hc Ht. unfold abort. rewrite Ht. simpl. by rewrite Hc.
  - simpl. rewrite <- app_assoc. split; [done|].
    split; [by rewrite lookup_insert_eq|by rewrite lookup_insert_eq].
Qed.

(** On the sample page the initial check is call 3 under abort timer 2: the
    timer firing sets the flag to false. *)
Lemma connectivity_check_outcomes_witness :
  jobs Sample.page_a !! 3 = Some (CheckFetch 2)
  ∧ timeouts Sample.page_a !! 2 = Some 3
  ∧ isOnline (st (abort 2 Sample.page_a)) = false.
Proof.
  split; [reflexivity|]. split; [reflexivity|].
  destruct (connectivity_check_outcomes Sample.page_a 3) as (_ & _ & _ & H & _);
    [left; by exists 2|].
  apply H; reflexivity.
Defined.

End WorkspacePageFacts.

(** ** Refresh, load and teardown across the two components *)

Module SyncFacts.

(** C6. Teardown of the sync coordinator leaves no polling timer active and
    no event-stream connection open.  On the dashboard the cleanups of a
    mounted component clear the poll timer and close the event source; a
    change of workspace runs them before the effects start again; and after
    an unmount nothing is active whatever happens later: every timer that
    was ever started has been cleared and every event source that was ever
    opened has been closed.  On the workspace page the cleanup clears the
    three interval timers the effect started, before the effect runs again
    and on unmount, after which every interval timer ever started has been
    cleared. *)
Theorem teardown_leaves_nothing_active :
  (∀ s ws flag,
     Dashboard.reachable s → Dashboard.life s = Dashboard.Live ws flag →
     (Dashboard.intervals (Dashboard.teardown flag s) = ∅
      ∧ Dashboard.sources (Dashboard.teardown flag s) = ∅)
     ∧ (∀ ws', ws' ≠ ws →
          Dashboard.step (Dashboard.Rerender ws') s
          = Dashboard.setup ws' (Dashboard.teardown flag s))
     ∧ (∀ evs,
          let s' := Dashboard.run (Dashboard.Unmount :: evs) s in
          Dashboard.intervals s' = ∅ ∧ Dashboard.sources s' = ∅
          ∧ (∀ h ms, Dashboard.SetInterval h ms ∈ Dashboard.trace s' →
                     Dashboard.ClearInterval h ∈ Dashboard.trace s')
          ∧ (∀ url h, Dashboard.OpenEventSource url h ∈ Dashboard.trace s' →
                      Dashboard.CloseEventSource h ∈ Dashboard.trace s')))
  ∧ (∀ s,
       WorkspacePage.reachable s → WorkspacePage.alive s = true →
       WorkspacePage.intervals (WorkspacePage.teardown s) = ∅
       ∧ (∀ w, WorkspacePage.step (WorkspacePage.SetWorkspace w) s
               = WorkspacePage.effect w (WorkspacePage.teardown s))
       ∧ (∀ evs,
            let s' := WorkspacePage.run (WorkspacePage.Unmount :: evs) s in
            WorkspacePage.intervals s' = ∅
            ∧ ∀ h ms, WorkspacePage.SetInterval h ms ∈ WorkspacePage.trace s' →
                      WorkspacePage.ClearInterval h ∈ WorkspacePage.trace s')).
Proof.
  split.
  - intros s ws flag Hr Hl.
    pose proof (DashboardFacts.reachable_accounted s Hr) as Hacc.
    apply DashboardFacts.reachable_inv in Hr.
    destruct (DashboardFacts.teardown_inv flag s Hr) as (Hi & Ht & Hs).
    split; [done|]. split.
    + intros ws' Hne. simpl. rewrite Hl. by destruct (decide (ws = ws')).
    + intros evs s'.
      assert (Dashboard.intervals s' = ∅ ∧ Dashboard.sources s' = ∅) as [Ei Es].
      { unfold s'. simpl. rewrite Hl. apply DashboardFacts.gone_idle.
        - apply DashboardFacts.run_inv. destruct Hi as [H1 H2 H3 H4]. by split.
        - by apply DashboardFacts.run_gone. }
      destruct (DashboardFacts.run_accounted (Dashboard.Unmount :: evs) s Hacc)
        as [Hti Hso].
      fold s' in Hti, Hso. rewrite Ei in Hti. rewrite Es in Hso.
      split; [done|]. split; [done|]. split.
      * intros h ms Hin. destruct (Hti h ms Hin) as [H|H]; [|done].
        rewrite dom_empty_L in H. by apply not_elem_of_empty in H.
      * intros url h Hin. destruct (Hso url h Hin) as [H|H]; [|done].
        rewrite dom_empty_L in H. by apply not_elem_of_empty in H.
  - intros s Hr Ha.
    pose proof (WorkspacePageFacts.page_reachable_accounted s Hr) as Hacc.
    apply WorkspacePageFacts.page_reachable_inv in Hr.
    destruct (WorkspacePageFacts.page_teardown_inv s Hr) as (Hi & Ht & Hc & Ha').
    split; [done|]. split.
    + intros w. simpl. by rewrite Ha.
    + intros evs s'.
      assert (WorkspacePage.intervals s' = ∅) as Ei.
      { unfold s'. simpl. rewrite Ha. apply WorkspacePageFacts.gone_no_timers.
        - apply WorkspacePageFacts.page_run_inv. destruct Hi as [H1 H2]. by split.
        - by apply WorkspacePageFacts.page_run_gone. }
      pose proof (WorkspacePageFacts.page_run_accounted
                    (WorkspacePage.Unmount :: evs) s Hacc) as Hti.
      fold s' in Hti. unfold WorkspacePage.accounted in Hti. rewrite Ei in Hti.
      split; [done|].
      intros h ms Hin. destruct (Hti h ms Hin) as [H|H]; [|done].
      rewrite dom_empty_L in H. by apply not_elem_of_empty in H.
Qed.

(** On the samples: unmounting either component, then letting a stale timer
    tick, leaves nothing active. *)
Lemma teardown_leaves_nothing_active_witness :
  Dashboard.life Sample.dash_a = Dashboard.Live (Some "A") 1
  ∧ Dashboard.intervals
      (Dashboard.run [Dashboard.Unmount; Dashboard.Tick 4] Sample.dash_a) = ∅
  ∧ Dashboard.sources
      (Dashboard.run [Dashboard.Unmount; Dashboard.Tick 4] Sample.dash_a) = ∅
  ∧ WorkspacePage.intervals
      (WorkspacePage.run [WorkspacePage.Unmount; WorkspacePage.Tick 5] Sample.page_a) = ∅.
Proof.
  destruct teardown_leaves_nothing_active as [Hd Hp].
  split; [reflexivity|].
  destruct (Hd Sample.dash_a (Some "A") 1) as (_ & _ & Hu);
    [by exists [Dashboard.Mount (Some "A")]|reflexivity|].
  destruct (Hu [Dashboard.Tick 4]) as (Hi & Hs & _).
  split; [exact Hi|]. split; [exact Hs|].
  destruct (Hp Sample.page_a) as (_ & _ & Hv);
    [by exists Sample.empty_store,
               [WorkspacePage.SetWorkspace (Some Sample.workspace_a)]|reflexivity|].
  apply (Hv [WorkspacePage.Tick 5]).
Defined.

(** *** Refresh and load: which collections are replaced *)

(** The agents request is rejected while the tasks and events requests come
    back ok: [Promise.all] rejects and neither tasks nor events is
    replaced. *)
Lemma rejected_fetch_blocks_the_other_collections :
  let s := Sample.dash_refreshing in
  let s' := Dashboard.complete 5 None (Some (Sample.ok_with [Sample.build]))
              (Some (Sample.ok_with [Sample.joined])) s in
  Dashboard.jobs s !! 5
    = Some (Dashboard.mkJob Dashboard.Refresh (Some "A") Dashboard.AwaitAll)
  ∧ Dashboard.tasks s' = Dashboard.tasks s ∧ Dashboard.tasks s' ≠ [Sample.build]
  ∧ Dashboard.events s' = Dashboard.events s ∧ Dashboard.events s' ≠ [Sample.joined].
Proof. vm_compute. repeat split; discriminate. Qed.

(** C4, as amended.  When the three requests of a refresh (dashboard) or of
    the page's [loadData] all come back with a response, and the bodies of
    the ok responses can be read, each collection is replaced by its body if
    its own response is ok and keeps its value otherwise, and the call
    returns.  When one of the requests is rejected none of the three
    collections is replaced; the error is logged and the call returns. *)
Theorem fetch_results_update_collections :
  (∀ s j ws ra rt re,
     Dashboard.jobs s !! j
       = Some (Dashboard.mkJob Dashboard.Refresh ws Dashboard.AwaitAll) →
     (ok ra = true → is_Some (json ra)) → (ok rt = true → is_Some (json rt)) →
     (ok re = true → is_Some (json re)) →
     let s' := Dashboard.complete j (Some ra) (Some rt) (Some re) s in
     Dashboard.agents s'
       = (if ok ra then default (Dashboard.agents s) (json ra) else Dashboard.agents s)
     ∧ Dashboard.tasks s'
       = (if ok rt then default (Dashboard.tasks s) (json rt) else Dashboard.tasks s)
     ∧ Dashboard.events s'
       = (if ok re then default (Dashboard.events s) (json re) else Dashboard.events s)
     ∧ Dashboard.jobs s' !! j = None)
  ∧ (∀ s j ws fa ft fe,
       Dashboard.jobs s !! j
         = Some (Dashboard.mkJob Dashboard.Refresh ws Dashboard.AwaitAll) →
       promise_all fa ft fe = Rejected →
       let s' := Dashboard.complete j fa ft fe s in
       Dashboard.agents s' = Dashboard.agents s
       ∧ Dashboard.tasks s' = Dashboard.tasks s
       ∧ Dashboard.events s' = Dashboard.events s
       ∧ Dashboard.jobs s' !! j = None
       ∧ Dashboard.trace s'
         = (Dashboard.trace s
              ++ [Dashboard.ConsoleError "Failed to refresh activity dashboard data:"])%list)
  ∧ (∀ s j ra rt re,
       WorkspacePage.jobs s !! j = Some WorkspacePage.LoadAll →
       (ok ra = true → is_Some (json ra)) → (ok rt = true → is_Some (json rt)) →
       (ok re = true → is_Some (json re)) →
       let s' := WorkspacePage.complete j (Some ra) (Some rt) (Some re) s in
       let old := WorkspacePage.st s in
       let new := WorkspacePage.st s' in
       WorkspacePage.agents new
         = (if ok ra then default (WorkspacePage.agents old) (json ra)
            else WorkspacePage.agents old)
       ∧ WorkspacePage.tasks new
         = (if ok rt then default (WorkspacePage.tasks old) (json rt)
            else WorkspacePage.tasks old)
       ∧ WorkspacePage.events new
         = (if ok re then default (WorkspacePage.events old) (json re)
            else WorkspacePage.events old)
       ∧ WorkspacePage.jobs s' !! j = None)
  ∧ (∀ s j fa ft fe,
       WorkspacePage.jobs s !! j = Some WorkspacePage.LoadAll →
       promise_all fa ft fe = Rejected →
       let s' := WorkspacePage.complete j fa ft fe s in
       let old := WorkspacePage.st s in
       let new := WorkspacePage.st s' in
       WorkspacePage.agents new = WorkspacePage.agents old
       ∧ WorkspacePage.tasks new = WorkspacePage.tasks old
       ∧ WorkspacePage.events new = WorkspacePage.events old
       ∧ WorkspacePage.jobs s' !! j = None
       ∧ WorkspacePage.trace s'
         = (WorkspacePage.trace s
              ++ [WorkspacePage.ConsoleError "Failed to load data:";
                  WorkspacePage.SetIsLoading false])%list).
Proof.
  split; [|split; [|split]].
  - intros s j ws ra rt re. apply DashboardFacts.refresh_fulfilled.
  - intros s j ws fa ft fe. apply DashboardFacts.refresh_rejected.
  - intros s j ra rt re. apply WorkspacePageFacts.page_load_fulfilled.
  - intros s j fa ft fe. apply WorkspacePageFacts.page_load_rejected.
Qed.

(** On the sample dashboard the agents response of refresh 5 is not ok while
    the other two are: agents keeps its value, tasks and events are
    replaced. *)
Lemma fetch_results_update_collections_witness :
  let s' := Dashboard.complete 5 (Some Sample.not_ok)
              (Some (Sample.ok_with [Sample.build]))
              (Some (Sample.ok_with [Sample.joined])) Sample.dash_refreshing in
  Dashboard.agents s' = Dashboard.agents Sample.dash_refreshing
  ∧ Dashboard.tasks s' = [Sample.build]
  ∧ Dashboard.events s' = [Sample.joined].
Proof.
  destruct fetch_results_update_collections as [H _].
  destruct (H Sample.dash_refreshing 5 (Some "A") Sample.not_ok
              (Sample.ok_with [Sample.build]) (Sample.ok_with [Sample.joined]))
    as (Ha & Ht & He & _);
    [reflexivity|discriminate|by eexists|by eexists|].
  split; [exact Ha|]. split; [exact Ht|exact He].
Defined.

(** *** Late results *)

(** C5 on the code.  The dashboard is mounted on workspace A, a data line
    starts refresh 5, and the workspace changes to B while the requests of
    [loadData] 2 and refresh 5 are in flight.  The late responses of
    [loadData] are ignored, those of the refresh replace all three
    collections of the component that now shows B.  [loadData] itself reads
    its guard once: when the workspace changes while it reads the body of
    the agents response, the agents of A are written as well. *)
Theorem stale_refresh_overwrites_new_scope :
  let switched :=
    Dashboard.run [Dashboard.Mount (Some "A"); Dashboard.SseMessage 3 "task_updated";
                   Dashboard.Rerender (Some "B")] Dashboard.init in
  let guarded :=
    Dashboard.complete 2 Sample.agents_of_a Sample.tasks_of_a Sample.events_of_a
      switched in
  let late :=
    Dashboard.complete 5 Sample.agents_of_a Sample.tasks_of_a Sample.events_of_a
      switched in
  let half_read :=
    Dashboard.run
      [Dashboard.Mount (Some "A");
       Dashboard.Settle 2 Sample.agents_of_a Sample.tasks_of_a Sample.events_of_a;
       Dashboard.Rerender (Some "B"); Dashboard.Body 2] Dashboard.init in
  Dashboard.life switched = Dashboard.Live (Some "B") 6
  ∧ Dashboard.jobs switched !! 2
    = Some (Dashboard.mkJob (Dashboard.LoadData 1) (Some "A") Dashboard.AwaitAll)
  ∧ Dashboard.jobs switched !! 5
    = Some (Dashboard.mkJob Dashboard.Refresh (Some "A") Dashboard.AwaitAll)
  ∧ (Dashboard.agents switched, Dashboard.tasks switched, Dashboard.events switched)
    = ([], [], [])
  ∧ (Dashboard.agents guarded, Dashboard.tasks guarded, Dashboard.events guarded)
    = ([], [], [])
  ∧ (Dashboard.agents late, Dashboard.tasks late, Dashboard.events late)
    = ([Sample.alice], [Sample.build], [Sample.joined])
  ∧ Dashboard.life half_read = Dashboard.Live (Some "B") 5
  ∧ Dashboard.agents half_read = [Sample.alice].
Proof. vm_compute. repeat split. Qed.

(** *** The window of the events requests *)

(** C7 on the code.  The page's [loadData] requests "/api/events", which
    carries no limit; the dashboard's requests and the page's event poller
    carry one. *)
Theorem page_load_requests_events_without_limit :
  (∀ workspaceId s,
     WorkspacePage.trace (WorkspacePage.loadData workspaceId s)
     = (WorkspacePage.trace s
          ++ [WorkspacePage.DebugApi "Loading workspace data...";
              WorkspacePage.Fetch ("/api/agents?workspace_id=" ++ workspaceId) false;
              WorkspacePage.Fetch ("/api/tasks?workspace_id=" ++ workspaceId) false;
              WorkspacePage.Fetch "/api/events" false])%list)
  ∧ limit_of "/api/events" = None
  ∧ limit_of Dashboard.events_url = Some "150"
  ∧ limit_of WorkspacePage.poll_events_url = Some "20".
Proof.
  split; [|by vm_compute].
  intros workspaceId s. simpl. by rewrite <- !app_assoc.
Qed.

End SyncFacts.

(** ** Derived views of the dashboard *)

Module ViewFacts.
Import Views.

Section TimelineFacts.

Variable event_agent_id : Event → option string.

Lemma group_events_lookup (events : list Event) (m : gmap string (list Event))
    (id : string) :
  foldl (group_event event_agent_id) m events !! id
  = match List.filter (refers_to event_agent_id id) events with
    | [] => m !! id
    | own => Some (default [] (m !! id) ++ own)%list
    end.
Proof.
  revert m. induction events as [|e events IH]; intros m; simpl; [done|].
  rewrite IH. unfold group_event, refers_to.
  destruct (event_agent_id e) as [k|] eqn:Hk; simpl; [|done].
  destruct (String.eqb k "") eqn:Hempty; simpl; [done|].
  destruct (String.eqb k id) eqn:Hid; simpl.
  - apply eqb_string_true in Hid. subst k. rewrite lookup_insert_eq. simpl.
    destruct (List.filter _ events); simpl; [done|]. by rewrite <- app_assoc.
  - apply eqb_string_false in Hid. by rewrite lookup_insert_ne.
Qed.

(** X1.  The group of an id holds the events that refer to it, in the order of
    the feed; an id no event refers to has no group, so no group is empty,
    and the events without a reference are in no group. *)
Theorem eventsByAgent_groups (events : list Event) (id : string) :
  eventsByAgent event_agent_id events !! id
  = match List.filter (refers_to event_agent_id id) events with
    | [] => None
    | own => Some own
    end.
Proof.
  unfold eventsByAgent. rewrite group_events_lookup, lookup_empty.
  by destruct (List.filter _ events).
Qed.

(** X2.  The timeline of an agent is the first five events of the feed that refer
    to it. *)
Theorem agentTimeline_first_five (events : list Event) (agent : Agent) :
  agentTimeline event_agent_id events agent
  = take 5 (List.filter (refers_to event_agent_id (agent_id agent)) events).
Proof.
  unfold agentTimeline, eventsByAgent. rewrite group_events_lookup, lookup_empty.
  by destruct (List.filter _ events).
Qed.

End TimelineFacts.

(** *** Now working *)

Lemma is_current_task_true (agent : Agent) (task : Task) :
  is_current_task agent task = true ↔
  assigned_to agent task
  ∧ (task_status task = "in_progress" ∨ task_status task = "assigned"
     ∨ task_status task = "testing").
Proof.
  unfold is_current_task, assigned_to.
  rewrite andb_true_iff, !orb_true_iff, strict_eq_true, !eqb_string_true. tauto.
Qed.

Lemma nowWorking_row_task (agents : list Agent) (tasks : list Task)
    (agent : Agent) (task : Task) :
  (agent, Some task) ∈ nowWorking agents tasks →
  agent ∈ agents ∧ agent_status agent = "working" ∧ task ∈ tasks
  ∧ assigned_to agent task
  ∧ (task_status task = "in_progress" ∨ task_status task = "assigned"
     ∨ task_status task = "testing").
Proof.
  unfold nowWorking. intros Hin. apply list_elem_of_fmap in Hin as (a & Heq & Ha).
  injection Heq as -> Hf. symmetry in Hf.
  apply list_elem_of_In, filter_In in Ha as [Ha Hw].
  apply eqb_string_true in Hw. apply list_elem_of_In in Ha.
  apply find_some in Hf as [Ht Hc]. apply is_current_task_true in Hc as [H1 H2].
  by rewrite <- list_elem_of_In in Ht.
Qed.

(** X3.  The rows of "Now Working" are the working agents in the order of the
    collection, as many as the "Working" card counts; a row's task is a
    task of the collection assigned to the agent and in progress, assigned
    or in testing, and a row has no task only when no task qualifies. *)
Theorem nowWorking_rows (agents : list Agent) (tasks : list Task) :
  (fst <$> nowWorking agents tasks) = List.filter is_working agents
  ∧ length (nowWorking agents tasks) = metric_working agents
  ∧ (∀ agent task, (agent, Some task) ∈ nowWorking agents tasks →
       agent_status agent = "working" ∧ task ∈ tasks ∧ assigned_to agent task
       ∧ (task_status task = "in_progress" ∨ task_status task = "assigned"
          ∨ task_status task = "testing"))
  ∧ (∀ agent, (agent, None) ∈ nowWorking agents tasks →
       ∀ task, task ∈ tasks → assigned_to agent task →
       ¬ (task_status task = "in_progress" ∨ task_status task = "assigned"
          ∨ task_status task = "testing")).
Proof.
  unfold nowWorking, metric_working. split; [|split; [|split]].
  - rewrite <- list_fmap_compose. apply list_fmap_id.
  - apply length_map.
  - intros agent task Hin.
    by destruct (nowWorking_row_task agents tasks agent task Hin) as (_ & ? & ? & ? & ?).
  - intros agent Hin task Ht Has Hst.
    apply list_elem_of_fmap in Hin as (a & Heq & Ha).
    injection Heq as -> Hf. symmetry in Hf.
    apply list_elem_of_In in Ht.
    pose proof (find_none _ _ Hf task Ht) as Hc.
    assert (is_current_task a task = true) as Hc' by by apply is_current_task_true.
    congruence.
Qed.

(** X4.  A working agent whose current task is in testing is shown under the
    "blocked" filter as well. *)
Theorem working_on_testing_is_blocked (agents : list Agent) (tasks : list Task)
    (agent : Agent) (task : Task) :
  (agent, Some task) ∈ nowWorking agents tasks →
  task_status task = "testing" → agent_id agent ≠ "" →
  agent ∈ filteredAgents FilterBlocked agents tasks.
Proof.
  intros Hrow Hst Hid.
  destruct (nowWorking_row_task agents tasks agent task Hrow) as (Ha & _ & Ht & Has & _).
  unfold filteredAgents. apply list_elem_of_In, filter_In.
  split; [by apply list_elem_of_In|].
  apply bool_decide_eq_true, blockedAgentIds_elem. left. split; [done|].
  exists task. auto.
Qed.

(** *** The filter tabs *)

(** X5.  When every status is one of the three known ones, the "working" and
    "idle" tabs split the collection: each agent is under exactly one of
    them; "all" shows the collection as it is. *)
Theorem working_and_idle_split_the_agents (agents : list Agent) (tasks : list Task) :
  (∀ a, a ∈ agents → agent_status a = "working" ∨ agent_status a = "standby"
                     ∨ agent_status a = "offline") →
  filteredAgents FilterAll agents tasks = agents
  ∧ (filteredAgents FilterWorking agents tasks
       ++ filteredAgents FilterIdle agents tasks)%list ≡ₚ agents
  ∧ ∀ a, ¬ (a ∈ filteredAgents FilterWorking agents tasks
            ∧ a ∈ filteredAgents FilterIdle agents tasks).
Proof.
  intros Hst. unfold filteredAgents. split; [|split].
  - clear Hst. induction agents as [|a agents IH]; simpl; [done|]. by rewrite IH.
  - induction agents as [|a agents IH]; simpl; [done|].
    assert (∀ b, b ∈ agents → agent_status b = "working" ∨ agent_status b = "standby"
                               ∨ agent_status b = "offline") as Hst'
      by (intros b Hb; apply Hst; by right).
    specialize (IH Hst').
    destruct (Hst a) as [H|[H|H]]; [by left|..]; rewrite H; simpl.
    + by rewrite IH.
    + rewrite <- Permutation_middle. by rewrite IH.
    + rewrite <- Permutation_middle. by rewrite IH.
  - intros a [Hw Hi].
    apply list_elem_of_In, filter_In in Hw as [_ Hw].
    apply list_elem_of_In, filter_In in Hi as [_ Hi].
    apply eqb_string_true in Hw. rewrite Hw in Hi. done.
Qed.

Lemma NoDup_filter_ids (P : Agent → bool) (agents : list Agent) :
  NoDup (agent_id <$> agents) → NoDup (agent_id <$> List.filter P agents).
Proof.
  induction agents as [|a agents IH]; simpl; [done|].
  intros Hnd. apply NoDup_cons in Hnd as [Ha Hnd].
  destruct (P a); simpl; [|by apply IH].
  apply NoDup_cons. split; [|by apply IH].
  intros Hin. apply Ha.
  apply list_elem_of_fmap in Hin as (b & -> & Hb).
  apply list_elem_of_In, filter_In in Hb as [Hb _].
  apply list_elem_of_fmap. exists b. split; [done|]. by apply list_elem_of_In.
Qed.

(** X6.  With distinct agent ids, the "blocked" tab never shows more agents than
    the "Blocked" card counts, and shows as many when every blocked id is
    the id of an agent of the collection; the card also counts the assignees
    of tasks in testing or review that are not in the collection. *)
Theorem blocked_tab_within_blocked_metric (agents : list Agent) (tasks : list Task) :
  NoDup (agent_id <$> agents) →
  (length (filteredAgents FilterBlocked agents tasks) ≤ metric_blocked agents tasks)%nat
  ∧ ((∀ id, id ∈ blockedAgentIds agents tasks → ∃ a, a ∈ agents ∧ agent_id a = id) →
     length (filteredAgents FilterBlocked agents tasks) = metric_blocked agents tasks).
Proof.
  intros Hnd. unfold metric_blocked.
  set (shown := filteredAgents FilterBlocked agents tasks).
  assert (NoDup (agent_id <$> shown)) as Hnd' by by apply NoDup_filter_ids.
  assert (length shown = size (list_to_set (agent_id <$> shown) : gset string)) as ->.
  { rewrite size_list_to_set by done. by rewrite length_fmap. }
  assert ((list_to_set (agent_id <$> shown) : gset string)
          ⊆ blockedAgentIds agents tasks) as Hsub.
  { intros id Hid. apply elem_of_list_to_set, list_elem_of_fmap in Hid as (a & -> & Ha).
    apply list_elem_of_In, filter_In in Ha as [_ Hb].
    by apply bool_decide_eq_true in Hb. }
  split; [by apply subseteq_size|].
  intros Hall. f_equal. apply set_eq. intros id. split; [apply Hsub|].
  intros Hid. destruct (Hall id Hid) as (a & Ha & <-).
  apply elem_of_list_to_set, list_elem_of_fmap. exists a. split; [done|].
  apply list_elem_of_In, filter_In. split; [by apply list_elem_of_In|].
  by apply bool_decide_eq_true.
Qed.

End ViewFacts.

(** ** The dashboard: fallback and scope *)

Module DashboardMoreFacts.
Import Dashboard DashboardInvariants.

Lemma settle_sseConnected j fa ft fe s :
  sseConnected (settle j fa ft fe s) = sseConnected s.
Proof.
  unfold settle, fail, agents_line, tasks_line, events_line, finish, suspend,
    setLoading, is_mounted, emit.
  by cases.
Qed.

Lemma body_sseConnected j s : sseConnected (body j s) = sseConnected s.
Proof.
  unfold body, fail, tasks_line, events_line, finish, suspend, setAgents, setTasks,
    setEvents, setLoading, is_mounted, emit.
  by cases.
Qed.

Lemma startPolling_running ws s : ∃ t, pollingIntervalRef (startPolling ws s) = Some t.
Proof.
  unfold startPolling. destruct (pollingIntervalRef s) as [t|] eqn:Hp; simpl; eauto.
Qed.

Lemma startPolling_frame ws s :
  life (startPolling ws s) = life s ∧ sources (startPolling ws s) = sources s
  ∧ eventSourceRef (startPolling ws s) = eventSourceRef s
  ∧ sseConnected (startPolling ws s) = sseConnected s.
Proof. unfold startPolling. by destruct (pollingIntervalRef s). Qed.

Lemma stopPolling_frame s :
  life (stopPolling s) = life s ∧ sources (stopPolling s) = sources s
  ∧ eventSourceRef (stopPolling s) = eventSourceRef s
  ∧ sseConnected (stopPolling s) = sseConnected s.
Proof. unfold stopPolling. by destruct (pollingIntervalRef s). Qed.

Lemma setup_life ws s : life (setup ws s) = Live ws (next s).
Proof.
  unfold setup, sync_effect.
  destruct (startPolling_frame ws (connectSSE ws (load_effect ws s))) as (-> & _).
  done.
Qed.

Lemma covered_running s : (∃ t, pollingIntervalRef s = Some t) → covered s.
Proof.
  intros [t Ht]. unfold covered. destruct (life s); [done| |done]. by rewrite Ht.
Qed.

Lemma covered_step e s : inv s → covered s → covered (step e s).
Proof.
  intros Hi Hc. destruct e as [ws|ws| |h|h data|h|t|j fa ft fe|j]; simpl.
  - destruct (life s); [|done|done]. apply covered_running, startPolling_running.
  - destruct (life s) as [|old flag|]; [done| |done].
    destruct (decide (old = ws)); [done|].
    apply covered_running, startPolling_running.
  - destruct (life s) as [|old flag|]; [done| |done]. by unfold covered.
  - destruct (sources s !! h) as [w|] eqn:Hs; [|done].
    pose proof (DashboardFacts.open_source_is_current h w s Hi Hs) as Hr.
    unfold onopen.
    destruct (stopPolling_frame (setSseConnected true s)) as (El & Es & Ee & Ec).
    unfold covered. rewrite El, Es, Ee, Ec. simpl.
    destruct (life s); [done| |done]. intros _. split; [done|].
    exists h. split; [done|]. by rewrite Hs.
  - destruct (sources s !! h) as [w|]; [|done]. unfold onmessage.
    by destruct (String.prefix ":" data).
  - destruct (sources s !! h) as [w|]; [|done].
    apply covered_running, startPolling_running.
  - by destruct (intervals s !! t).
  - destruct (DashboardFacts.settle_channels j fa ft fe s) as (_ & Es & Ee & Ep & El & _).
    unfold covered. by rewrite El, Es, Ee, Ep, settle_sseConnected.
  - destruct (DashboardFacts.body_channels j s) as (_ & Es & Ee & Ep & El & _).
    unfold covered. by rewrite El, Es, Ee, Ep, body_sseConnected.
Qed.

Lemma covered_reachable s : reachable s → covered s.
Proof.
  intros [evs ->].
  assert (∀ s0, inv s0 → covered s0 → covered (run evs s0)) as H.
  { induction evs as [|e evs IH]; intros s0 Hi Hc; simpl; [done|].
    apply IH; [by apply DashboardFacts.step_inv|by apply covered_step]. }
  apply H; [apply DashboardFacts.inv_init|done].
Qed.

Lemma startPolling_scope ws s :
  (∀ t w, intervals s !! t = Some w → w = ws) →
  ∀ t w, intervals (startPolling ws s) !! t = Some w → w = ws.
Proof.
  intros Hs t w. unfold startPolling.
  destruct (pollingIntervalRef s); simpl; [apply Hs|].
  rewrite lookup_insert. case_decide; [congruence|apply Hs].
Qed.

Lemma stopPolling_scope ws s :
  (∀ t w, intervals s !! t = Some w → w = ws) →
  ∀ t w, intervals (stopPolling s) !! t = Some w → w = ws.
Proof.
  intros Hs t w. unfold stopPolling.
  destruct (pollingIntervalRef s) as [t0|]; simpl; [|apply Hs].
  rewrite lookup_delete. case_decide; [done|apply Hs].
Qed.

Lemma setup_scoped ws s :
  intervals s = ∅ → sources s = ∅ → scoped (setup ws s).
Proof.
  intros Ei Es ws' flag Hl. rewrite setup_life in Hl. injection Hl as <- _.
  unfold setup, sync_effect. split.
  - apply startPolling_scope. intros t w. simpl. by rewrite Ei, lookup_empty.
  - destruct (startPolling_frame ws (connectSSE ws (load_effect ws s)))
      as (_ & -> & _).
    intros h w. simpl. rewrite Es, lookup_insert.
    case_decide; [congruence|by rewrite lookup_empty].
Qed.

Lemma scoped_step e s : inv s → scoped s → scoped (step e s).
Proof.
  intros Hi Hc. destruct e as [ws|ws| |h|h data|h|t|j fa ft fe|j]; simpl.
  - destruct (life s) eqn:Hl; [|done|done].
    pose proof (inv_idle s Hi) as Hidle. unfold idle in Hidle. rewrite Hl in Hidle.
    destruct Hidle. by apply setup_scoped.
  - destruct (life s) as [|old flag|] eqn:Hl; [done| |done].
    destruct (decide (old = ws)); [done|].
    destruct (DashboardFacts.teardown_inv flag s Hi) as (_ & Ei & Es).
    by apply setup_scoped.
  - destruct (life s) as [|old flag|]; [done| |done]. by intros ws flag' Hl.
  - destruct (sources s !! h) as [w|]; [|done]. unfold onopen.
    destruct (stopPolling_frame (setSseConnected true s)) as (El & Es & _).
    intros ws flag Hl. rewrite El in Hl. destruct (Hc ws flag Hl) as [H1 H2].
    split; [by apply stopPolling_scope|by rewrite Es].
  - destruct (sources s !! h) as [w|]; [|done]. unfold onmessage.
    by destruct (String.prefix ":" data).
  - destruct (sources s !! h) as [w0|] eqn:Hs; [|done]. unfold onerror.
    set (x := with_eventSourceRef None (close h (setSseConnected false s))).
    destruct (startPolling_frame w0 x) as (El & Es & _).
    intros ws flag Hl. rewrite El in Hl. destruct (Hc ws flag Hl) as [H1 H2].
    assert (w0 = ws) as -> by by apply (H2 h).
    split.
    + by apply startPolling_scope.
    + rewrite Es. intros h' w. unfold x. simpl. rewrite lookup_delete.
      case_decide; [done|apply H2].
  - by destruct (intervals s !! t).
  - destruct (DashboardFacts.settle_channels j fa ft fe s) as (Ei & Es & _ & _ & El & _).
    intros ws flag Hl. rewrite El in Hl. rewrite Ei, Es. by apply (Hc ws flag).
  - destruct (DashboardFacts.body_channels j s) as (Ei & Es & _ & _ & El & _).
    intros ws flag Hl. rewrite El in Hl. rewrite Ei, Es. by apply (Hc ws flag).
Qed.

Lemma scoped_reachable s : reachable s → scoped s.
Proof.
  intros [evs ->].
  assert (∀ s0, inv s0 → scoped s0 → scoped (run evs s0)) as H.
  { induction evs as [|e evs IH]; intros s0 Hi Hc; simpl; [done|].
    apply IH; [by apply DashboardFacts.step_inv|by apply scoped_step]. }
  apply H; [apply DashboardFacts.inv_init|by intros ws flag Hl].
Qed.

(** X7.  While the dashboard is mounted an update source is always active: the
    poll timer runs for the workspace shown, or the event source of that
    workspace is open and the indicator shows the live state. *)
Theorem always_an_update_source (s : state) (ws : scope) (flag : nat) :
  reachable s → life s = Live ws flag →
  (∃ t, pollingIntervalRef s = Some t ∧ intervals s !! t = Some ws)
  ∨ (sseConnected s = true
     ∧ ∃ h, eventSourceRef s = Some h ∧ sources s !! h = Some ws).
Proof.
  intros Hr Hl.
  pose proof (covered_reachable s Hr) as Hc. unfold covered in Hc. rewrite Hl in Hc.
  destruct (scoped_reachable s Hr ws flag Hl) as [Hti Hso].
  pose proof (inv_timers s (DashboardFacts.reachable_inv s Hr)) as Ht.
  destruct (pollingIntervalRef s) as [t|] eqn:Hp.
  - left. exists t. split; [done|]. simpl in Ht.
    assert (t ∈ dom (intervals s)) as Hd by (rewrite Ht; by apply elem_of_singleton).
    apply elem_of_dom in Hd as [w Hw]. by rewrite Hw, (Hti t w Hw).
  - right. destruct (Hc eq_refl) as (Hsse & h & He & [w Hw]).
    split; [done|]. exists h. split; [done|]. by rewrite Hw, (Hso h w Hw).
Qed.

(** X8.  A timer tick or a stream message either changes nothing or starts a
    refresh of the workspace the dashboard shows, never of another one. *)
Theorem refreshes_are_scoped (s : state) (ws : scope) (flag : nat) :
  reachable s → life s = Live ws flag →
  (∀ t, step (Tick t) s = s ∨ step (Tick t) s = refresh ws s)
  ∧ (∀ h data, step (SseMessage h data) s = s
               ∨ step (SseMessage h data) s = refresh ws s).
Proof.
  intros Hr Hl. destruct (scoped_reachable s Hr ws flag Hl) as [Hti Hso]. split.
  - intros t. simpl. destruct (intervals s !! t) as [w|] eqn:Hw; [|by left].
    right. by rewrite (Hti t w Hw).
  - intros h data. simpl. destruct (sources s !! h) as [w|] eqn:Hw; [|by left].
    unfold onmessage. destruct (String.prefix ":" data); [by left|].
    right. by rewrite (Hso h w Hw).
Qed.

(** *** The initial load *)

Lemma mounted_finish j flag jb s :
  j_kind jb = LoadData flag → is_mounted flag s = true → loaded j (finish j jb s).
Proof.
  intros Hk Hm. unfold loaded, finish. rewrite Hk.
  replace (is_mounted flag (with_jobs (delete j (jobs s)) s)) with true by done.
  simpl. by rewrite lookup_delete_eq.
Qed.

Lemma mounted_fail j flag jb s :
  j_kind jb = LoadData flag → is_mounted flag s = true → loaded j (fail j jb s).
Proof. intros Hk Hm. unfold fail. by apply (mounted_finish j flag). Qed.

Lemma loaded_body j s : loaded j s → loaded j (body j s).
Proof. intros [Hl Hj]. by rewrite DashboardFacts.body_returned. Qed.

Lemma mounted_events_line j flag jb re s :
  j_kind jb = LoadData flag → is_mounted flag s = true →
  loaded j (body j (events_line j jb re s)).
Proof.
  intros Hk Hm. unfold events_line. destruct (ok re).
  - rewrite DashboardFacts.body_suspended. simpl.
    destruct (json re);
      [by apply (mounted_finish j flag)|by apply (mounted_fail j flag)].
  - by apply loaded_body, (mounted_finish j flag).
Qed.

Lemma mounted_tasks_line j flag jb rt re s :
  j_kind jb = LoadData flag → is_mounted flag s = true →
  loaded j (body j (body j (tasks_line j jb rt re s))).
Proof.
  intros Hk Hm. unfold tasks_line. destruct (ok rt).
  - rewrite DashboardFacts.body_suspended. simpl. destruct (json rt).
    + by apply (mounted_events_line j flag).
    + by apply loaded_body, (mounted_fail j flag).
  - by apply loaded_body, (mounted_events_line j flag).
Qed.

Lemma mounted_agents_line j flag jb ra rt re s :
  j_kind jb = LoadData flag → is_mounted flag s = true →
  loaded j (body j (body j (body j (agents_line j jb ra rt re s)))).
Proof.
  intros Hk Hm. unfold agents_line. destruct (ok ra).
  - rewrite DashboardFacts.body_suspended. simpl. destruct (json ra).
    + by apply (mounted_tasks_line j flag).
    + by apply loaded_body, loaded_body, (mounted_fail j flag).
  - by apply loaded_body, (mounted_tasks_line j flag).
Qed.

(** X9.  The loading screen of the dashboard goes away whatever the initial load
    brings: when [loadData] runs to its end while its scope is mounted,
    [loading] is false afterwards and the call has returned, for rejected
    requests, responses that are not ok and unreadable bodies alike. *)
Theorem loadData_clears_loading (s : state) (j flag : nat) (ws : scope)
    (fa : option (response (list Agent))) (ft : option (response (list Task)))
    (fe : option (response (list Event))) :
  jobs s !! j = Some (mkJob (LoadData flag) ws AwaitAll) →
  is_mounted flag s = true →
  loading (complete j fa ft fe s) = false ∧ jobs (complete j fa ft fe s) !! j = None.
Proof.
  intros Hj Hm. unfold complete, settle. rewrite Hj. simpl.
  destruct (promise_all fa ft fe) as [|ra rt re].
  - by apply loaded_body, loaded_body, loaded_body, (mounted_fail j flag).
  - rewrite Hm. simpl. by apply (mounted_agents_line j flag).
Qed.

(** *** The guard of the initial load *)

Lemma settle_flags j fa ft fe s :
  mounted (settle j fa ft fe s) = mounted s ∧ life (settle j fa ft fe s) = life s.
Proof.
  unfold settle, fail, agents_line, tasks_line, events_line, finish, suspend,
    setLoading, is_mounted, emit.
  cases; by split.
Qed.

Lemma body_flags j s : mounted (body j s) = mounted s ∧ life (body j s) = life s.
Proof.
  unfold body, fail, tasks_line, events_line, finish, suspend, setAgents, setTasks,
    setEvents, setLoading, is_mounted, emit.
  cases; by split.
Qed.

Lemma startPolling_flags ws s :
  mounted (startPolling ws s) = mounted s ∧ life (startPolling ws s) = life s.
Proof. unfold startPolling. by destruct (pollingIntervalRef s). Qed.

Lemma stopPolling_flags s :
  mounted (stopPolling s) = mounted s ∧ life (stopPolling s) = life s.
Proof. unfold stopPolling. by destruct (pollingIntervalRef s). Qed.

Lemma setup_flags ws s :
  ∃ n, mounted (setup ws s) = <[n := true]> (mounted s) ∧ life (setup ws s) = Live ws n.
Proof.
  exists (next s). unfold setup, sync_effect.
  by destruct (startPolling_flags ws (connectSSE ws (load_effect ws s))) as [-> ->].
Qed.

Lemma teardown_flags flag s :
  mounted (teardown flag s) = <[flag := false]> (mounted s)
  ∧ life (teardown flag s) = life s.
Proof.
  unfold teardown, sync_cleanup.
  match goal with |- context [stopPolling ?x] =>
    destruct (stopPolling_flags x) as [-> ->] end.
  change (eventSourceRef (load_cleanup flag s)) with (eventSourceRef s).
  by destruct (eventSourceRef s).
Qed.

Lemma one_mounted_same s s' :
  mounted s' = mounted s → life s' = life s → one_mounted s → one_mounted s'.
Proof. intros Em El H f. unfold is_mounted. rewrite Em, El. apply H. Qed.

Lemma one_mounted_setup ws s :
  (∀ f, is_mounted f s = false) → one_mounted (setup ws s).
Proof.
  intros Hnone. destruct (setup_flags ws s) as (n & Em & El).
  intros f. unfold is_mounted. rewrite Em, El.
  destruct (decide (n = f)) as [->|Hne]; [by exists ws|].
  rewrite lookup_insert_ne by done. intros Hf.
  specialize (Hnone f). unfold is_mounted in Hnone. congruence.
Qed.

Lemma none_mounted_teardown flag s ws :
  one_mounted s → life s = Live ws flag → ∀ f, is_mounted f (teardown flag s) = false.
Proof.
  intros H Hl f. destruct (teardown_flags flag s) as [Em _].
  unfold is_mounted. rewrite Em.
  destruct (decide (flag = f)) as [->|Hne]; [by rewrite lookup_insert_eq|].
  rewrite lookup_insert_ne by done.
  destruct (mounted s !! f) as [[|]|] eqn:Hf; [|done|done].
  destruct (H f) as [w Hw]; [unfold is_mounted; by rewrite Hf|]. congruence.
Qed.

Lemma one_mounted_step e s : one_mounted s → one_mounted (step e s).
Proof.
  intros H. destruct e as [ws|ws| |h|h data|h|t|j fa ft fe|j]; simpl.
  - destruct (life s) eqn:Hl; [|done|done].
    apply one_mounted_setup. intros f.
    destruct (is_mounted f s) eqn:Hf; [|done].
    destruct (H f Hf) as [w Hw]. congruence.
  - destruct (life s) as [|old flag|] eqn:Hl; [done| |done].
    destruct (decide (old = ws)); [done|].
    apply one_mounted_setup. by apply (none_mounted_teardown flag s old).
  - destruct (life s) as [|old flag|] eqn:Hl; [done| |done].
    intros f Hf.
    pose proof (none_mounted_teardown flag s old H Hl f) as Hn.
    unfold is_mounted in Hf, Hn. simpl in Hf. congruence.
  - destruct (sources s !! h); [|done]. unfold onopen.
    destruct (stopPolling_flags (setSseConnected true s)) as [Em El].
    by apply (one_mounted_same s).
  - destruct (sources s !! h) as [ws|]; [|done]. unfold onmessage.
    destruct (String.prefix ":" data); [done|]. by apply (one_mounted_same s).
  - destruct (sources s !! h) as [ws|]; [|done]. unfold onerror.
    match goal with |- one_mounted (startPolling ws ?x) =>
      destruct (startPolling_flags ws x) as [Em El] end.
    by apply (one_mounted_same s).
  - destruct (intervals s !! t) as [ws|]; [|done]. by apply (one_mounted_same s).
  - destruct (settle_flags j fa ft fe s) as [Em El]. by apply (one_mounted_same s).
  - destruct (body_flags j s) as [Em El]. by apply (one_mounted_same s).
Qed.

Lemma reachable_one_mounted s : reachable s → one_mounted s.
Proof.
  intros [evs ->].
  assert (∀ s0, one_mounted s0 → one_mounted (run evs s0)) as Hrun.
  { induction evs as [|e evs IH]; intros s0 H0; simpl; [done|].
    by apply IH, one_mounted_step. }
  apply Hrun. intros f Hf. discriminate Hf.
Qed.

Lemma tasks_line_agents j jb rt re s : agents (tasks_line j jb rt re s) = agents s.
Proof.
  unfold tasks_line, events_line, finish, suspend, setLoading, is_mounted, emit.
  cases; reflexivity.
Qed.

(** X10.  The guard of the initial load is read once, when its three
    requests settle.  A [loadData] call that is still waiting for them when
    its scope is no longer the current one (the workspace has changed or the
    component was unmounted) writes nothing when they settle, whatever they
    bring, and [loading] is left alone.  A call that has passed the guard is
    not stopped by it any more: suspended on the body of the agents
    response, it writes the agents it reads, also when its scope is no
    longer the current one. *)
Theorem stale_load_is_dropped (s : state) (j flag : nat) (ws : scope) :
  reachable s →
  (∀ w, life s ≠ Live w flag) →
  (∀ fa ft fe,
     jobs s !! j = Some (mkJob (LoadData flag) ws AwaitAll) →
     let s' := complete j fa ft fe s in
     agents s' = agents s ∧ tasks s' = tasks s ∧ events s' = events s
     ∧ loading s' = loading s)
  ∧ (∀ ra rt re v,
       jobs s !! j = Some (mkJob (LoadData flag) ws (AwaitAgents ra rt re)) →
       json ra = Some v →
       agents (body j s) = v).
Proof.
  intros Hr Hstale. split.
  - intros fa ft fe Hj.
    apply (DashboardFacts.loadData_unmounted s j flag ws fa ft fe Hj).
    destruct (is_mounted flag s) eqn:Hm; [|done].
    destruct (reachable_one_mounted s Hr flag Hm) as [w Hw]. by destruct (Hstale w).
  - intros ra rt re v Hj Hv. unfold body. rewrite Hj. cbn [j_phase]. rewrite Hv.
    by rewrite tasks_line_agents.
Qed.

(** *** Overlapping refreshes *)

Lemma settle_other j k fa ft fe s :
  k ≠ j → jobs (settle j fa ft fe s) !! k = jobs s !! k.
Proof.
  intros Hne.
  unfold settle, fail, agents_line, tasks_line, events_line, finish, suspend,
    setLoading, is_mounted, emit.
  cases; rewrite ?lookup_insert_ne, ?lookup_delete_ne by done; done.
Qed.

Lemma body_other j k s : k ≠ j → jobs (body j s) !! k = jobs s !! k.
Proof.
  intros Hne.
  unfold body, fail, tasks_line, events_line, finish, suspend, setAgents, setTasks,
    setEvents, setLoading, is_mounted, emit.
  cases; rewrite ?lookup_insert_ne, ?lookup_delete_ne by done; done.
Qed.

Lemma complete_other j k fa ft fe s :
  k ≠ j → jobs (complete j fa ft fe s) !! k = jobs s !! k.
Proof.
  intros Hne. unfold complete. by rewrite !body_other, settle_other.
Qed.

(** X11.  When a refresh runs from the settling of its requests to its
    end after another refresh has done so, with no step of the one between
    the steps of the other, and the ok responses of both have readable
    bodies, the one that ran last wins, whichever was started first: for
    each collection the store holds the body of the ok response of the later
    one, else that of the earlier one, else its old value, and both calls
    have returned. *)
Theorem last_completed_refresh_wins (s : state) (j1 j2 : nat) (ws1 ws2 : scope)
    (ra1 ra2 : response (list Agent)) (rt1 rt2 : response (list Task))
    (re1 re2 : response (list Event)) :
  jobs s !! j1 = Some (mkJob Refresh ws1 AwaitAll) →
  jobs s !! j2 = Some (mkJob Refresh ws2 AwaitAll) →
  j1 ≠ j2 →
  (ok ra1 = true → is_Some (json ra1)) → (ok rt1 = true → is_Some (json rt1)) →
  (ok re1 = true → is_Some (json re1)) →
  (ok ra2 = true → is_Some (json ra2)) → (ok rt2 = true → is_Some (json rt2)) →
  (ok re2 = true → is_Some (json re2)) →
  let s' := complete j2 (Some ra2) (Some rt2) (Some re2)
              (complete j1 (Some ra1) (Some rt1) (Some re1) s) in
  agents s' = (if ok ra2 then default [] (json ra2)
               else if ok ra1 then default [] (json ra1) else agents s)
  ∧ tasks s' = (if ok rt2 then default [] (json rt2)
                else if ok rt1 then default [] (json rt1) else tasks s)
  ∧ events s' = (if ok re2 then default [] (json re2)
                 else if ok re1 then default [] (json re1) else events s)
  ∧ jobs s' !! j1 = None ∧ jobs s' !! j2 = None.
Proof.
  intros H1 H2 Hne Ha1 Ht1 He1 Ha2 Ht2 He2.
  set (s1 := complete j1 (Some ra1) (Some rt1) (Some re1) s).
  destruct (DashboardFacts.refresh_fulfilled s j1 ws1 ra1 rt1 re1 H1 Ha1 Ht1 He1)
    as (Ea1 & Et1 & Ee1 & Ej1).
  fold s1 in Ea1, Et1, Ee1, Ej1.
  assert (jobs s1 !! j2 = Some (mkJob Refresh ws2 AwaitAll)) as H2'.
  { unfold s1. rewrite complete_other by done. exact H2. }
  destruct (DashboardFacts.refresh_fulfilled s1 j2 ws2 ra2 rt2 re2 H2' Ha2 Ht2 He2)
    as (Ea2 & Et2 & Ee2 & Ej2).
  cbv zeta. fold s1. rewrite Ea2, Et2, Ee2, Ea1, Et1, Ee1.
  split; [|split; [|split; [|split]]].
  - destruct (ok ra2); [by destruct (Ha2 eq_refl) as [v ->]|].
    destruct (ok ra1); [by destruct (Ha1 eq_refl) as [v ->]|done].
  - destruct (ok rt2); [by destruct (Ht2 eq_refl) as [v ->]|].
    destruct (ok rt1); [by destruct (Ht1 eq_refl) as [v ->]|done].
  - destruct (ok re2); [by destruct (He2 eq_refl) as [v ->]|].
    destruct (ok re1); [by destruct (He1 eq_refl) as [v ->]|done].
  - rewrite complete_other by done. exact Ej1.
  - exact Ej2.
Qed.

(** *** The requests the dashboard makes *)

Lemma grows_refl s : grows s s.
Proof. exists []. split; [by rewrite app_nil_r|constructor]. Qed.

Lemma grows_trans s1 s2 s3 : grows s1 s2 → grows s2 s3 → grows s1 s3.
Proof.
  intros (t1 & E1 & F1) (t2 & E2 & F2). exists (t1 ++ t2)%list.
  split; [by rewrite E2, E1, app_assoc|by apply Forall_app].
Qed.

Lemma settle_grows j fa ft fe s : grows s (settle j fa ft fe s).
Proof.
  unfold grows, settle, fail, agents_line, tasks_line, events_line, finish, suspend,
    setLoading, is_mounted, emit.
  quiet_trace.
Qed.

Lemma body_grows j s : grows s (body j s).
Proof.
  unfold grows, body, fail, tasks_line, events_line, finish, suspend, setAgents,
    setTasks, setEvents, setLoading, is_mounted, emit.
  quiet_trace.
Qed.

Lemma requests_expected ws : Forall expected (requests ws).
Proof.
  apply Forall_forall. intros a Ha. unfold requests in Ha.
  repeat (apply elem_of_cons in Ha as [->|Ha];
          [exists ws; unfold requests; set_solver|]).
  by apply elem_of_nil in Ha.
Qed.

Lemma start_job_grows k ws s : grows s (start_job k ws s).
Proof. exists (requests ws). split; [done|apply requests_expected]. Qed.

Lemma startPolling_grows ws s : grows s (startPolling ws s).
Proof.
  unfold startPolling. destruct (pollingIntervalRef s); [apply grows_refl|].
  eexists. split; [reflexivity|repeat constructor].
Qed.

Lemma stopPolling_grows s : grows s (stopPolling s).
Proof.
  unfold stopPolling. destruct (pollingIntervalRef s); [|apply grows_refl].
  eexists. split; [reflexivity|repeat constructor].
Qed.

Lemma grows_same s s' : trace s' = trace s → grows s s'.
Proof. intros E. exists []. split; [by rewrite app_nil_r|constructor]. Qed.

Lemma setSseConnected_grows b s : grows s (setSseConnected b s).
Proof. exists [SetSseConnected b]. split; [done|repeat constructor]. Qed.

Lemma connectSSE_grows ws s : grows s (connectSSE ws s).
Proof. exists [OpenEventSource "/api/events/stream" (next s)]. split; [done|repeat constructor]. Qed.

Lemma close_grows h s : grows s (close h s).
Proof. exists [CloseEventSource h]. split; [done|repeat constructor]. Qed.

Lemma load_effect_grows ws s : grows s (load_effect ws s).
Proof. exists (requests ws). split; [done|apply requests_expected]. Qed.

Lemma setup_grows ws s : grows s (setup ws s).
Proof.
  unfold setup, sync_effect.
  eapply grows_trans; [|apply startPolling_grows].
  eapply grows_trans; [|apply connectSSE_grows].
  apply load_effect_grows.
Qed.

Lemma teardown_grows flag s : grows s (teardown flag s).
Proof.
  unfold teardown, sync_cleanup.
  eapply grows_trans; [|apply stopPolling_grows].
  change (eventSourceRef (load_cleanup flag s)) with (eventSourceRef s).
  destruct (eventSourceRef s) as [h|]; [|by apply grows_same].
  eapply grows_trans; [|apply close_grows]. by apply grows_same.
Qed.

Lemma step_grows e s : grows s (step e s).
Proof.
  destruct e as [ws|ws| |h|h data|h|t|j fa ft fe|j]; simpl.
  - destruct (life s); [apply setup_grows|apply grows_refl|apply grows_refl].
  - destruct (life s) as [|old flag|]; [apply grows_refl| |apply grows_refl].
    destruct (decide (old = ws)); [apply grows_refl|].
    eapply grows_trans; [apply teardown_grows|apply setup_grows].
  - destruct (life s) as [|old flag|]; [apply grows_refl| |apply grows_refl].
    eapply grows_trans; [apply (teardown_grows flag)|by apply grows_same].
  - destruct (sources s !! h); [|apply grows_refl]. unfold onopen.
    eapply grows_trans; [|apply stopPolling_grows]. apply setSseConnected_grows.
  - destruct (sources s !! h) as [ws|]; [|apply grows_refl]. unfold onmessage.
    destruct (String.prefix ":" data); [apply grows_refl|apply start_job_grows].
  - destruct (sources s !! h) as [ws|]; [|apply grows_refl]. unfold onerror.
    eapply grows_trans; [|apply startPolling_grows].
    eapply grows_trans; [|by apply grows_same].
    eapply grows_trans; [|apply close_grows]. apply setSseConnected_grows.
  - destruct (intervals s !! t) as [ws|]; [apply start_job_grows|apply grows_refl].
  - apply settle_grows.
  - apply body_grows.
Qed.

Lemma reachable_expected s : reachable s → Forall expected (trace s).
Proof.
  intros [evs ->].
  assert (∀ s0, Forall expected (trace s0) → Forall expected (trace (run evs s0))) as H.
  { induction evs as [|e evs IH]; intros s0 H0; simpl; [done|].
    apply IH. destruct (step_grows e s0) as (tr & -> & Htr). by apply Forall_app. }
  apply H. constructor.
Qed.

Lemma path_of_scoped_agents ws : path_of (scoped_url "/api/agents" ws) = "/api/agents".
Proof. unfold scoped_url. by destruct (truthy ws). Qed.

Lemma path_of_scoped_tasks ws : path_of (scoped_url "/api/tasks" ws) = "/api/tasks".
Proof. unfold scoped_url. by destruct (truthy ws). Qed.

(** X12.  The dashboard only ever requests the agents, the tasks and the events
    collection, and never the events without their limit: every events
    request it makes, on load, on a poll tick or after a stream message,
    is "/api/events?limit=150". *)
Theorem dashboard_requests (s : state) (url : string) :
  reachable s → Fetch url ∈ trace s →
  (path_of url = "/api/agents" ∨ path_of url = "/api/tasks"
   ∨ path_of url = "/api/events")
  ∧ (path_of url = "/api/events" → url = "/api/events?limit=150"
                                    ∧ limit_of url = Some "150").
Proof.
  intros Hr Hin.
  pose proof (reachable_expected s Hr) as Hall. rewrite Forall_forall in Hall.
  destruct (Hall _ Hin) as [ws Hws]. unfold requests in Hws.
  apply elem_of_cons in Hws as [Heq|Hws];
    [injection Heq as ->; unfold agents_url; rewrite path_of_scoped_agents;
     split; [by left|done]|].
  apply elem_of_cons in Hws as [Heq|Hws];
    [injection Heq as ->; unfold tasks_url; rewrite path_of_scoped_tasks;
     split; [by right; left|done]|].
  apply elem_of_cons in Hws as [Heq|Hws]; [|by apply elem_of_nil in Hws].
  injection Heq as ->. split; [by right; right|]. intros _. by vm_compute.
Qed.

End DashboardMoreFacts.

(** ** The task poller: when nothing is written *)

Section TaskVersions.

Lemma existsb_false {A} (f : A → bool) (l : list A) :
  existsb f l = false ↔ ∀ x, x ∈ l → f x = false.
Proof.
  induction l as [|a l IH]; simpl.
  - split; [|done]. intros _ x Hx. by apply elem_of_nil in Hx.
  - rewrite orb_false_iff, IH. split.
    + intros [Ha Hl] x Hx. apply elem_of_cons in Hx as [->|Hx]; auto.
    + intros H. split; [apply H; by left|]. intros x Hx. apply H. by right.
Qed.

Lemma NoDup_task_id (tasks : list Task) (a b : Task) :
  NoDup (task_id <$> tasks) → a ∈ tasks → b ∈ tasks → task_id a = task_id b → a = b.
Proof.
  induction tasks as [|c tasks IH]; simpl; intros Hnd Ha Hb Heq.
  - by apply elem_of_nil in Ha.
  - apply NoDup_cons in Hnd as [Hc Hnd].
    apply elem_of_cons in Ha as [->|Ha]; apply elem_of_cons in Hb as [->|Hb]; auto.
    + exfalso. apply Hc. rewrite Heq. by apply list_elem_of_fmap_2.
    + exfalso. apply Hc. rewrite <- Heq. by apply list_elem_of_fmap_2.
Qed.

Lemma task_unchanged (cur : list Task) (t : Task) :
  task_changed cur t = false ↔
  ∃ ct, List.find (fun ct => String.eqb (task_id ct) (task_id t)) cur = Some ct
        ∧ updated_at ct = updated_at t.
Proof.
  unfold task_changed. destruct (List.find _ cur) as [c|].
  - rewrite negb_false_iff, eqb_string_true. split; [by exists c|].
    intros (c' & Hc & Hu). congruence.
  - split; [done|]. by intros (c' & Hc & _).
Qed.

(** X13.  With distinct ids in both lists, the poller leaves the store alone
    exactly when the fetched tasks and the current ones are the same tasks
    at the same [updated_at], in whatever order: a reordering is not a
    change, and a change that leaves [updated_at] as it was is not seen. *)
Theorem hasChanges_false_iff_same_versions (newTasks currentTasks : list Task) :
  NoDup (task_id <$> newTasks) → NoDup (task_id <$> currentTasks) →
  hasChanges newTasks currentTasks = false
  ↔ (task_version <$> newTasks) ≡ₚ (task_version <$> currentTasks).
Proof.
  intros Hn Hc. unfold hasChanges.
  rewrite orb_false_iff, negb_false_iff, Nat.eqb_eq, existsb_false. split.
  - intros [Hlen Hall]. apply submseteq_length_Permutation.
    + apply NoDup_submseteq.
      * apply (NoDup_fmap_1 fst). rewrite <- list_fmap_compose. exact Hn.
      * intros v Hv. apply list_elem_of_fmap in Hv as (t & -> & Ht).
        apply Hall, task_unchanged in Ht as (ct & Hf & Hu).
        apply find_some in Hf as [Hin Hid]. apply eqb_string_true in Hid.
        apply list_elem_of_fmap. exists ct. split; [|by apply list_elem_of_In].
        unfold task_version. by rewrite Hid, Hu.
    + rewrite !length_fmap. lia.
  - intros Hp. split.
    + apply Permutation_length in Hp. by rewrite !length_fmap in Hp.
    + intros t Ht. apply task_unchanged.
      assert (task_version t ∈ task_version <$> currentTasks) as Hv.
      { rewrite <- Hp. apply list_elem_of_fmap. by exists t. }
      apply list_elem_of_fmap in Hv as (ct & Hv & Hct).
      injection Hv as Hid Hu.
      destruct (List.find (fun ct => String.eqb (task_id ct) (task_id t)) currentTasks)
        as [c|] eqn:Hf.
      * exists c. split; [done|].
        apply find_some in Hf as [Hin Hc']. apply eqb_string_true in Hc'.
        apply list_elem_of_In in Hin.
        assert (c = ct) as -> by (apply (NoDup_task_id currentTasks); congruence).
        done.
      * exfalso. apply list_elem_of_In in Hct.
        pose proof (find_none _ _ Hf ct Hct) as Hne. simpl in Hne.
        apply eqb_string_false in Hne. congruence.
Qed.

End TaskVersions.

(** ** The workspace page: loading flag and event poller *)

Module WorkspacePageMoreFacts.
Import WorkspacePage WorkspacePageInvariants.

Lemma page_finish_loaded j s : loaded j (load_finish j s).
Proof. unfold loaded. simpl. by rewrite lookup_delete_eq. Qed.

Lemma page_fail_loaded j s : loaded j (load_fail j s).
Proof. unfold load_fail. apply page_finish_loaded. Qed.

Lemma page_loaded_body j s : loaded j s → loaded j (body j s).
Proof. intros [Hl Hj]. by rewrite WorkspacePageFacts.page_body_returned. Qed.

Lemma page_events_line_loaded j re s : loaded j (body j (events_line j re s)).
Proof.
  unfold events_line. destruct (ok re).
  - rewrite WorkspacePageFacts.page_body_suspended. simpl.
    destruct (json re); [apply page_finish_loaded|apply page_fail_loaded].
  - apply page_loaded_body, page_finish_loaded.
Qed.

Lemma page_tasks_line_loaded j rt re s :
  loaded j (body j (body j (tasks_line j rt re s))).
Proof.
  unfold tasks_line. destruct (ok rt).
  - rewrite WorkspacePageFacts.page_body_suspended. simpl. destruct (json rt).
    + apply page_events_line_loaded.
    + apply page_loaded_body, page_fail_loaded.
  - apply page_loaded_body, page_events_line_loaded.
Qed.

Lemma page_agents_line_loaded j ra rt re s :
  loaded j (body j (body j (body j (agents_line j ra rt re s)))).
Proof.
  unfold agents_line. destruct (ok ra).
  - rewrite WorkspacePageFacts.page_body_suspended. simpl. destruct (json ra).
    + apply page_tasks_line_loaded.
    + apply page_loaded_body, page_loaded_body, page_fail_loaded.
  - apply page_loaded_body, page_tasks_line_loaded.
Qed.

(** X14.  The page's [loadData] always clears the loading flag of the store when
    it returns, whatever its requests bring: rejected requests, responses
    that are not ok and unreadable bodies included. *)
Theorem page_load_clears_loading (s : state) (j : nat)
    (fa : option (response (list Agent))) (ft : option (response (list Task)))
    (fe : option (response (list Event))) :
  jobs s !! j = Some LoadAll →
  isLoading (st (complete j fa ft fe s)) = false
  ∧ jobs (complete j fa ft fe s) !! j = None.
Proof.
  intros Hj. unfold complete, settle_all. rewrite Hj.
  destruct (promise_all fa ft fe) as [|ra rt re].
  - apply page_loaded_body, page_loaded_body, page_loaded_body, page_fail_loaded.
  - apply page_agents_line_loaded.
Qed.

(** X15.  An event poll replaces the events of the store with the fetched window
    when its response is ok and readable, and only the events; a rejected
    request, a response that is not ok and an unreadable body leave the
    store as it was.  In every case the call returns. *)
Theorem event_poll_outcomes (s : state) (j : nat)
    (o : option (response (list Event))) :
  jobs s !! j = Some EventPollFetch →
  let s' := body j (settle_events j o s) in
  jobs s' !! j = None
  ∧ match o with
    | Some (mkResponse true (Some v)) =>
        st s' = mkStore (agents (st s)) (tasks (st s)) v (isOnline (st s))
                  (isLoading (st s))
    | _ => st s' = st s
    end.
Proof.
  intros Hj. unfold settle_events. rewrite Hj.
  destruct o as [[[|] [v|]]|]; simpl.
  - rewrite WorkspacePageFacts.page_body_suspended. simpl.
    by rewrite lookup_delete_eq.
  - rewrite WorkspacePageFacts.page_body_suspended. simpl.
    by rewrite lookup_delete_eq.
  - rewrite WorkspacePageFacts.page_body_returned; simpl; by rewrite lookup_delete_eq.
  - rewrite WorkspacePageFacts.page_body_returned; simpl; by rewrite lookup_delete_eq.
  - rewrite WorkspacePageFacts.page_body_returned; simpl; by rewrite lookup_delete_eq.
Qed.

End WorkspacePageMoreFacts.

(** ** The mobile layout *)

Module MobileLayoutFacts.
Import MobileLayout.

Lemma tab_effect_landscape (l : layout) :
  isPortrait (tab_effect l) = isPortrait l
  ∧ (isPortrait l = false → mobileTab (tab_effect l) ≠ TabQueue)
  ∧ (mobileTab l ≠ TabQueue → tab_effect l = l)
  ∧ (isPortrait l = true → tab_effect l = l).
Proof. destruct l as [[|] []]; simpl; repeat split; done. Qed.

Lemma run_snoc (evs : list event) (e : event) (l : layout) :
  run (evs ++ [e]) l = step e (run evs l).
Proof. unfold run. by rewrite foldl_app. Qed.

(** X16.  In landscape the queue is never the selected mobile tab: after any
    sequence of rotations and tab clicks the selected tab is one of the
    three the landscape layout has a button for, and the panel beside the
    queue is the one of the selected tab.  A click selects the clicked tab
    whenever it is not the queue in landscape, and a rotation to portrait
    keeps the tab. *)
Theorem landscape_never_selects_queue (evs : list event) :
  let l := run evs init in
  (isPortrait l = false →
     mobileTab l ≠ TabQueue
     ∧ landscape_panel l = match mobileTab l with
                           | TabSettings => SettingsPanel
                           | TabFeed => FeedPanel
                           | _ => AgentsPanel
                           end)
  ∧ (∀ tab, (isPortrait l = true ∨ tab ≠ TabQueue) →
            mobileTab (step (SelectTab tab) l) = tab)
  ∧ mobileTab (step (Orientation true) l) = mobileTab l.
Proof.
  intros l.
  assert (isPortrait l = false → mobileTab l ≠ TabQueue) as Hinv.
  { unfold l. induction evs as [|e evs _] using rev_ind; [done|].
    rewrite run_snoc. unfold step. intros Hp.
    destruct (tab_effect_landscape (update e (run evs init))) as (Ep & Hq & _).
    apply Hq. by rewrite <- Ep. }
  split; [|split].
  - intros Hp. specialize (Hinv Hp). split; [done|].
    unfold landscape_panel. by destruct (mobileTab l).
  - intros tab Htab. unfold step.
    destruct (tab_effect_landscape (update (SelectTab tab) l)) as (_ & _ & Hk & Hport).
    destruct Htab as [Hp|Hne]; [by rewrite Hport|by rewrite Hk].
  - unfold step.
    destruct (tab_effect_landscape (update (Orientation true) l)) as (_ & _ & _ & Hport).
    by rewrite Hport.
Qed.

End MobileLayoutFacts.

(** ** The live feed *)

Module LiveFeedFacts.
Import LiveFeed.

Lemma includes_true (l : list string) (x : string) : includes l x = true ↔ x ∈ l.
Proof.
  unfold includes. rewrite existsb_exists. split.
  - intros (y & Hy & He). apply eqb_string_true in He. subst. by apply list_elem_of_In.
  - intros Hx. exists x. split; [by apply list_elem_of_In|by apply eqb_string_true].
Qed.

(** X17.  No event is under both the "tasks" and the "agents" tab; a highlighted
    event is always styled as a task event and shown under "tasks"; and
    every tab shows a sub-list of the feed in feed order, "all" the whole
    feed. *)
Theorem feed_tabs (events : list Event) (event : Event) :
  ¬ (shown FeedTasks event = true ∧ shown FeedAgents event = true)
  ∧ (isHighlight event = true → isTaskEvent event = true)
  ∧ (isTaskEvent event = true → shown FeedTasks event = true)
  ∧ filteredEvents FeedAll events = events
  ∧ ∀ filter, filteredEvents filter events `sublist_of` events.
Proof.
  split; [|split; [|split; [|split]]].
  - unfold shown. rewrite !includes_true. intros [Ht Ha].
    set (ty := event_type event) in *.
    repeat (apply elem_of_cons in Ht as [Ht|Ht];
            [rewrite Ht in Ha;
             repeat (apply elem_of_cons in Ha as [Ha|Ha]; [discriminate|]);
             by apply elem_of_nil in Ha|]).
    by apply elem_of_nil in Ht.
  - unfold isHighlight, isTaskEvent. rewrite orb_true_iff, !eqb_string_true, includes_true.
    intros [->| ->]; [by left|by right; right; left].
  - unfold isTaskEvent, shown. rewrite !includes_true. intros Ht.
    repeat (apply elem_of_cons in Ht as [->|Ht]). 
    + by left.
    + by right; left.
    + by right; right; right; left.
    + by apply elem_of_nil in Ht.
  - unfold filteredEvents. induction events as [|e events IH]; simpl; [done|].
    by rewrite IH.
  - intros filter. unfold filteredEvents.
    induction events as [|e events IH]; simpl; [done|].
    destruct (shown filter e); [by apply sublist_skip|by apply sublist_cons].
Qed.

End LiveFeedFacts.

(** ** The agents sidebar: loading the sessions *)

Module SidebarFacts.
Import Sidebar.

Lemma loadOpenClawSessions_app l1 l2 :
  loadOpenClawSessions (l1 ++ l2)
  = (loadOpenClawSessions l1 ++ loadOpenClawSessions l2)%list.
Proof. unfold loadOpenClawSessions. by rewrite map_app, concat_app. Qed.

Lemma elem_of_concat {A} (x : A) (ls : list (list A)) :
  x ∈ concat ls ↔ ∃ l, x ∈ l ∧ l ∈ ls.
Proof.
  rewrite list_elem_of_In, in_concat. split.
  - intros (l & Hl & Hx). exists l. by rewrite !list_elem_of_In.
  - intros (l & Hx & Hl). exists l. by rewrite <- !list_elem_of_In.
Qed.

Lemma load_session_sets agent o id sess :
  SetAgentOpenClawSession id sess ∈ load_session agent o ↔
  agent_id agent = id
  ∧ ∃ r, o = Some r ∧ ok r = true ∧ json r = Some (mkLink true (Some sess)).
Proof.
  unfold load_session. rewrite elem_of_cons. split.
  - intros [H|H]; [done|].
    destruct o as [[[|] [[[|] [x|]]|]]|]; simpl in H;
      try (by apply elem_of_nil in H);
      try (apply list_elem_of_singleton in H; discriminate).
    apply list_elem_of_singleton in H. injection H as -> ->.
    split; [done|]. by eexists.
  - intros (<- & r & -> & Hok & Hj). right. rewrite Hok, Hj. simpl.
    by apply list_elem_of_singleton.
Qed.

(** X18.  The sessions are loaded agent by agent: every agent is asked, in order,
    whatever happened to the requests before it, and a session is set for
    an agent exactly when its own request came back ok, readable and linked
    with a session. *)
Theorem sessions_load_independently
    (agents : list (Agent * option (response link_body))) :
  (∀ before after,
     agents = (before ++ after)%list →
     loadOpenClawSessions agents
     = (loadOpenClawSessions before ++ loadOpenClawSessions after)%list)
  ∧ (∀ id sess,
       SetAgentOpenClawSession id sess ∈ loadOpenClawSessions agents ↔
       ∃ agent r, (agent, Some r) ∈ agents ∧ agent_id agent = id
                  ∧ ok r = true ∧ json r = Some (mkLink true (Some sess)))
  ∧ (∀ agent o, (agent, o) ∈ agents →
       Fetch ("/api/agents/" ++ agent_id agent ++ "/openclaw")
       ∈ loadOpenClawSessions agents).
Proof.
  split; [|split].
  - intros before after ->. apply loadOpenClawSessions_app.
  - intros id sess. unfold loadOpenClawSessions. rewrite elem_of_concat. split.
    + intros (l & Hin & Hl). apply list_elem_of_fmap in Hl as ([agent o] & -> & Hao).
      apply load_session_sets in Hin as (Hid & r & -> & Hok & Hj).
      by exists agent, r.
    + intros (agent & r & Hin & Hid & Hok & Hj).
      exists (load_session agent (Some r)). split.
      * apply load_session_sets. split; [done|]. by exists r.
      * apply list_elem_of_fmap. by exists (agent, Some r).
  - intros agent o Hin. unfold loadOpenClawSessions. apply elem_of_concat.
    exists (load_session agent o). split; [by left|].
    apply list_elem_of_fmap. by exists (agent, o).
Qed.

End SidebarFacts.

(** ** The import dialog *)

Module DiscoverAgentsModalFacts.
Import DiscoverAgentsModal.

(** X19.  Clicking a row twice restores the selection; one click changes the
    membership of the clicked id and of no other, and the number of selected
    ids by exactly one. *)
Theorem toggle_twice (id : string) (prev : gset string) :
  toggle id (toggle id prev) = prev
  ∧ (id ∈ toggle id prev ↔ id ∉ prev)
  ∧ (∀ x, x ≠ id → x ∈ toggle id prev ↔ x ∈ prev)
  ∧ (if bool_decide (id ∈ prev) then S (size (toggle id prev)) = size prev
     else size (toggle id prev) = S (size prev)).
Proof.
  unfold toggle. destruct (bool_decide (id ∈ prev)) eqn:Hin.
  - apply bool_decide_eq_true in Hin.
    rewrite bool_decide_eq_false_2 by set_solver.
    split; [|split; [|split]].
    + apply set_eq. intros x. destruct (decide (x = id)); set_solver.
    + set_solver.
    + set_solver.
    + assert (size prev = size ({[id]} ∪ prev ∖ {[id]})) as ->.
      { f_equal. apply set_eq. intros x. destruct (decide (x = id)); set_solver. }
      pose proof (size_union (C := gset string) {[id]} (prev ∖ {[id]})) as Hu.
      rewrite Hu by set_solver. by rewrite size_singleton.
  - apply bool_decide_eq_false in Hin.
    rewrite bool_decide_eq_true_2 by set_solver.
    split; [|split; [|split]].
    + set_solver.
    + set_solver.
    + set_solver.
    + pose proof (size_union (C := gset string) prev {[id]}) as Hu.
      rewrite Hu by set_solver. rewrite size_singleton. lia.
Qed.

Lemma NoDup_available (s : state) :
  NoDup (da_id <$> agents s) → NoDup (da_id <$> available s).
Proof.
  unfold available. induction (agents s) as [|a l IH]; simpl; [done|].
  intros Hnd. apply NoDup_cons in Hnd as [Ha Hnd].
  destruct (already_imported a); simpl; [by apply IH|].
  apply NoDup_cons. split; [|by apply IH].
  intros Hin. apply Ha.
  apply list_elem_of_fmap in Hin as (b & -> & Hb).
  apply list_elem_of_In, filter_In in Hb as [Hb _].
  apply list_elem_of_fmap. exists b. split; [done|]. by apply list_elem_of_In.
Qed.

Lemma selectAllAvailable_elem (s : state) (id : string) :
  id ∈ selectedIds (selectAllAvailable s) ↔
  ∃ a, a ∈ agents s ∧ da_id a = id ∧ already_imported a = false.
Proof.
  simpl. rewrite elem_of_list_to_set. split.
  - intros Hin. apply list_elem_of_In, in_map_iff in Hin as (a & <- & Ha).
    apply filter_In in Ha as [Ha Hi]. apply negb_true_iff in Hi.
    exists a. by rewrite <- list_elem_of_In in Ha.
  - intros (a & Ha & <- & Hi). apply list_elem_of_In, in_map_iff.
    exists a. split; [done|]. apply filter_In.
    split; [by apply list_elem_of_In|by rewrite Hi].
Qed.

(** X20.  "Select All" selects exactly the ids of the agents that are not yet
    imported; with distinct ids the footer then counts as many selected ids
    as agents are available.  Clicking the row of an imported agent changes
    nothing. *)
Theorem select_all_selects_the_available (s : state) :
  (∀ id, id ∈ selectedIds (selectAllAvailable s) ↔
         ∃ a, a ∈ agents s ∧ da_id a = id ∧ already_imported a = false)
  ∧ (NoDup (da_id <$> agents s) →
     size (selectedIds (selectAllAvailable s)) = availableCount s)
  ∧ (∀ a, already_imported a = true → click_row a s = s).
Proof.
  split; [|split].
  - apply selectAllAvailable_elem.
  - intros Hnd. simpl. unfold availableCount.
    rewrite size_list_to_set by by apply NoDup_available.
    apply length_map.
  - intros a Hi. unfold click_row. by rewrite Hi.
Qed.

Lemma add_agents_trace (l : list Agent) (s : state) :
  let s' := foldl (fun s agent => emit (AddAgent agent) s) s l in
  trace s' = (trace s ++ (AddAgent <$> l))%list
  ∧ loading s' = loading s ∧ error s' = error s ∧ agents s' = agents s
  ∧ selectedIds s' = selectedIds s ∧ importing s' = importing s
  ∧ importResult s' = importResult s.
Proof.
  revert s. induction l as [|a l IH]; intros s; simpl.
  - by rewrite app_nil_r.
  - destruct (IH (emit (AddAgent a) s)) as (-> & -> & -> & -> & -> & -> & ->).
    simpl. by rewrite <- app_assoc.
Qed.

Lemma discover_view (o : option (reply discover_body)) (s : state) :
  let s' := discover o s in
  loading s' = false ∧ importResult s' = None
  ∧ selectedIds s' = selectedIds s ∧ importing s' = importing s
  ∧ trace s' = (trace s ++ [Fetch "/api/agents/discover"])%list.
Proof.
  unfold discover, discover_settle.
  destruct o as [[ok st [data|]]|]; simpl; [|done|done].
  by destruct ok.
Qed.

(** X21.  A refresh of the list always ends the loading state and drops the
    summary of the last import, and it keeps the selection as it is, also
    when the refreshed list no longer holds the selected agents; the list is
    replaced only by an ok and readable response, and every other outcome
    keeps the list and sets an error message. *)
Theorem discover_outcomes (o : option (reply discover_body)) (s : state) :
  let s' := discover o s in
  loading s' = false ∧ importResult s' = None ∧ selectedIds s' = selectedIds s
  ∧ match o with
    | Some (mkReply true _ (Some data)) =>
        agents s' = default [] (db_agents data) ∧ error s' = None
    | _ => agents s' = agents s ∧ ∃ msg, error s' = Some msg
    end.
Proof.
  destruct (discover_view o s) as (Hl & Hr & Hs & _).
  split; [done|]. split; [done|]. split; [done|].
  unfold discover, discover_settle.
  destruct o as [[[|] st [data|]]|]; simpl; eauto.
Qed.

Lemma agentsToImport_ids (workspaceId : scope) (s : state) :
  (gateway_agent_id <$> agentsToImport workspaceId s)
  = List.filter (fun id => bool_decide (id ∈ selectedIds s)) (da_id <$> agents s).
Proof.
  unfold agentsToImport. induction (agents s) as [|a l IH]; simpl; [done|].
  destruct (bool_decide (da_id a ∈ selectedIds s)); simpl; [f_equal|]; exact IH.
Qed.

Lemma handleImport_trace (workspaceId : scope) (o : option (reply import_body))
    (od : option (reply discover_body)) (s : state) :
  size (selectedIds s) ≠ 0 →
  ∃ rest, trace (handleImport workspaceId o od s)
          = (trace s ++ Post "/api/agents/import" (agentsToImport workspaceId s)
               :: rest)%list.
Proof.
  intros Hnz. unfold handleImport. rewrite bool_decide_eq_false_2 by done.
  cbv zeta.
  set (s1 := emit (Post "/api/agents/import" (agentsToImport workspaceId s))
               (setError None (setImporting true s))).
  assert (trace s1 = (trace s ++ [Post "/api/agents/import"
                                    (agentsToImport workspaceId s)])%list) as Es1 by done.
  destruct o as [[[|] st [[e [imported|] [skipped|]]|]]|];
    cbn [r_json r_ok negb ib_imported ib_skipped ib_error];
    try (exists []; exact Es1).
  - set (s3 := setImportResult _ _).
    destruct (discover_view od s3) as (_ & _ & _ & _ & Ht).
    change (trace (setImporting false (setSelectedIds ∅ (discover od s3))))
      with (trace (discover od s3)).
    rewrite Ht. unfold s3.
    change (trace (setImportResult ?v ?x)) with (trace x).
    destruct (add_agents_trace imported s1) as (-> & _). rewrite Es1.
    rewrite <- !app_assoc. by eexists.
  - change (trace (import_failed ?x)) with (trace x).
    destruct (add_agents_trace imported s1) as (-> & _). rewrite Es1.
    rewrite <- !app_assoc. by eexists.
Qed.

(** X22.  [handleImport] does nothing while nothing is selected.  Otherwise its
    first call is the import request, whose entries are the selected agents
    of the list in list order, each for the given workspace or for
    'default' when there is none. *)
Theorem import_request (workspaceId : scope) (o : option (reply import_body))
    (od : option (reply discover_body)) (s : state) :
  (size (selectedIds s) = 0 → handleImport workspaceId o od s = s)
  ∧ (size (selectedIds s) ≠ 0 →
     ∃ rest, trace (handleImport workspaceId o od s)
             = (trace s ++ Post "/api/agents/import" (agentsToImport workspaceId s)
                  :: rest)%list)
  ∧ (gateway_agent_id <$> agentsToImport workspaceId s)
    = List.filter (fun id => bool_decide (id ∈ selectedIds s)) (da_id <$> agents s)
  ∧ ∀ e, e ∈ agentsToImport workspaceId s →
         entry_workspace_id e
         = match workspaceId with
           | Some id => if String.eqb id "" then "default" else id
           | None => "default"
           end.
Proof.
  split; [|split; [|split]].
  - intros Hz. unfold handleImport. by rewrite bool_decide_eq_true_2.
  - intros Hnz. by apply handleImport_trace.
  - apply agentsToImport_ids.
  - intros e He. unfold agentsToImport in He.
    apply list_elem_of_fmap in He as (a & -> & _). simpl.
    destruct workspaceId as [id|]; simpl; [|done]. by destruct (String.eqb id "").
Qed.

(** X23.  Whatever the import brings, the dialog is no longer importing when
    [handleImport] returns.  After an ok response whose body is readable
    and has both [imported] and [skipped], the stored agents have been
    added in order, the list has been rediscovered, the selection is empty,
    and the summary of the import has already been dropped again by the
    rediscovery.  After an ok response whose body has [imported] but no
    [skipped], the agents have been added all the same, and yet the dialog
    reports 'Failed to import agents' and keeps the selection, the list and
    the summary.  After any other outcome no agent is added, the selection,
    the list and the summary are as before, and an error message is set. *)
Theorem import_outcomes (workspaceId : scope) (o : option (reply import_body))
    (od : option (reply discover_body)) (s : state) :
  size (selectedIds s) ≠ 0 →
  let s' := handleImport workspaceId o od s in
  let post := Post "/api/agents/import" (agentsToImport workspaceId s) in
  importing s' = false
  ∧ match o with
    | Some (mkReply true _ (Some (mkImportBody _ (Some imported) (Some skipped)))) =>
        selectedIds s' = ∅ ∧ importResult s' = None ∧ loading s' = false
        ∧ trace s' = (trace s ++ [post] ++ (AddAgent <$> imported)
                        ++ [Fetch "/api/agents/discover"])%list
    | Some (mkReply true _ (Some (mkImportBody _ (Some imported) None))) =>
        trace s' = (trace s ++ [post] ++ (AddAgent <$> imported))%list
        ∧ selectedIds s' = selectedIds s ∧ agents s' = agents s
        ∧ importResult s' = importResult s
        ∧ error s' = Some "Failed to import agents"
    | _ =>
        trace s' = (trace s ++ [post])%list
        ∧ selectedIds s' = selectedIds s ∧ agents s' = agents s
        ∧ importResult s' = importResult s ∧ ∃ msg, error s' = Some msg
    end.
Proof.
  intros Hnz. unfold handleImport. rewrite bool_decide_eq_false_2 by done.
  cbv zeta.
  set (s1 := emit (Post "/api/agents/import" (agentsToImport workspaceId s))
               (setError None (setImporting true s))).
  assert (trace s1 = (trace s ++ [Post "/api/agents/import"
                                    (agentsToImport workspaceId s)])%list
          ∧ selectedIds s1 = selectedIds s ∧ agents s1 = agents s
          ∧ importResult s1 = importResult s) as (Et & Es & Ea & Er) by done.
  destruct o as [[[|] st [[e [imported|] [skipped|]]|]]|];
    cbn [r_json r_ok negb ib_imported ib_skipped ib_error];
    try (split; [done|]; split; [exact Et|]; split; [exact Es|]; split; [exact Ea|];
         split; [exact Er|]; by eexists).
  - set (s3 := setImportResult _ _).
    set (d := discover od s3).
    destruct (discover_view od s3) as (Hl & Hr & _ & _ & Ht). fold d in Hl, Hr, Ht.
    split; [done|]. split; [done|]. split; [exact Hr|]. split; [exact Hl|].
    change (trace d = (trace s ++ [Post "/api/agents/import" (agentsToImport workspaceId s)]
                         ++ (AddAgent <$> imported)
                         ++ [Fetch "/api/agents/discover"])%list).
    rewrite Ht. unfold s3.
    change (trace (setImportResult ?v ?x)) with (trace x).
    destruct (add_agents_trace imported s1) as (-> & _). rewrite Et.
    by rewrite <- !app_assoc.
  - destruct (add_agents_trace imported s1) as (Ht & _ & _ & Ha' & Hs' & _ & Hr').
    set (s2 := foldl _ s1 imported) in *.
    split; [done|]. split; [|split; [|split; [|split]]].
    + change (trace (import_failed s2)) with (trace s2). rewrite Ht, Et.
      by rewrite <- !app_assoc.
    + change (selectedIds (import_failed s2)) with (selectedIds s2). by rewrite Hs'.
    + change (agents (import_failed s2)) with (agents s2). by rewrite Ha'.
    + change (importResult (import_failed s2)) with (importResult s2). by rewrite Hr'.
    + done.
Qed.

(** X24.  The button counts what is sent: with distinct ids in the list, and a
    selection made on that list (every selected id is the id of an agent of
    the list that is not imported yet), the import request carries exactly
    as many entries as ids are selected, none of them for an agent that is
    imported already.  Clicking rows, "Select All" and "Deselect All" keep
    such a selection. *)
Theorem import_sends_the_selection (workspaceId : scope) (s : state) :
  NoDup (da_id <$> agents s) →
  (∀ id, id ∈ selectedIds s →
         ∃ a, a ∈ agents s ∧ da_id a = id ∧ already_imported a = false) →
  length (agentsToImport workspaceId s) = size (selectedIds s)
  ∧ (∀ e, e ∈ agentsToImport workspaceId s →
          ∃ a, a ∈ agents s ∧ da_id a = gateway_agent_id e
               ∧ already_imported a = false)
  ∧ (∀ a id, a ∈ agents s →
       let s' := click_row a s in
       id ∈ selectedIds s' →
       ∃ b, b ∈ agents s' ∧ da_id b = id ∧ already_imported b = false)
  ∧ (∀ id, id ∈ selectedIds (selectAllAvailable s) →
           ∃ b, b ∈ agents s ∧ da_id b = id ∧ already_imported b = false)
  ∧ selectedIds (deselectAll s) = ∅.
Proof.
  intros Hnd Hsel.
  pose proof (agentsToImport_ids workspaceId s) as Hids.
  split; [|split; [|split; [|split]]].
  - rewrite <- (length_fmap gateway_agent_id), Hids.
    set (ids := da_id <$> agents s) in *.
    assert (NoDup (List.filter (fun id => bool_decide (id ∈ selectedIds s)) ids)) as Hnd'.
    { clear Hids. induction ids as [|x ids IH]; simpl; [constructor|].
      apply NoDup_cons in Hnd as [Hx Hnd].
      destruct (bool_decide (x ∈ selectedIds s)); [|by apply IH].
      apply NoDup_cons. split; [|by apply IH].
      intros Hin. apply Hx. by apply list_elem_of_In, filter_In in Hin as [?%list_elem_of_In _]. }
    rewrite <- (size_list_to_set (C := gset string)) by done.
    f_equal. apply set_eq. intros id. rewrite elem_of_list_to_set, list_elem_of_In, filter_In.
    rewrite bool_decide_eq_true. split; [by intros [_ ?]|].
    intros Hid. split; [|done].
    destruct (Hsel id Hid) as (a & Ha & <- & _).
    apply list_elem_of_In, list_elem_of_fmap. by exists a.
  - intros e He. unfold agentsToImport in He.
    apply list_elem_of_fmap in He as (a & -> & Ha). simpl.
    apply list_elem_of_In, filter_In in Ha as [Ha Hs].
    apply bool_decide_eq_true in Hs.
    destruct (Hsel _ Hs) as (b & Hb & Hid & Hi).
    exists b. by rewrite Hid.
  - intros a id Ha. unfold click_row.
    destruct (already_imported a) eqn:Hi; simpl; [apply Hsel|].
    unfold toggle. destruct (bool_decide (da_id a ∈ selectedIds s)).
    + intros Hin. apply elem_of_difference in Hin as [Hin _]. by apply Hsel.
    + intros Hin. apply elem_of_union in Hin as [Hin|Hin]; [by apply Hsel|].
      apply elem_of_singleton in Hin. subst id. by exists a.
  - intros id Hid.
    by apply selectAllAvailable_elem in Hid.
  - done.
Qed.

End DiscoverAgentsModalFacts.

(** ** The properties above on the sample data *)

Module MoreExamples.

Lemma working_on_testing_is_blocked_witness :
  Sample.alice
  ∈ Views.filteredAgents Views.FilterBlocked [Sample.alice; Sample.bob; Sample.carol]
      [Sample.build; Sample.deploy].
Proof.
  apply (ViewFacts.working_on_testing_is_blocked
           [Sample.alice; Sample.bob; Sample.carol] [Sample.build; Sample.deploy]
           Sample.alice Sample.build).
  - vm_compute. left.
  - reflexivity.
  - discriminate.
Defined.

Lemma working_and_idle_split_the_agents_witness :
  (Views.filteredAgents Views.FilterWorking [Sample.alice; Sample.bob; Sample.carol] []
     ++ Views.filteredAgents Views.FilterIdle [Sample.alice; Sample.bob; Sample.carol] [])%list
  ≡ₚ [Sample.alice; Sample.bob; Sample.carol].
Proof.
  apply (ViewFacts.working_and_idle_split_the_agents
           [Sample.alice; Sample.bob; Sample.carol] []).
  intros a Ha.
  apply elem_of_cons in Ha as [->|Ha]; [by left|].
  apply elem_of_cons in Ha as [->|Ha]; [by right; right|].
  apply elem_of_cons in Ha as [->|Ha]; [by right; left|].
  by apply elem_of_nil in Ha.
Defined.

Lemma blocked_tab_within_blocked_metric_witness :
  (length (Views.filteredAgents Views.FilterBlocked
             [Sample.alice; Sample.bob; Sample.carol] [Sample.build; Sample.deploy])
   ≤ Views.metric_blocked [Sample.alice; Sample.bob; Sample.carol]
       [Sample.build; Sample.deploy])%nat.
Proof.
  apply (ViewFacts.blocked_tab_within_blocked_metric
           [Sample.alice; Sample.bob; Sample.carol] [Sample.build; Sample.deploy]).
  apply (bool_decide_unpack _). vm_compute. exact I.
Defined.

Lemma always_an_update_source_witness :
  (∃ t, Dashboard.pollingIntervalRef Sample.dash_a = Some t
        ∧ Dashboard.intervals Sample.dash_a !! t = Some (Some "A"))
  ∨ (Dashboard.sseConnected Sample.dash_a = true
     ∧ ∃ h, Dashboard.eventSourceRef Sample.dash_a = Some h
            ∧ Dashboard.sources Sample.dash_a !! h = Some (Some "A")).
Proof.
  apply (DashboardMoreFacts.always_an_update_source Sample.dash_a (Some "A") 1).
  - by exists [Dashboard.Mount (Some "A")].
  - reflexivity.
Defined.

Lemma refreshes_are_scoped_witness :
  Dashboard.step (Dashboard.Tick 4) Sample.dash_a = Sample.dash_a
  ∨ Dashboard.step (Dashboard.Tick 4) Sample.dash_a
    = Dashboard.refresh (Some "A") Sample.dash_a.
Proof.
  destruct (DashboardMoreFacts.refreshes_are_scoped Sample.dash_a (Some "A") 1)
    as [Ht _]; [by exists [Dashboard.Mount (Some "A")]|reflexivity|].
  apply Ht.
Defined.

Lemma loadData_clears_loading_witness :
  Dashboard.loading Sample.dash_a = true
  ∧ Dashboard.loading (Dashboard.complete 2 None Sample.tasks_of_a Sample.events_of_a
                         Sample.dash_a) = false.
Proof.
  split; [reflexivity|].
  destruct (DashboardMoreFacts.loadData_clears_loading Sample.dash_a 2 1 (Some "A")
              None Sample.tasks_of_a Sample.events_of_a) as [Hl _];
    [reflexivity|reflexivity|].
  exact Hl.
Defined.

Lemma stale_load_is_dropped_witness :
  Dashboard.agents
    (Dashboard.complete 2 Sample.agents_of_a Sample.tasks_of_a Sample.events_of_a
       Fixture.dash_switched)
  = Dashboard.agents Fixture.dash_switched.
Proof.
  destruct (DashboardMoreFacts.stale_load_is_dropped Fixture.dash_switched 2 1 (Some "A"))
    as [Hdrop _].
  - by exists [Dashboard.Mount (Some "A"); Dashboard.Rerender (Some "B")].
  - intros w Hw. vm_compute in Hw. discriminate Hw.
  - destruct (Hdrop Sample.agents_of_a Sample.tasks_of_a Sample.events_of_a) as [Ha _];
      [reflexivity|exact Ha].
Defined.

Lemma hasChanges_false_iff_same_versions_witness :
  hasChanges [Sample.deploy; Sample.build] [Sample.build; Sample.deploy] = false.
Proof.
  apply (hasChanges_false_iff_same_versions
           [Sample.deploy; Sample.build] [Sample.build; Sample.deploy]).
  - apply (bool_decide_unpack _). vm_compute. exact I.
  - apply (bool_decide_unpack _). vm_compute. exact I.
  - simpl. apply perm_swap.
Defined.

Lemma page_load_clears_loading_witness :
  WorkspacePage.isLoading (WorkspacePage.st Sample.page_a) = true
  ∧ WorkspacePage.isLoading
      (WorkspacePage.st (WorkspacePage.complete 1 None None None Sample.page_a)) = false.
Proof.
  split; [reflexivity|].
  destruct (WorkspacePageMoreFacts.page_load_clears_loading Sample.page_a 1
              None None None) as [Hl _]; [reflexivity|].
  exact Hl.
Defined.

Lemma event_poll_outcomes_witness :
  WorkspacePage.st
    (WorkspacePage.body 7
       (WorkspacePage.settle_events 7 (Some Sample.not_ok) Fixture.page_event_poll))
  = WorkspacePage.st Fixture.page_event_poll.
Proof.
  destruct (WorkspacePageMoreFacts.event_poll_outcomes Fixture.page_event_poll 7
              (Some Sample.not_ok)) as [_ Hs]; [reflexivity|].
  exact Hs.
Defined.

Lemma import_outcomes_witness :
  let s' := DiscoverAgentsModal.handleImport (Some "A")
              (Some (DiscoverAgentsModal.mkReply true 200%N
                       (Some (DiscoverAgentsModal.mkImportBody None
                                (Some [Sample.alice]) None))))
              None Fixture.dialog in
  DiscoverAgentsModal.importing s' = false
  ∧ DiscoverAgentsModal.error s' = Some "Failed to import agents".
Proof.
  destruct (DiscoverAgentsModalFacts.import_outcomes (Some "A")
              (Some (DiscoverAgentsModal.mkReply true 200%N
                       (Some (DiscoverAgentsModal.mkImportBody None
                                (Some [Sample.alice]) None))))
              None Fixture.dialog)
    as (Hi & _ & _ & _ & _ & He); [by vm_compute|].
  split; [exact Hi|exact He].
Defined.

Lemma last_completed_refresh_wins_witness :
  Dashboard.agents
    (Dashboard.complete 5 (Some (Sample.ok_with [Sample.alice]))
       (Some Sample.not_ok) (Some (Sample.ok_with []))
       (Dashboard.complete 6 (Some (Sample.ok_with [Sample.bob]))
          (Some (Sample.ok_with [Sample.build])) (Some Sample.not_ok)
          Fixture.dash_two_refreshes))
  = [Sample.alice].
Proof.
  destruct (DashboardMoreFacts.last_completed_refresh_wins Fixture.dash_two_refreshes
              6 5 (Some "A") (Some "A")
              (Sample.ok_with [Sample.bob]) (Sample.ok_with [Sample.alice])
              (Sample.ok_with [Sample.build]) Sample.not_ok
              Sample.not_ok (Sample.ok_with []))
    as [Ha _].
  - reflexivity.
  - reflexivity.
  - discriminate.
  - intros _. by eexists.
  - intros _. by eexists.
  - discriminate.
  - intros _. by eexists.
  - discriminate.
  - intros _. by eexists.
  - exact Ha.
Defined.

Lemma dashboard_requests_witness :
  DashboardInvariants.path_of "/api/events?limit=150" = "/api/events"
  ∧ limit_of "/api/events?limit=150" = Some "150".
Proof.
  destruct (DashboardMoreFacts.dashboard_requests Sample.dash_a "/api/events?limit=150")
    as [_ Hl].
  - by exists [Dashboard.Mount (Some "A")].
  - vm_compute. right. right. left.
  - split; [reflexivity|]. by apply Hl.
Defined.

Lemma import_sends_the_selection_witness :
  length (DiscoverAgentsModal.agentsToImport (Some "A") Fixture.dialog)
  = size (DiscoverAgentsModal.selectedIds Fixture.dialog).
Proof.
  destruct (DiscoverAgentsModalFacts.import_sends_the_selection (Some "A") Fixture.dialog)
    as [Hl _].
  - apply (bool_decide_unpack _). vm_compute. exact I.
  - intros id Hid. exists Fixture.scout.
    assert (id = "g1") as ->; [|split; [by left|done]].
    change (DiscoverAgentsModal.selectedIds Fixture.dialog) with
      (DiscoverAgentsModal.toggle "g1" ∅) in Hid.
    unfold DiscoverAgentsModal.toggle in Hid.
    rewrite bool_decide_eq_false_2 in Hid by set_solver. set_solver.
  - exact Hl.
Defined.

End MoreExamples.
